(** * websocket-server: session / topic membership engine

    A shallow embedding of the relay's in-memory core (room manager,
    presence service, typing timers, HTTP client with retry, connection
    lifecycle and message router), followed by the properties stated
    about it.

    Conventions of the embedding.
    - A JavaScript [Map] is a [gmap]; a JavaScript [Set] is the list of
      its elements in insertion order, without duplicates.
    - Objects held only through one map entry (room sets, user records)
      are updated by re-inserting the changed value.
    - Everything a handler obtains from the outside (results of [fetch],
      of [JSON.parse], the clock) is an argument of the handler.  A
      handler runs from start to end as one step, with the answers of
      its downstream calls supplied up front.
    - [ws.send] and [ws.close] are recorded in a trace and do not throw. *)

From stdpp Require Import gmap strings list fin_maps pretty.
From Stdlib Require Import NArith.

Open Scope string_scope.
Open Scope list_scope.

(** * Part I: the program *)

(** ** Runtime values *)

(** A connection handle ([ServerWebSocket]) and a timer handle
    ([NodeJS.Timeout]) are objects compared by identity. *)
Definition WS := nat.
Definition TimerId := nat.

(** *** JavaScript [Set] *)

Definition Set_has {A} `{EqDecision A} (x : A) (s : list A) : bool :=
  bool_decide (x ∈ s).

Definition Set_add {A} `{EqDecision A} (x : A) (s : list A) : list A :=
  if decide (x ∈ s) then s else s ++ [x].

Definition Set_delete {A} `{EqDecision A} (x : A) (s : list A) : list A :=
  filter (λ y, y ≠ x) s.

(** [new Set(iterable)] *)
Definition Set_of {A} `{EqDecision A} (xs : list A) : list A :=
  foldl (λ s x, Set_add x s) [] xs.

(** *** Values produced by [JSON.parse] *)

(** No handler reads the value of a number, so numbers are integers. *)
Inductive JsValue :=
| JUndefined
| JNull
| JBool (b : bool)
| JNumber (n : Z)
| JString (s : string)
| JArray (items : list JsValue)
| JObject (fields : list (string * JsValue)).

Definition typeof (v : JsValue) : string :=
  match v with
  | JUndefined => "undefined"
  | JBool _ => "boolean"
  | JNumber _ => "number"
  | JString _ => "string"
  | JNull | JArray _ | JObject _ => "object"
  end.

Definition truthy (v : JsValue) : bool :=
  match v with
  | JUndefined | JNull => false
  | JBool b => b
  | JNumber n => negb (n =? 0)%Z
  | JString s => negb (String.eqb s "")
  | JArray _ | JObject _ => true
  end.

(** The fields of a parsed object have distinct keys. *)
Fixpoint assoc (k : string) (fields : list (string * JsValue)) : JsValue :=
  match fields with
  | [] => JUndefined
  | (k', v) :: rest => if String.eqb k k' then v else assoc k rest
  end.

(** Property read [v.k] of a value that is neither [null] nor
    [undefined]. *)
Definition prop (k : string) (v : JsValue) : JsValue :=
  match v with
  | JObject fields => assoc k fields
  | _ => JUndefined
  end.

(** A JavaScript string as its UTF-16 code units; [length] of the list
    is the string's [.length]. *)
Definition JsString := list N.

(** [Buffer.byteLength(s, 'utf-8')]: the size in bytes of the UTF-8
    encoding of [s], which is the payload size of a text frame. *)
Fixpoint utf8ByteLength (s : JsString) : N :=
  match s with
  | [] => 0
  | c :: rest =>
      if (c <=? 127)%N then 1 + utf8ByteLength rest
      else if (c <=? 2047)%N then 2 + utf8ByteLength rest
      else if ((55296 <=? c) && (c <=? 56319))%N then
        match rest with
        | d :: rest' =>
            if ((56320 <=? d) && (d <=? 57343))%N
            then 4 + utf8ByteLength rest'
            else 3 + utf8ByteLength rest
        | [] => 3
        end
      else 3 + utf8ByteLength rest
  end%N.

(** ** Errors ([utils/errors.ts]) *)

(** The class of a thrown value: a plain [Error] (also [TypeError],
    [SyntaxError], ...) or one of the [WebSocketError] subclasses. *)
Inductive ErrorClass :=
| PlainError
| AuthenticationError
| ValidationError
| NotParticipantError
| HttpError (statusCode : option N)
| InternalError.

Record JsError := mkError {
  errClass : ErrorClass;
  errMessage : string;
  errDetails : option JsValue;
}.

(** [error instanceof WebSocketError] *)
Definition isWebSocketError (e : JsError) : bool :=
  match errClass e with PlainError => false | _ => true end.

(** The [code] field set by each subclass constructor. *)
Definition code (e : JsError) : string :=
  match errClass e with
  | PlainError => ""
  | AuthenticationError => "AUTH_FAILED"
  | ValidationError => "VALIDATION_ERROR"
  | NotParticipantError => "NOT_PARTICIPANT"
  | HttpError _ => "HTTP_ERROR"
  | InternalError => "INTERNAL_ERROR"
  end.

Definition newError (message : string) : JsError :=
  mkError PlainError message None.

(** ** Wire types ([types/chat.ts], [types/websocket.ts], [types/user.ts]) *)

Record Message := mkMessage {
  msg_id : string;
  msg_chatId : string;
  msg_senderId : string;
  msg_senderName : string;
  msg_content : string;
  msg_createdAt : string;
}.

Record Chat := mkChat { chat_id : string }.

Record ChatsResponse := mkChatsResponse { chats : list Chat }.

Record CreateMessageResponse := mkCreateMessageResponse { message : Message }.

(** Outbound frames [{ type, payload }], before [JSON.stringify]. *)
Inductive OutFrame :=
| Connected (userId : string) (chatIds : list string)
| ChatMessage (chatId : string) (message : Message)
| ChatRead (chatId messageId userId readAt : string)
| ChatTyping (chatId userId userName : string) (isTyping : bool)
| UserOnline (userId : string) (online : bool)
| Pong (timestamp : string)
| ErrorFrame (code message : string) (details : option JsValue).

Record ConnectedUser := mkUser {
  userId : string;
  userName : string;
  email : string;
  role : string;
  ws : WS;
  token : string;
  chatRooms : list string;
  connectedAt : string;
  typingTimers : gmap string TimerId;
}.

(** ** Configuration ([config/env.ts]) *)

Record Config := mkConfig {
  typingTimeout : N;
  maxMessageSize : N;
  development : bool;   (* process.env.NODE_ENV === 'development' *)
}.

Definition defaultConfig : Config := mkConfig 3000 10000 false.

(** ** Server state and observable effects *)

(** What a closure passed to [setTimeout] by the typing handler
    captured. *)
Record TimerCallback := mkCallback {
  cb_chatId : string;
  cb_userId : string;
  cb_userName : string;
  cb_ws : WS;
}.

Inductive Effect :=
| Sent (to : WS) (frame : OutFrame)
| Closed (on : WS) (closeCode : N) (reason : string)
| JsonParse
| HttpFetch (method endpoint : string) (attempt : nat)
| Sleep (ms : N).

Record RoomManagerImpl := mkRooms {
  rooms : gmap string (list WS);
  wsRooms : gmap WS (list string);
}.

Record PresenceService := mkPresence {
  connectedUsers : gmap string ConnectedUser;
  wsToUserId : gmap WS string;
}.

Record Server := mkServer {
  roomManager : RoomManagerImpl;
  presenceService : PresenceService;
  timers : gmap TimerId TimerCallback;   (* armed timeouts *)
  nextTimerId : TimerId;
  initialized : list WS;                 (* sockets with ws.data.initialized *)
  trace : list Effect;
}.

Definition initialServer : Server :=
  mkServer (mkRooms ∅ ∅) (mkPresence ∅ ∅) ∅ 0 [] [].

Definition setRoomManager (rm : RoomManagerImpl) (st : Server) : Server :=
  mkServer rm (presenceService st) (timers st) (nextTimerId st)
           (initialized st) (trace st).

Definition setPresence (ps : PresenceService) (st : Server) : Server :=
  mkServer (roomManager st) ps (timers st) (nextTimerId st)
           (initialized st) (trace st).

Definition setTimers (ts : gmap TimerId TimerCallback) (st : Server) : Server :=
  mkServer (roomManager st) (presenceService st) ts (nextTimerId st)
           (initialized st) (trace st).

Definition emit (es : list Effect) (st : Server) : Server :=
  mkServer (roomManager st) (presenceService st) (timers st) (nextTimerId st)
           (initialized st) (trace st ++ es).

(** [ws.send(JSON.stringify(frame))] *)
Definition send (to : WS) (frame : OutFrame) (st : Server) : Server :=
  emit [Sent to frame] st.

Definition close (on : WS) (closeCode : N) (reason : string) (st : Server)
  : Server :=
  emit [Closed on closeCode reason] st.

(** [setTimeout(callback, delay)]: a fresh armed handle. *)
Definition setTimeout (cb : TimerCallback) (st : Server) : TimerId * Server :=
  (nextTimerId st,
   mkServer (roomManager st) (presenceService st)
            (<[nextTimerId st := cb]> (timers st)) (S (nextTimerId st))
            (initialized st) (trace st)).

Definition clearTimeout (t : TimerId) (st : Server) : Server :=
  setTimers (delete t (timers st)) st.

(** *** Handlers: state and exceptions *)

Definition M (A : Type) : Type := Server → (JsError + A) * Server.

Definition ret {A} (a : A) : M A := λ st, (inr a, st).
Definition throw {A} (e : JsError) : M A := λ st, (inl e, st).
Definition bind {A B} (m : M A) (k : A → M B) : M B :=
  λ st, match m st with
        | (inr a, st') => k a st'
        | (inl e, st') => (inl e, st')
        end.
Definition tryCatch {A} (body : M A) (handler : JsError → M A) : M A :=
  λ st, match body st with
        | (inr a, st') => (inr a, st')
        | (inl e, st') => handler e st'
        end.
(** A statement that changes the state and does not throw. *)
Definition exec (f : Server → Server) : M unit := λ st, (inr tt, f st).
(** An awaited call whose outcome and effects are already known. *)
Definition await {A} (r : (JsError + A) * list Effect) : M A :=
  λ st, (r.1, emit r.2 st).

Declare Scope js_scope.
Delimit Scope js_scope with js.
Notation "x <- m ;; k" := (bind m (λ x, k))
  (at level 100, m at next level, right associativity) : js_scope.
Notation "m ;;; k" := (bind m (λ _, k))
  (at level 100, right associativity) : js_scope.
Open Scope js_scope.

(** ** Room manager ([services/room-manager.ts]) *)

Definition joinRoom (chatId : string) (ws : WS) (rm : RoomManagerImpl)
  : RoomManagerImpl :=
  let rooms1 :=
    if bool_decide (is_Some (rooms rm !! chatId)) then rooms rm
    else <[chatId := []]> (rooms rm) in
  let rooms2 := alter (Set_add ws) chatId rooms1 in
  let wsRooms1 :=
    if bool_decide (is_Some (wsRooms rm !! ws)) then wsRooms rm
    else <[ws := []]> (wsRooms rm) in
  let wsRooms2 := alter (Set_add chatId) ws wsRooms1 in
  mkRooms rooms2 wsRooms2.

(** [room.delete(ws); if (room.size === 0) this.rooms.delete(chatId)],
    the step that [leaveRoom] and the loop of [leaveAllRooms] both take
    on the room of [chatId] when it exists. *)
Definition dropFromRoom (ws : WS) (rs : gmap string (list WS))
    (chatId : string) : gmap string (list WS) :=
  match rs !! chatId with
  | Some room =>
      let room' := Set_delete ws room in
      if bool_decide (length room' = 0) then delete chatId rs
      else <[chatId := room']> rs
  | None => rs
  end.

Definition leaveRoom (chatId : string) (ws : WS) (rm : RoomManagerImpl)
  : RoomManagerImpl :=
  let rooms' := dropFromRoom ws (rooms rm) chatId in
  let wsRooms' :=
    match wsRooms rm !! ws with
    | Some wsRoomSet =>
        let wsRoomSet' := Set_delete chatId wsRoomSet in
        if bool_decide (length wsRoomSet' = 0) then delete ws (wsRooms rm)
        else <[ws := wsRoomSet']> (wsRooms rm)
    | None => wsRooms rm
    end in
  mkRooms rooms' wsRooms'.

Definition leaveAllRooms (ws : WS) (rm : RoomManagerImpl) : RoomManagerImpl :=
  match wsRooms rm !! ws with
  | Some wsRoomSet =>
      mkRooms (foldl (dropFromRoom ws) (rooms rm) wsRoomSet)
              (delete ws (wsRooms rm))
  | None => rm
  end.

Definition getRoomParticipants (chatId : string) (rm : RoomManagerImpl)
  : list WS :=
  match rooms rm !! chatId with Some room => room | None => [] end.

Definition getRoomCount (chatId : string) (rm : RoomManagerImpl) : nat :=
  match rooms rm !! chatId with Some room => length room | None => 0 end.

(** The connections the loop of [broadcastToRoom] sends to: the members
    of the room in iteration order, skipping [excludeWs] when given. *)
Definition recipients (chatId : string) (excludeWs : option WS)
    (rm : RoomManagerImpl) : list WS :=
  match rooms rm !! chatId with
  | None => []
  | Some room => filter (λ ws, excludeWs ≠ Some ws) room
  end.

Definition broadcastToRoom (chatId : string) (frame : OutFrame)
    (excludeWs : option WS) (st : Server) : Server :=
  emit ((λ ws, Sent ws frame) <$> recipients chatId excludeWs (roomManager st))
       st.

(** Calls of the registry's mutating interface, and the registries
    they build from the empty one. *)
Inductive RoomCall :=
| Join (chatId : string) (ws : WS)
| Leave (chatId : string) (ws : WS)
| LeaveAll (ws : WS).

Definition roomCall (rm : RoomManagerImpl) (c : RoomCall) : RoomManagerImpl :=
  match c with
  | Join chatId ws => joinRoom chatId ws rm
  | Leave chatId ws => leaveRoom chatId ws rm
  | LeaveAll ws => leaveAllRooms ws rm
  end.

Definition roomCalls (cs : list RoomCall) : RoomManagerImpl :=
  foldl roomCall (mkRooms ∅ ∅) cs.

(** ** Presence service ([services/presence.ts]) *)

Definition addUser (user : ConnectedUser) (ps : PresenceService)
  : PresenceService :=
  mkPresence (<[userId user := user]> (connectedUsers ps))
             (<[ws user := userId user]> (wsToUserId ps)).

(** The timer handles of [user.typingTimers.values()]. *)
Definition timerHandles (user : ConnectedUser) : list TimerId :=
  (map_to_list (typingTimers user)).*2.

Definition removeUser (ws : WS) (st : Server)
  : option ConnectedUser * Server :=
  match wsToUserId (presenceService st) !! ws with
  | None => (None, st)
  | Some userId =>
      if String.eqb userId "" then (None, st)
      else
        match connectedUsers (presenceService st) !! userId with
        | Some user =>
            let st1 := foldl (λ s t, clearTimeout t s) st (timerHandles user) in
            (Some user,
             setPresence
               (mkPresence (delete userId (connectedUsers (presenceService st1)))
                           (delete ws (wsToUserId (presenceService st1))))
               st1)
        | None => (None, st)
        end
  end.

Definition getUserByWs (ws : WS) (ps : PresenceService)
  : option ConnectedUser :=
  match wsToUserId ps !! ws with
  | None => None
  | Some userId =>
      if String.eqb userId "" then None else connectedUsers ps !! userId
  end.

Definition getUser (userId : string) (ps : PresenceService)
  : option ConnectedUser :=
  connectedUsers ps !! userId.

Definition isUserOnline (userId : string) (ps : PresenceService) : bool :=
  bool_decide (is_Some (connectedUsers ps !! userId)).

Definition broadcastPresence (userId : string) (online : bool)
    (chatIds : list string) (st : Server) : Server :=
  snd (foldl
         (λ '(broadcastedRooms, s) chatId,
            if negb (Set_has chatId broadcastedRooms)
            then (Set_add chatId broadcastedRooms,
                  broadcastToRoom chatId (UserOnline userId online) None s)
            else (broadcastedRooms, s))
         ([], st) chatIds).

Definition setUserTimers (user : ConnectedUser)
    (ts : gmap string TimerId) : ConnectedUser :=
  mkUser (userId user) (userName user) (email user) (role user) (ws user)
         (token user) (chatRooms user) (connectedAt user) ts.

Definition setTypingTimer (userId chatId : string) (timer : TimerId)
    (st : Server) : Server :=
  match connectedUsers (presenceService st) !! userId with
  | Some user =>
      let st1 :=
        match typingTimers user !! chatId with
        | Some existingTimer => clearTimeout existingTimer st
        | None => st
        end in
      setPresence
        (mkPresence
           (<[userId := setUserTimers user (<[chatId := timer]> (typingTimers user))]>
              (connectedUsers (presenceService st1)))
           (wsToUserId (presenceService st1)))
        st1
  | None => st
  end.

Definition clearTypingTimer (userId chatId : string) (st : Server) : Server :=
  match connectedUsers (presenceService st) !! userId with
  | Some user =>
      match typingTimers user !! chatId with
      | Some timer =>
          let st1 := clearTimeout timer st in
          setPresence
            (mkPresence
               (<[userId := setUserTimers user (delete chatId (typingTimers user))]>
                  (connectedUsers (presenceService st1)))
               (wsToUserId (presenceService st1)))
            st1
      | None => st
      end
  | None => st
  end.

(** ** HTTP client ([services/http-client.ts]) *)

(** What one [fetch] attempt comes to.  [errorMessage] is the value of
    [errorData.message || response.statusText] and [errorData] the
    parsed error body, both read only when the status is not ok; [json]
    is the result of [response.json()] ([inl cause] when it rejects),
    read only when the status is ok. *)
Inductive AttemptOutcome (T : Type) :=
| FetchRejected (cause : string)
| Responded (status : N) (errorMessage : string) (errorData : JsValue)
            (json : string + T).
Arguments FetchRejected {T} cause.
Arguments Responded {T} status errorMessage errorData json.

(** [response.ok] *)
Definition responseOk (status : N) : bool :=
  ((200 <=? status) && (status <=? 299))%N.

(** The body of the [try] block for one attempt. *)
Definition attemptOnce {T} (o : AttemptOutcome T) : JsError + T :=
  match o with
  | FetchRejected cause => inl (newError cause)
  | Responded status errorMessage errorData json =>
      if negb (responseOk status) then
        inl (mkError (HttpError (Some status))
                     ("HTTP " +:+ pretty status +:+ ": " +:+ errorMessage)
                     (Some errorData))
      else
        match json with
        | inl cause => inl (newError cause)
        | inr v => inr v
        end
  end.

(** [error instanceof HttpError && error.statusCode && error.statusCode < 500] *)
Definition notRetried (error : JsError) : bool :=
  match errClass error with
  | HttpError (Some statusCode) =>
      negb (statusCode =? 0)%N && (statusCode <? 500)%N
  | _ => false
  end.

(** [Math.min(1000 * Math.pow(2, attempt), 5000)] *)
Definition backoffDelay (attempt : nat) : N :=
  N.min (1000 * 2 ^ N.of_nat attempt) 5000.

(** The error thrown below the loop; [lastError?.message] is
    [undefined] when no attempt was made. *)
Definition afterRetries (lastError : option JsError) : JsError :=
  mkError (HttpError None) "Request failed after retries"
    (Some (JObject [("originalError",
                     match lastError with
                     | Some e => JString (errMessage e)
                     | None => JUndefined
                     end)])).

(** The loop [for (attempt = 0; attempt < retries; attempt++)], entered
    at [attempt] with [remaining = retries - attempt] iterations left. *)
Fixpoint attemptLoop {T} (method endpoint : string)
    (responses : nat → AttemptOutcome T) (retries remaining attempt : nat)
    (lastError : option JsError) : (JsError + T) * list Effect :=
  match remaining with
  | 0 => (inl (afterRetries lastError), [])
  | S remaining' =>
      match attemptOnce (responses attempt) with
      | inr v => (inr v, [HttpFetch method endpoint attempt])
      | inl error =>
          if notRetried error then
            (inl error, [HttpFetch method endpoint attempt])
          else if bool_decide (attempt = retries - 1) then
            (inl (afterRetries (Some error)), [HttpFetch method endpoint attempt])
          else
            let r := attemptLoop method endpoint responses retries remaining'
                                 (S attempt) (Some error) in
            (r.1, HttpFetch method endpoint attempt
                    :: Sleep (backoffDelay attempt) :: r.2)
      end
  end.

Definition makeRequest {T} (method endpoint : string)
    (responses : nat → AttemptOutcome T) (retries : nat)
  : (JsError + T) * list Effect :=
  attemptLoop method endpoint responses retries retries 0 None.

(** The default of the [retries] parameter, which every caller takes. *)
Definition defaultRetries : nat := 3.

Definition getChats (token : string)
    (responses : nat → AttemptOutcome ChatsResponse) :=
  makeRequest "GET" "/chats" responses defaultRetries.

Definition sendMessage (chatId content token : string)
    (responses : nat → AttemptOutcome CreateMessageResponse) :=
  makeRequest "POST" ("/chats/" +:+ chatId +:+ "/messages") responses
              defaultRetries.

Definition markMessageAsRead (chatId messageId token : string)
    (responses : nat → AttemptOutcome unit) :=
  makeRequest "PUT" ("/chats/" +:+ chatId +:+ "/messages/" +:+ messageId +:+ "/read")
              responses defaultRetries.

(** ** Authentication ([auth/jwt.ts]) *)

Module Jwt.

Record UserProfile := mkProfile {
  userId : string;
  email : string;
  name : string;
  role : string;
}.

(** The request of a connection, as far as [extractToken] reads it:
    [searchParams.get('token')] ([None] also when the URL does not
    parse) and the capture of the [Bearer] pattern on the
    authorization header ([None] when absent or not matching). *)
Record Request := mkRequest {
  tokenFromQuery : option string;
  bearerFromHeader : option string;
}.

Definition extractToken (request : Request) : option string :=
  match tokenFromQuery request with
  | Some t => if String.eqb t "" then
                match bearerFromHeader request with
                | Some b => if String.eqb b "" then None else Some b
                | None => None
                end
              else Some t
  | None =>
      match bearerFromHeader request with
      | Some b => if String.eqb b "" then None else Some b
      | None => None
      end
  end.

(** The answer of [GET /auth/profile]; [profile] is the [user] field of
    the JSON body ([inl cause] when reading it throws). *)
Inductive ProfileFetch :=
| ProfileFetchRejected (cause : string)
| ProfileResponded (status : N) (statusText : string)
                   (profile : string + UserProfile).

Definition authError (message : string) : JsError :=
  mkError AuthenticationError message None.

Definition verifyToken (answer : ProfileFetch) : JsError + UserProfile :=
  match answer with
  | ProfileFetchRejected cause =>
      inl (authError ("Authentication failed: " +:+ cause))
  | ProfileResponded status statusText profile =>
      if negb (responseOk status) then
        if (status =? 401)%N then inl (authError "Invalid or expired token")
        else if (status =? 403)%N then inl (authError "Access forbidden")
        else inl (authError ("Authentication failed: " +:+ statusText))
      else
        match profile with
        | inl cause => inl (authError ("Authentication failed: " +:+ cause))
        | inr profile =>
            if String.eqb (userId profile) "" || String.eqb (email profile) ""
               || String.eqb (name profile) ""
            then inl (authError "Invalid user profile")
            else inr profile
        end
  end.

Definition authenticateConnection (request : Request) (answer : ProfileFetch)
  : JsError + UserProfile :=
  match extractToken request with
  | None => inl (authError "No authentication token provided")
  | Some token => verifyToken answer
  end.

End Jwt.

(** ** Connection lifecycle ([handlers/connection.ts]) *)

Definition sendError (ws : WS) (code message : string)
    (details : option JsValue) (st : Server) : Server :=
  send ws (ErrorFrame code message details) st.

(** What the environment answers while a connection opens. *)
Record OpenInput := mkOpenInput {
  request : Jwt.Request;
  profileAnswer : Jwt.ProfileFetch;
  chatsAnswers : nat → AttemptOutcome ChatsResponse;
  openedAt : string;
}.

(** The loop sending the new connection the online status of the
    users already connected in its chats. *)
Definition backfillOnline (ws : WS) (newUserId : string)
    (chatIds : list string) (st : Server) : Server :=
  snd (foldl
         (λ acc chatId,
            foldl
              (λ '(onlineUsers, s) participantWs,
                 match getUserByWs participantWs (presenceService s) with
                 | Some participant =>
                     if negb (String.eqb (userId participant) newUserId)
                        && negb (Set_has (userId participant) onlineUsers)
                     then (Set_add (userId participant) onlineUsers,
                           send ws (UserOnline (userId participant) true) s)
                     else (onlineUsers, s)
                 | None => (onlineUsers, s)
                 end)
              acc (getRoomParticipants chatId (roomManager (snd acc))))
         ([], st) chatIds).

(** The [catch] block of [handleConnection]. *)
Definition connectionFailed (ws : WS) (error : JsError) : M unit :=
  match errClass error with
  | AuthenticationError =>
      exec (sendError ws "AUTH_FAILED" (errMessage error) (errDetails error)) ;;;
      exec (close ws 4001 "Authentication failed")
  | _ =>
      exec (sendError ws "INTERNAL_ERROR" "Internal server error" None) ;;;
      exec (close ws 1011 "Internal error")
  end.

(** The steps of [handleConnection] up to the registration of the
    session and its rooms are the same in both revisions of the file. *)
Definition joinAll (ws : WS) (chatIds : list string) (st : Server) : Server :=
  setRoomManager
    (foldl (λ rm chatId, joinRoom chatId ws rm) (roomManager st) chatIds) st.

Definition fetchChatIds (token : string)
    (answers : nat → AttemptOutcome ChatsResponse) : M (list string) :=
  tryCatch
    (chatsResponse <- await (getChats token answers) ;;
     ret (chat_id <$> chats chatsResponse))
    (λ _, ret []).

Definition newConnectedUser (profile : Jwt.UserProfile) (ws : WS)
    (token : string) (chatIds : list string) (now : string) : ConnectedUser :=
  mkUser (Jwt.userId profile) (Jwt.name profile) (Jwt.email profile)
         (Jwt.role profile) ws token (Set_of chatIds) now ∅.

(** [handleConnection], revision sending the confirmation first, then
    the online status of the peers, then the announcement. *)
Definition handleConnection (ws : WS) (input : OpenInput) : M unit :=
  tryCatch
    (match Jwt.extractToken (request input) with
     | None =>
         exec (sendError ws "AUTH_FAILED" "No authentication token provided" None) ;;;
         exec (close ws 4001 "Authentication failed")
     | Some token =>
         userProfile <- await (Jwt.authenticateConnection (request input)
                                 (profileAnswer input), []) ;;
         let userId := Jwt.userId userProfile in
         chatIds <- fetchChatIds token (chatsAnswers input) ;;
         let connectedUser :=
           newConnectedUser userProfile ws token chatIds (openedAt input) in
         exec (λ st, setPresence (addUser connectedUser (presenceService st)) st) ;;;
         exec (joinAll ws chatIds) ;;;
         exec (send ws (Connected userId chatIds)) ;;;
         exec (backfillOnline ws userId chatIds) ;;;
         exec (broadcastPresence userId true chatIds)
     end)
    (connectionFailed ws).

(** [handleConnection], revision announcing presence before the
    confirmation and sending no peer status. *)
Definition handleConnection_announceFirst (ws : WS) (input : OpenInput)
  : M unit :=
  tryCatch
    (match Jwt.extractToken (request input) with
     | None =>
         exec (sendError ws "AUTH_FAILED" "No authentication token provided" None) ;;;
         exec (close ws 4001 "Authentication failed")
     | Some token =>
         userProfile <- await (Jwt.authenticateConnection (request input)
                                 (profileAnswer input), []) ;;
         let userId := Jwt.userId userProfile in
         chatIds <- fetchChatIds token (chatsAnswers input) ;;
         let connectedUser :=
           newConnectedUser userProfile ws token chatIds (openedAt input) in
         exec (λ st, setPresence (addUser connectedUser (presenceService st)) st) ;;;
         exec (joinAll ws chatIds) ;;;
         exec (broadcastPresence userId true chatIds) ;;;
         exec (send ws (Connected userId chatIds))
     end)
    (connectionFailed ws).

Definition handleDisconnection (ws : WS) (st : Server) : Server :=
  match getUserByWs ws (presenceService st) with
  | Some user =>
      let chatIds := chatRooms user in
      let st1 := snd (removeUser ws st) in
      let st2 := setRoomManager (leaveAllRooms ws (roomManager st1)) st1 in
      broadcastPresence (userId user) false chatIds st2
  | None => st
  end.

Definition handlePing (ws : WS) (now : string) : M unit :=
  exec (send ws (Pong now)).

(** ** Event handlers ([handlers/message.ts], [read.ts], [typing.ts]) *)

(** Destructuring [const { a, b } = payload] throws a [TypeError] on
    [null] and [undefined]. *)
Definition destructure (v : JsValue) : M unit :=
  match v with
  | JUndefined | JNull =>
      throw (newError "Cannot destructure property of null or undefined")
  | _ => ret tt
  end.

Definition stringOf (v : JsValue) : string :=
  match v with JString s => s | _ => "" end.

Definition isString (v : JsValue) : bool := String.eqb (typeof v) "string".

Definition validationError (message : string) : JsError :=
  mkError ValidationError message None.

Definition notParticipantError (message : string) : JsError :=
  mkError NotParticipantError message None.

Definition currentUser (ws : WS) : M ConnectedUser :=
  λ st, match getUserByWs ws (presenceService st) with
        | Some user => (inr user, st)
        | None => (inl (newError "User not found in presence service"), st)
        end.

Definition handleChatMessage (ws : WS) (payload : JsValue)
    (answers : nat → AttemptOutcome CreateMessageResponse) : M unit :=
  user <- currentUser ws ;;
  destructure payload ;;;
  let chatId := prop "chatId" payload in
  let content := prop "content" payload in
  if negb (truthy chatId) || negb (isString chatId) then
    throw (validationError "Invalid chatId")
  else if negb (truthy content) || negb (isString content) then
    throw (validationError "Invalid message content")
  else if bool_decide (String.length (stringOf content) = 0) then
    throw (validationError "Message content cannot be empty")
  else if negb (Set_has (stringOf chatId) (chatRooms user)) then
    throw (notParticipantError "You are not a participant in this chat")
  else
    response <- await (sendMessage (stringOf chatId) (stringOf content)
                                   (token user) answers) ;;
    exec (broadcastToRoom (stringOf chatId)
            (ChatMessage (stringOf chatId) (message response)) (Some ws)).

Definition handleChatRead (ws : WS) (payload : JsValue)
    (answers : nat → AttemptOutcome unit) (now : string) : M unit :=
  user <- currentUser ws ;;
  destructure payload ;;;
  let chatId := prop "chatId" payload in
  let messageId := prop "messageId" payload in
  if negb (truthy chatId) || negb (isString chatId) then
    throw (validationError "Invalid chatId")
  else if negb (truthy messageId) || negb (isString messageId) then
    throw (validationError "Invalid messageId")
  else if negb (Set_has (stringOf chatId) (chatRooms user)) then
    throw (notParticipantError "You are not a participant in this chat")
  else
    await (markMessageAsRead (stringOf chatId) (stringOf messageId)
                             (token user) answers) ;;;
    exec (broadcastToRoom (stringOf chatId)
            (ChatRead (stringOf chatId) (stringOf messageId) (userId user) now)
            (Some ws)).

(** The closure installed by the typing handler, run when its timer
    fires. *)
Definition typingTimedOut (cb : TimerCallback) (st : Server) : Server :=
  broadcastToRoom (cb_chatId cb)
    (ChatTyping (cb_chatId cb) (cb_userId cb) (cb_userName cb) false)
    (Some (cb_ws cb)) st.

Definition handleChatTyping (ws : WS) (payload : JsValue) : M unit :=
  user <- currentUser ws ;;
  destructure payload ;;;
  let chatId := prop "chatId" payload in
  let isTyping := prop "isTyping" payload in
  if negb (truthy chatId) || negb (isString chatId) then
    throw (validationError "Invalid chatId")
  else if negb (String.eqb (typeof isTyping) "boolean") then
    throw (validationError "Invalid isTyping value")
  else if negb (Set_has (stringOf chatId) (chatRooms user)) then
    throw (notParticipantError "You are not a participant in this chat")
  else
    exec (broadcastToRoom (stringOf chatId)
            (ChatTyping (stringOf chatId) (userId user) (userName user)
                        (truthy isTyping))
            (Some ws)) ;;;
    if truthy isTyping then
      exec (clearTypingTimer (userId user) (stringOf chatId)) ;;;
      exec (λ st,
              let '(timer, st1) :=
                setTimeout (mkCallback (stringOf chatId) (userId user)
                                       (userName user) ws) st in
              setTypingTimer (userId user) (stringOf chatId) timer st1)
    else
      exec (clearTypingTimer (userId user) (stringOf chatId)).

(** ** Router and socket callbacks ([index.ts]) *)

(** An inbound [message: string | Buffer]; for a buffer, [decoded] is
    what [message.toString('utf-8')] returns. *)
Inductive RawMessage :=
| TextMessage (text : JsString)
| BufferMessage (bytes : list N) (decoded : JsString).

Definition messageStr (m : RawMessage) : JsString :=
  match m with
  | TextMessage text => text
  | BufferMessage _ decoded => decoded
  end.

(** The size of the frame's payload in bytes. *)
Definition rawByteSize (m : RawMessage) : N :=
  match m with
  | TextMessage text => utf8ByteLength text
  | BufferMessage bytes _ => N.of_nat (length bytes)
  end.

(** A frame and what the environment answers while it is handled:
    [parsed] is the result of [JSON.parse(messageStr)], [None] when it
    throws. *)
Record Inbound := mkInbound {
  raw : RawMessage;
  parsed : option JsValue;
  sendMessageAnswers : nat → AttemptOutcome CreateMessageResponse;
  markReadAnswers : nat → AttemptOutcome unit;
  receivedAt : string;
}.

(** The [catch] block of [handleMessage]. *)
Definition messageFailed (config : Config) (ws : WS) (error : JsError)
  : M unit :=
  if isWebSocketError error then
    exec (sendError ws (code error) (errMessage error) (errDetails error))
  else
    exec (sendError ws "INTERNAL_ERROR" "An internal error occurred"
            (if development config
             then Some (JObject [("error", JString (errMessage error))])
             else None)).

Definition handleMessage (config : Config) (ws : WS) (frame : Inbound)
  : M unit :=
  tryCatch
    (let messageStr := messageStr (raw frame) in
     if (maxMessageSize config <? N.of_nat (length messageStr))%N then
       exec (sendError ws "VALIDATION_ERROR" "Message too large" None)
     else
       exec (emit [JsonParse]) ;;;
       match parsed frame with
       | None => exec (sendError ws "INVALID_MESSAGE" "Invalid JSON format" None)
       | Some parsedMessage =>
           destructure parsedMessage ;;;
           let type := prop "type" parsedMessage in
           let payload := prop "payload" parsedMessage in
           if negb (truthy type) || negb (isString type) then
             exec (sendError ws "INVALID_MESSAGE"
                     "Missing or invalid message type" None)
           else if String.eqb (stringOf type) "chat:message" then
             handleChatMessage ws payload (sendMessageAnswers frame)
           else if String.eqb (stringOf type) "chat:read" then
             handleChatRead ws payload (markReadAnswers frame) (receivedAt frame)
           else if String.eqb (stringOf type) "chat:typing" then
             handleChatTyping ws payload
           else if String.eqb (stringOf type) "ping" then
             handlePing ws (receivedAt frame)
           else
             exec (sendError ws "INVALID_MESSAGE"
                     ("Unknown message type: " +:+ stringOf type) None)
       end)
    (messageFailed config ws).

Inductive Revision := BackfillThenAnnounce | AnnounceFirst.

(** [websocket.open] *)
Definition onOpen (rev : Revision) (ws : WS) (input : OpenInput)
    (st : Server) : Server :=
  let r := match rev with
           | BackfillThenAnnounce => handleConnection ws input st
           | AnnounceFirst => handleConnection_announceFirst ws input st
           end in
  match r.1 with
  | inr _ =>
      mkServer (roomManager r.2) (presenceService r.2) (timers r.2)
               (nextTimerId r.2) (Set_add ws (initialized r.2)) (trace r.2)
  | inl _ => r.2
  end.

(** [websocket.message] *)
Definition onMessage (config : Config) (ws : WS) (frame : Inbound)
    (st : Server) : Server :=
  if negb (Set_has ws (initialized st)) then
    close ws 4001 "Not authenticated"
      (sendError ws "AUTH_FAILED" "Connection not authenticated" None st)
  else (handleMessage config ws frame st).2.

(** [websocket.close] *)
Definition onClose (ws : WS) (st : Server) : Server :=
  handleDisconnection ws st.

(** An armed timer fires: the handle is spent and its closure runs.  A
    cleared handle never fires. *)
Definition onTimeout (t : TimerId) (st : Server) : Server :=
  match timers st !! t with
  | Some cb => typingTimedOut cb (setTimers (delete t (timers st)) st)
  | None => st
  end.

(** ** Runs of the server *)

Inductive Event :=
| Open (rev : Revision) (ws : WS) (input : OpenInput)
| Receive (ws : WS) (frame : Inbound)
| Close (ws : WS)
| TimerFired (t : TimerId).

Definition step (config : Config) (st : Server) (ev : Event) : Server :=
  match ev with
  | Open rev ws input => onOpen rev ws input st
  | Receive ws frame => onMessage config ws frame st
  | Close ws => onClose ws st
  | TimerFired t => onTimeout t st
  end.

Definition run (config : Config) (evs : list Event) : Server :=
  foldl (step config) initialServer evs.

(** ** HTTP client, further methods ([services/http-client.ts]) *)



Definition markAllMessagesAsRead (chatId token : string)
    (responses : nat → AttemptOutcome unit) :=
  makeRequest "PUT" ("/chats/" +:+ chatId +:+ "/read-all") responses
              defaultRetries.



(** ** Logger ([utils/logger.ts]) *)












(** ** Vocabulary of the properties *)

(** The frames a trace delivers, in order. *)
Definition sends (es : list Effect) : list (WS * OutFrame) :=
  omap (λ e, match e with Sent to frame => Some (to, frame) | _ => None end) es.

(** Representation invariant of the room manager's two indices. *)
Record rooms_wf (rm : RoomManagerImpl) : Prop := mkRoomsWf {
  wf_index : ∀ chatId ws,
    ws ∈ getRoomParticipants chatId rm ↔ chatId ∈ default [] (wsRooms rm !! ws);
  wf_rooms_nonempty : ∀ chatId, rooms rm !! chatId ≠ Some [];
  wf_wsRooms_nonempty : ∀ ws, wsRooms rm !! ws ≠ Some [];
  wf_rooms_nodup : ∀ chatId, NoDup (getRoomParticipants chatId rm);
}.

(** The effects of a request that answers at attempt [k]: the failed
    attempts before it, each followed by its backoff delay. *)
Fixpoint scheduleFrom (method endpoint : string) (attempt k : nat)
  : list Effect :=
  match k with
  | 0 => [HttpFetch method endpoint attempt]
  | S k' => HttpFetch method endpoint attempt :: Sleep (backoffDelay attempt)
              :: scheduleFrom method endpoint (S attempt) k'
  end.

Definition schedule (method endpoint : string) (k : nat) : list Effect :=
  scheduleFrom method endpoint 0 k.

(** An attempt that fails and is retried. *)
Definition transient {T} (o : AttemptOutcome T) : Prop :=
  ∃ e, attemptOnce o = inl e ∧ notRetried e = false.

(** The chat list [handleConnection] works with: the fetched one, or
    the empty list when the fetch fails. *)
Definition fetchedChatIds (token : string)
    (answers : nat → AttemptOutcome ChatsResponse) : list string :=
  match (getChats token answers).1 with
  | inr chatsResponse => chat_id <$> chats chatsResponse
  | inl _ => []
  end.

(** [user:online] notices for [uid] delivered to [peer]. *)
Definition isOnlineNotice (peer : WS) (uid : string) (e : Effect) : bool :=
  match e with
  | Sent to (UserOnline u true) => bool_decide (to = peer) && String.eqb u uid
  | _ => false
  end.

Definition onlineNotices (peer : WS) (uid : string) (es : list Effect) : nat :=
  length (List.filter (isOnlineNotice peer uid) es).

(** The Registry and the Directory agree on membership. *)
Definition consistent (st : Server) : Prop :=
  ∀ ws chatId,
    ws ∈ getRoomParticipants chatId (roomManager st) ↔
    ∃ user, getUserByWs ws (presenceService st) = Some user
            ∧ chatId ∈ chatRooms user.

(** An open is fresh when its socket has no directory entry and the
    identity it authenticates as, if any, has no session. *)
Definition freshOpen (st : Server) (ev : Event) : bool :=
  match ev with
  | Open _ ws input =>
      bool_decide (wsToUserId (presenceService st) !! ws = None)
      && match Jwt.authenticateConnection (request input) (profileAnswer input) with
         | inr profile =>
             bool_decide (connectedUsers (presenceService st)
                            !! Jwt.userId profile = None)
         | inl _ => true
         end
  | _ => true
  end.

(** Runs in which no two live connections share an identity. *)
Fixpoint distinctIdentities (config : Config) (st : Server)
    (evs : list Event) : bool :=
  match evs with
  | [] => true
  | ev :: evs' =>
      freshOpen st ev && distinctIdentities config (step config st ev) evs'
  end.

(** Two sessions registered one after the other, and the later one's
    record once the typing handler has stored the timers [ts] in it. *)
Definition bothAdded (first second : ConnectedUser) (st : Server) : Server :=
  setPresence (addUser second (addUser first (presenceService st))) st.

Definition withTypingTimers (user : ConnectedUser) (ts : gmap string TimerId)
    (st : Server) : Server :=
  setPresence
    (mkPresence
       (<[userId user := setUserTimers user ts]>
          (connectedUsers (presenceService st)))
       (wsToUserId (presenceService st)))
    st.

(** Two states that differ at most in the trace. *)
Definition sameState (st st' : Server) : Prop :=
  roomManager st' = roomManager st
  ∧ presenceService st' = presenceService st
  ∧ timers st' = timers st
  ∧ nextTimerId st' = nextTimerId st
  ∧ initialized st' = initialized st.

(** A session without its timer handles, and states with the same
    rooms and the same sessions up to timer handles. *)
Definition session (user : ConnectedUser) : ConnectedUser :=
  setUserTimers user ∅.

Definition sameSessions (st st' : Server) : Prop :=
  roomManager st' = roomManager st
  ∧ wsToUserId (presenceService st') = wsToUserId (presenceService st)
  ∧ session <$> connectedUsers (presenceService st')
    = session <$> connectedUsers (presenceService st).

(** The token and profile of a connection that authenticates. *)
Definition openOutcome (input : OpenInput) : option (string * Jwt.UserProfile) :=
  match Jwt.extractToken (request input) with
  | Some token =>
      match Jwt.verifyToken (profileAnswer input) with
      | inr profile => Some (token, profile)
      | inl _ => None
      end
  | None => None
  end.

(** What holds of the indices in every run. *)
Record indexed (st : Server) : Prop := mkIndexed {
  ix_rooms : rooms_wf (roomManager st);
  ix_key : ∀ uid user,
    connectedUsers (presenceService st) !! uid = Some user → userId user = uid;
}.

(** What holds in addition when identities are distinct: the two
    directory maps are inverse to each other and agree with the rooms. *)
Record paired (st : Server) : Prop := mkPaired {
  pr_indexed : indexed st;
  pr_user : ∀ uid user,
    connectedUsers (presenceService st) !! uid = Some user →
    uid ≠ "" ∧ wsToUserId (presenceService st) !! ws user = Some uid;
  pr_socket : ∀ w uid,
    wsToUserId (presenceService st) !! w = Some uid →
    ∃ user, connectedUsers (presenceService st) !! uid = Some user ∧ ws user = w;
  pr_consistent : consistent st;
}.

(** A handler that keeps the rooms and the sessions. *)
Definition keeps {A} (m : M A) : Prop := ∀ st, sameSessions st (m st).2.

Create HintDb keeps.

Ltac keeps_step :=
  match goal with
  | |- keeps (if ?b then _ else _) => destruct b
  | |- keeps (match ?x with _ => _ end) => destruct x
  | |- keeps _ => solve [eauto with keeps]
  end.

(** Every armed timer is the one its session stores for the chat, the
    session belongs to the socket that set it and is in the chat; no
    stored handle is one [setTimeout] has yet to hand out. *)
Record timersOwned (st : Server) : Prop := mkTimersOwned {
  to_armed : ∀ t cb,
    timers st !! t = Some cb →
    ∃ user, connectedUsers (presenceService st) !! cb_userId cb = Some user
            ∧ ws user = cb_ws cb
            ∧ typingTimers user !! cb_chatId cb = Some t
            ∧ cb_chatId cb ∈ chatRooms user;
  to_fresh : ∀ t cb, timers st !! t = Some cb → t < nextTimerId st;
  to_stored : ∀ uid user chatId t,
    connectedUsers (presenceService st) !! uid = Some user →
    typingTimers user !! chatId = Some t → t < nextTimerId st;
}.

(** A handler that maintains [I]. *)
Definition preserves (I : Server → Prop) {A} (m : M A) : Prop :=
  ∀ st, I st → I (m st).2.

Create HintDb preserves.

Ltac preserves_step :=
  match goal with
  | |- preserves _ (if ?b then _ else _) => destruct b
  | |- preserves _ (match ?x with _ => _ end) => destruct x
  | |- preserves _ _ => solve [eauto with preserves]
  end.

(** The number of fetches and the delays slept in a list of effects. *)
Definition fetches (es : list Effect) : nat :=
  length (List.filter (λ e, match e with HttpFetch _ _ _ => true | _ => false end) es).

Definition sleeps (es : list Effect) : list N :=
  omap (λ e, match e with Sleep ms => Some ms | _ => None end) es.

(** The three events that act on a chat, and the payloads their
    handlers accept: a non-empty string [chatId] and, for a message, a
    non-empty string [content]; for a read receipt, a non-empty string
    [messageId]; for a typing signal, a boolean [isTyping]. *)
Definition chatEvent (type : string) : bool :=
  String.eqb type "chat:message" || String.eqb type "chat:read"
  || String.eqb type "chat:typing".

Definition nonEmptyString (v : JsValue) : bool :=
  match v with JString s => negb (String.eqb s "") | _ => false end.

Definition acceptedPayload (type : string) (payload : JsValue) : bool :=
  nonEmptyString (prop "chatId" payload)
  && (if String.eqb type "chat:message" then
        nonEmptyString (prop "content" payload)
      else if String.eqb type "chat:read" then
        nonEmptyString (prop "messageId" payload)
      else
        match prop "isTyping" payload with JBool _ => true | _ => false end).

(** The details of an [INTERNAL_ERROR] reply of the router. *)
Definition internalDetails (config : Config) (message : string)
  : option JsValue :=
  if development config
  then Some (JObject [("error", JString message)])
  else None.

(** ** Scenarios *)

(** The text of a frame, for values whose strings are ASCII. *)
Definition codeUnits (s : string) : JsString :=
  (λ a, N.of_nat (Ascii.nat_of_ascii a)) <$> String.list_ascii_of_string s.

Definition quoted (s : string) : string :=
  String (Ascii.ascii_of_nat 34) s +:+ String (Ascii.ascii_of_nat 34) "".

(** [JSON.stringify] *)
Fixpoint stringify (v : JsValue) : string :=
  match v with
  | JUndefined | JNull => "null"
  | JBool true => "true"
  | JBool false => "false"
  | JNumber n => pretty n
  | JString s => quoted s
  | JArray items =>
      "[" +:+ (fix items_ (l : list JsValue) : string :=
                 match l with
                 | [] => ""
                 | x :: rest =>
                     match rest with
                     | [] => stringify x
                     | _ => stringify x +:+ "," +:+ items_ rest
                     end
                 end) items +:+ "]"
  | JObject fields =>
      "{" +:+ (fix fields_ (l : list (string * JsValue)) : string :=
                 match l with
                 | [] => ""
                 | (k, x) :: rest =>
                     match rest with
                     | [] => quoted k +:+ ":" +:+ stringify x
                     | _ => quoted k +:+ ":" +:+ stringify x +:+ "," +:+ fields_ rest
                     end
                 end) fields +:+ "}"
  end.

Definition noAnswer {T} : nat → AttemptOutcome T :=
  λ _, FetchRejected "fetch failed".

(** A text frame carrying [v], with the answers of the storage
    service to the two calls a handler may make. *)
Definition textFrame (v : JsValue)
    (sendAnswers : nat → AttemptOutcome CreateMessageResponse)
    (readAnswers : nat → AttemptOutcome unit) : Inbound :=
  mkInbound (TextMessage (codeUnits (stringify v))) (Some v)
            sendAnswers readAnswers "2024-01-01T12:01:00.000Z".

Definition envelope (type : string) (payload : list (string * JsValue))
  : JsValue :=
  JObject [("type", JString type); ("payload", JObject payload)].

(** A connection that authenticates as [uid] and whose chat list is
    [ids]. *)
Definition openAs (uid : string) (ids : list string) : OpenInput :=
  mkOpenInput
    (Jwt.mkRequest (Some ("token-" +:+ uid)) None)
    (Jwt.ProfileResponded 200 "OK"
       (inr (Jwt.mkProfile uid (uid +:+ "@example.com") uid "buyer")))
    (λ _, Responded 200 "" JNull (inr (mkChatsResponse (mkChat <$> ids))))
    "2024-01-01T12:00:00.000Z".

(** Two users in chat A; the first marks a message as read and the
    storage service accepts it. *)
Definition twoInChatA : Server :=
  run defaultConfig
    [Open BackfillThenAnnounce 1 (openAs "U" ["A"]);
     Open BackfillThenAnnounce 2 (openAs "V" ["A"])].

Definition markRead : Inbound :=
  textFrame (envelope "chat:read"
               [("chatId", JString "A"); ("messageId", JString "m1")])
            noAnswer (λ _, Responded 200 "" JNull (inr tt)).

(** A text frame of 4000 euro signs (U+20AC, three bytes each in
    UTF-8), which is not JSON. *)
Definition euroFrame : Inbound :=
  mkInbound (TextMessage (replicate 4000 8364%N)) None
            noAnswer noAnswer "2024-01-01T12:01:00.000Z".

(** Two server faults, then a success on the third attempt. *)
Definition twoFaultsThenOk (n : nat) : AttemptOutcome unit :=
  match n with
  | 0 | 1 => Responded 503 "Service Unavailable" JNull (inl "")
  | _ => Responded 200 "" JNull (inr tt)
  end.

(** Chat A has a member other than the sender, whose storage call
    fails with a server fault on every attempt. *)
Definition sendHello : Inbound :=
  textFrame (envelope "chat:message"
               [("chatId", JString "A"); ("content", JString "hello")])
            (λ _, Responded 500 "Internal Server Error" JNull (inl ""))
            noAnswer.

Definition typing (chatId : string) (isTyping : bool) : Inbound :=
  textFrame (envelope "chat:typing"
               [("chatId", JString chatId); ("isTyping", JBool isTyping)])
            noAnswer noAnswer.

(** User U types in chat A on socket 1, then opens a second connection
    (socket 2) which is closed again; V (socket 3) stays in chat A. *)
Definition secondConnectionClosed : Server :=
  run defaultConfig
    [Open BackfillThenAnnounce 1 (openAs "U" ["A"]);
     Open BackfillThenAnnounce 3 (openAs "V" ["A"]);
     Receive 1 (typing "A" true);
     Open BackfillThenAnnounce 2 (openAs "U" ["A"]);
     Close 2].

(** U opens two connections, and the first one is closed. *)
Definition firstConnectionClosed : Server :=
  run defaultConfig
    [Open BackfillThenAnnounce 1 (openAs "U" ["A"]);
     Open BackfillThenAnnounce 2 (openAs "U" ["A"]);
     Close 1].

(** U is in chats A and B when V, also in both, connects. *)
Definition oneInChatsAB : Server :=
  run defaultConfig [Open BackfillThenAnnounce 1 (openAs "U" ["A"; "B"])].


(** The storage service accepts a read receipt with 204 and no body,
    so reading the body as JSON fails. *)
Definition noContent (n : nat) : AttemptOutcome unit :=
  Responded 204 "No Content" JNull (inl "Unexpected end of JSON input").


(** A send-message frame, with the answers of the storage service. *)
Definition sendText (chatId content : string)
    (answers : nat → AttemptOutcome CreateMessageResponse) : Inbound :=
  textFrame (envelope "chat:message"
               [("chatId", JString chatId); ("content", JString content)])
            answers noAnswer.

(** The storage service stores the message at the first attempt. *)
Definition stored : CreateMessageResponse :=
  mkCreateMessageResponse
    (mkMessage "m7" "A" "U" "U" "hello" "2024-01-01T12:01:00.000Z").

(** An envelope with a type and no payload. *)
Definition bare (type : string) : Inbound :=
  textFrame (JObject [("type", JString type)]) noAnswer noAnswer.

(** The session of U on socket 1 in [twoInChatA]. *)
Definition sessionOfU : ConnectedUser :=
  mkUser "U" "U" "U@example.com" "buyer" 1 "token-U" ["A"]
         "2024-01-01T12:00:00.000Z" ∅.

Definition storesAtOnce (n : nat) : AttemptOutcome CreateMessageResponse :=
  Responded 200 "" JNull (inr stored).

(** A connection that presents no token. *)
Definition openWithoutToken : OpenInput :=
  mkOpenInput (Jwt.mkRequest None None) (Jwt.ProfileFetchRejected "")
              noAnswer "2024-01-01T12:00:00.000Z".

(** A connection that authenticates as [uid] while the storage service
    is down. *)
Definition openWhileStorageDown (uid : string) : OpenInput :=
  mkOpenInput
    (Jwt.mkRequest (Some ("token-" +:+ uid)) None)
    (Jwt.ProfileResponded 200 "OK"
       (inr (Jwt.mkProfile uid (uid +:+ "@example.com") uid "buyer")))
    noAnswer
    "2024-01-01T12:00:00.000Z".

(** * Part II: properties *)

(** ** JavaScript sets *)

Section JsSet.
Context {A : Type} `{EqDecision A}.
Implicit Types (x y : A) (s xs : list A).

Lemma elem_of_Set_add x y s : y ∈ Set_add x s ↔ y = x ∨ y ∈ s.
Proof.
  unfold Set_add. case_decide; [|rewrite elem_of_app, list_elem_of_singleton];
    naive_solver.
Qed.

Lemma NoDup_Set_add x s : NoDup s → NoDup (Set_add x s).
Proof.
  intros Hs. unfold Set_add. case_decide; [done|].
  apply NoDup_app. split_and!; [done| |apply NoDup_singleton].
  intros y Hy ->%list_elem_of_singleton. done.
Qed.

Lemma Set_add_member x s : x ∈ s → Set_add x s = s.
Proof. intros H. unfold Set_add. by rewrite decide_True. Qed.

Lemma elem_of_Set_delete x y s : y ∈ Set_delete x s ↔ y ≠ x ∧ y ∈ s.
Proof. unfold Set_delete. by rewrite list_elem_of_filter. Qed.

Lemma NoDup_Set_delete x s : NoDup s → NoDup (Set_delete x s).
Proof. apply NoDup_filter. Qed.

Lemma Set_delete_non_member x s : x ∉ s → Set_delete x s = s.
Proof.
  intros Hx. unfold Set_delete. induction s as [|y s IH]; [done|].
  rewrite not_elem_of_cons in Hx. destruct Hx as [Hne Hx].
  rewrite filter_cons_True by done. by rewrite IH.
Qed.

Lemma Set_delete_idemp x s : Set_delete x (Set_delete x s) = Set_delete x s.
Proof. apply Set_delete_non_member. rewrite elem_of_Set_delete. naive_solver. Qed.

Lemma Set_add_nonempty x s : Set_add x s ≠ [].
Proof.
  intros H. assert (x ∈ Set_add x s) as Hx by (apply elem_of_Set_add; auto).
  rewrite H in Hx. by apply not_elem_of_nil in Hx.
Qed.

Lemma elem_of_Set_of_aux xs acc y :
  y ∈ foldl (λ s x, Set_add x s) acc xs ↔ y ∈ acc ∨ y ∈ xs.
Proof.
  revert acc. induction xs as [|x xs IH]; intros acc; simpl.
  - rewrite elem_of_nil. naive_solver.
  - rewrite IH, elem_of_Set_add, elem_of_cons. naive_solver.
Qed.

Lemma elem_of_Set_of xs y : y ∈ Set_of xs ↔ y ∈ xs.
Proof.
  unfold Set_of. rewrite elem_of_Set_of_aux, elem_of_nil. naive_solver.
Qed.

Lemma NoDup_Set_of_aux xs acc :
  NoDup acc → NoDup (foldl (λ s x, Set_add x s) acc xs).
Proof.
  revert acc. induction xs as [|x xs IH]; intros acc Hacc; simpl; [done|].
  by apply IH, NoDup_Set_add.
Qed.

Lemma NoDup_Set_of xs : NoDup (Set_of xs).
Proof. apply NoDup_Set_of_aux, NoDup_nil_2. Qed.

Lemma Set_has_true x s : Set_has x s = true ↔ x ∈ s.
Proof. unfold Set_has. by rewrite bool_decide_eq_true. Qed.

Lemma Set_has_false x s : Set_has x s = false ↔ x ∉ s.
Proof. unfold Set_has. by rewrite bool_decide_eq_false. Qed.

End JsSet.

(** ** Room manager *)

Section Upsert.
Context {K : Type} `{Countable K} {V : Type}.

(** [if (!m.has(k)) m.set(k, new Set()); m.get(k).add(x)] on a map of
    sets. *)
Lemma lookup_upsert (f : list V → list V) (k k' : K) (m : gmap K (list V)) :
  alter f k (if bool_decide (is_Some (m !! k)) then m else <[k := []]> m) !! k'
  = if decide (k' = k) then Some (f (default [] (m !! k))) else m !! k'.
Proof.
  case_bool_decide as Hk; case_decide as Hkk; subst.
  - destruct Hk as [v Hv]. by rewrite lookup_alter_eq, Hv.
  - by rewrite lookup_alter_ne.
  - rewrite lookup_alter_eq, lookup_insert_eq.
    rewrite <-eq_None_not_Some in Hk. by rewrite Hk.
  - rewrite lookup_alter_ne, lookup_insert_ne; done.
Qed.

End Upsert.

Lemma rooms_joinRoom c w rm c' :
  rooms (joinRoom c w rm) !! c'
  = if decide (c' = c) then Some (Set_add w (getRoomParticipants c rm))
    else rooms rm !! c'.
Proof.
  unfold joinRoom, getRoomParticipants; simpl. rewrite lookup_upsert.
  case_decide; [|done]. by destruct (rooms rm !! c).
Qed.

Lemma wsRooms_joinRoom c w rm w' :
  wsRooms (joinRoom c w rm) !! w'
  = if decide (w' = w) then Some (Set_add c (default [] (wsRooms rm !! w)))
    else wsRooms rm !! w'.
Proof. unfold joinRoom; simpl. by rewrite lookup_upsert. Qed.

Lemma participants_joinRoom c w rm c' :
  getRoomParticipants c' (joinRoom c w rm)
  = if decide (c' = c) then Set_add w (getRoomParticipants c rm)
    else getRoomParticipants c' rm.
Proof.
  unfold getRoomParticipants at 1. rewrite rooms_joinRoom. by case_decide.
Qed.

Lemma participants_dropFromRoom w rs c c' :
  rs !! c ≠ Some [] →
  default [] (dropFromRoom w rs c !! c')
  = if decide (c' = c) then Set_delete w (default [] (rs !! c))
    else default [] (rs !! c').
Proof.
  intros Hne. unfold dropFromRoom. destruct (rs !! c) as [room|] eqn:Hc.
  - case_bool_decide as Hlen; case_decide as Hcc; subst; simpl.
    + rewrite lookup_delete_eq. by apply nil_length_inv in Hlen as ->.
    + by rewrite lookup_delete_ne.
    + by rewrite lookup_insert_eq.
    + by rewrite lookup_insert_ne.
  - case_decide; subst; [by rewrite Hc|done].
Qed.

Lemma dropFromRoom_nonempty w rs c :
  (∀ c', rs !! c' ≠ Some []) → ∀ c', dropFromRoom w rs c !! c' ≠ Some [].
Proof.
  intros Hne c'. unfold dropFromRoom. destruct (rs !! c) as [room|] eqn:Hc; [|done].
  case_bool_decide as Hlen.
  - destruct (decide (c' = c)) as [->|]; [by rewrite lookup_delete_eq|].
    by rewrite lookup_delete_ne.
  - destruct (decide (c' = c)) as [->|]; [|by rewrite lookup_insert_ne].
    rewrite lookup_insert_eq. intros [= Heq]. by rewrite Heq in Hlen.
Qed.

Lemma dropFromRoom_fold_nonempty w cs rs :
  (∀ c', rs !! c' ≠ Some []) →
  ∀ c', foldl (dropFromRoom w) rs cs !! c' ≠ Some [].
Proof.
  revert rs. induction cs as [|c cs IH]; intros rs Hne; simpl; [done|].
  by apply IH, dropFromRoom_nonempty.
Qed.

Lemma participants_dropFromRoom_fold w cs rs c' :
  (∀ c, rs !! c ≠ Some []) →
  default [] (foldl (dropFromRoom w) rs cs !! c')
  = if decide (c' ∈ cs) then Set_delete w (default [] (rs !! c'))
    else default [] (rs !! c').
Proof.
  revert rs. induction cs as [|c cs IH]; intros rs Hne; simpl.
  - done.
  - rewrite IH by by apply dropFromRoom_nonempty.
    rewrite participants_dropFromRoom by done.
    destruct (decide (c' = c)) as [->|Hcc].
    + rewrite (decide_True (P := c ∈ c :: cs)) by apply list_elem_of_here.
      case_decide; [apply Set_delete_idemp|done].
    + case_decide as Hin.
      * rewrite decide_True; [done|by apply list_elem_of_further].
      * rewrite decide_False; [done|]. rewrite elem_of_cons. naive_solver.
Qed.

Lemma getRoomParticipants_default c rm :
  getRoomParticipants c rm = default [] (rooms rm !! c).
Proof. unfold getRoomParticipants. by destruct (rooms rm !! c). Qed.

Lemma rooms_wf_empty : rooms_wf (mkRooms ∅ ∅).
Proof.
  split; simpl.
  - intros c w. unfold getRoomParticipants; simpl.
    rewrite !lookup_empty; simpl. by rewrite !elem_of_nil.
  - intros c. by rewrite lookup_empty.
  - intros w. by rewrite lookup_empty.
  - intros c. unfold getRoomParticipants; simpl. rewrite lookup_empty.
    apply NoDup_nil_2.
Qed.

Lemma rooms_wf_joinRoom c w rm : rooms_wf rm → rooms_wf (joinRoom c w rm).
Proof.
  intros [Hidx Hr Hw Hnd]. split.
  - intros c' w'. rewrite participants_joinRoom, wsRooms_joinRoom.
    destruct (decide (c' = c)) as [->|Hc], (decide (w' = w)) as [->|Hw'];
      simpl; rewrite ?elem_of_Set_add, ?Hidx; naive_solver.
  - intros c'. rewrite rooms_joinRoom. case_decide; [|done].
    intros [= Heq]. by apply Set_add_nonempty in Heq.
  - intros w'. rewrite wsRooms_joinRoom. case_decide; [|done].
    intros [= Heq]. by apply Set_add_nonempty in Heq.
  - intros c'. rewrite participants_joinRoom. case_decide; [|done].
    by apply NoDup_Set_add.
Qed.

Lemma participants_leaveAllRooms w rm c :
  rooms_wf rm →
  getRoomParticipants c (leaveAllRooms w rm)
  = Set_delete w (getRoomParticipants c rm).
Proof.
  intros [Hidx Hr Hw Hnd]. unfold leaveAllRooms.
  destruct (wsRooms rm !! w) as [s|] eqn:Hs.
  - rewrite !getRoomParticipants_default; simpl.
    rewrite participants_dropFromRoom_fold by done.
    case_decide as Hin; [done|]. symmetry. apply Set_delete_non_member.
    rewrite <-getRoomParticipants_default, Hidx, Hs. done.
  - symmetry. apply Set_delete_non_member. rewrite Hidx, Hs. simpl.
    apply not_elem_of_nil.
Qed.

Lemma wsRooms_leaveAllRooms w rm w' :
  wsRooms (leaveAllRooms w rm) !! w'
  = if decide (w' = w) then None else wsRooms rm !! w'.
Proof.
  unfold leaveAllRooms. destruct (wsRooms rm !! w) as [s|] eqn:Hs; simpl.
  - case_decide; subst; [by rewrite lookup_delete_eq|by rewrite lookup_delete_ne].
  - case_decide; subst; done.
Qed.

Lemma rooms_wf_leaveAllRooms w rm : rooms_wf rm → rooms_wf (leaveAllRooms w rm).
Proof.
  intros Hwf. pose proof Hwf as [Hidx Hr Hw Hnd]. split.
  - intros c w'. rewrite participants_leaveAllRooms, wsRooms_leaveAllRooms by done.
    rewrite elem_of_Set_delete, Hidx. case_decide; subst; simpl.
    + rewrite elem_of_nil. naive_solver.
    + naive_solver.
  - intros c. unfold leaveAllRooms. destruct (wsRooms rm !! w); [|done].
    simpl. by apply dropFromRoom_fold_nonempty.
  - intros w'. rewrite wsRooms_leaveAllRooms. by case_decide.
  - intros c. rewrite participants_leaveAllRooms by done.
    by apply NoDup_Set_delete.
Qed.

Lemma participants_leaveRoom c w rm c' :
  rooms_wf rm →
  getRoomParticipants c' (leaveRoom c w rm)
  = if decide (c' = c) then Set_delete w (getRoomParticipants c rm)
    else getRoomParticipants c' rm.
Proof.
  intros [Hidx Hr Hw Hnd]. rewrite !getRoomParticipants_default. simpl.
  by rewrite participants_dropFromRoom.
Qed.

Lemma wsRooms_leaveRoom c w rm w' :
  rooms_wf rm →
  default [] (wsRooms (leaveRoom c w rm) !! w')
  = if decide (w' = w) then Set_delete c (default [] (wsRooms rm !! w))
    else default [] (wsRooms rm !! w').
Proof.
  intros [Hidx Hr Hw Hnd]. simpl.
  destruct (wsRooms rm !! w) as [s|] eqn:Hs.
  - case_bool_decide as Hlen; case_decide as Hww; subst; simpl.
    + rewrite lookup_delete_eq. by apply nil_length_inv in Hlen as ->.
    + by rewrite lookup_delete_ne.
    + by rewrite lookup_insert_eq.
    + by rewrite lookup_insert_ne.
  - case_decide; subst; [by rewrite Hs|done].
Qed.

Lemma rooms_wf_leaveRoom c w rm : rooms_wf rm → rooms_wf (leaveRoom c w rm).
Proof.
  intros Hwf. pose proof Hwf as [Hidx Hr Hw Hnd]. split.
  - intros c' w'. rewrite participants_leaveRoom, wsRooms_leaveRoom by done.
    destruct (decide (c' = c)) as [->|Hc], (decide (w' = w)) as [->|Hw'];
      rewrite ?elem_of_Set_delete, ?Hidx; naive_solver.
  - intros c'. simpl. by apply dropFromRoom_nonempty.
  - intros w'. simpl. destruct (wsRooms rm !! w) as [s|] eqn:Hs; [|done].
    case_bool_decide as Hlen.
    + destruct (decide (w' = w)) as [->|]; [by rewrite lookup_delete_eq|].
      by rewrite lookup_delete_ne.
    + destruct (decide (w' = w)) as [->|]; [|by rewrite lookup_insert_ne].
      rewrite lookup_insert_eq. intros [= Heq]. by rewrite Heq in Hlen.
  - intros c'. rewrite participants_leaveRoom by done. case_decide; [|done].
    by apply NoDup_Set_delete.
Qed.

Lemma rooms_wf_roomCalls cs : rooms_wf (roomCalls cs).
Proof.
  unfold roomCalls. induction cs as [|c cs IH] using rev_ind.
  - apply rooms_wf_empty.
  - rewrite foldl_app. simpl. destruct c; simpl.
    + by apply rooms_wf_joinRoom.
    + by apply rooms_wf_leaveRoom.
    + by apply rooms_wf_leaveAllRooms.
Qed.

Lemma joinRoom_member c w rm :
  rooms_wf rm → w ∈ getRoomParticipants c rm → joinRoom c w rm = rm.
Proof.
  intros [Hidx Hr Hw Hnd] Hin. destruct rm as [rs wr]. unfold joinRoom.
  simpl in *. f_equal.
  - apply map_eq. intros c'. rewrite lookup_upsert. case_decide; subst; [|done].
    unfold getRoomParticipants in Hin. simpl in Hin.
    destruct (rs !! c) as [room|] eqn:Hc; [|by apply not_elem_of_nil in Hin].
    simpl. by rewrite Set_add_member.
  - apply map_eq. intros w'. rewrite lookup_upsert. case_decide; subst; [|done].
    apply Hidx in Hin. simpl in Hin.
    destruct (wr !! w) as [s|] eqn:Hs; [|by apply not_elem_of_nil in Hin].
    simpl. by rewrite Set_add_member.
Qed.

Lemma leaveRoom_non_member c w rm :
  rooms_wf rm → w ∉ getRoomParticipants c rm → leaveRoom c w rm = rm.
Proof.
  intros [Hidx Hr Hw Hnd] Hin. destruct rm as [rs wr]. unfold leaveRoom.
  simpl in *. f_equal.
  - unfold dropFromRoom. unfold getRoomParticipants in Hin. simpl in Hin.
    destruct (rs !! c) as [room|] eqn:Hc; [|done].
    rewrite Set_delete_non_member by done.
    rewrite bool_decide_eq_false_2.
    + by apply insert_id.
    + intros ->%nil_length_inv. by apply (Hr c).
  - destruct (wr !! w) as [s|] eqn:Hs; [|done].
    assert (c ∉ s) as Hcs.
    { intros Hcs. apply Hin, Hidx. simpl. by rewrite Hs. }
    rewrite Set_delete_non_member by done.
    rewrite bool_decide_eq_false_2.
    + by apply insert_id.
    + intros ->%nil_length_inv. by apply (Hw w).
Qed.

(** C9: on every registry built through its interface, joining a
    connection that is already a member of the topic and leaving a topic
    the connection is not a member of both return the registry
    unchanged. *)
Theorem C9_join_leave_idempotent (cs : list RoomCall) (chatId : string) (ws : WS) :
  (ws ∈ getRoomParticipants chatId (roomCalls cs) →
   joinRoom chatId ws (roomCalls cs) = roomCalls cs) ∧
  (ws ∉ getRoomParticipants chatId (roomCalls cs) →
   leaveRoom chatId ws (roomCalls cs) = roomCalls cs).
Proof.
  split; intros Hin.
  - apply joinRoom_member; [apply rooms_wf_roomCalls|done].
  - apply leaveRoom_non_member; [apply rooms_wf_roomCalls|done].
Qed.

Lemma C9_join_leave_idempotent_witness :
  joinRoom "A" 1 (roomCalls [Join "A" 1; Join "A" 2; Join "B" 1])
  = roomCalls [Join "A" 1; Join "A" 2; Join "B" 1]
  ∧ leaveRoom "B" 2 (roomCalls [Join "A" 1; Join "A" 2; Join "B" 1])
    = roomCalls [Join "A" 1; Join "A" 2; Join "B" 1].
Proof.
  split.
  - apply (C9_join_leave_idempotent [Join "A" 1; Join "A" 2; Join "B" 1] "A" 1).
    vm_compute. apply list_elem_of_here.
  - apply (C9_join_leave_idempotent [Join "A" 1; Join "A" 2; Join "B" 1] "B" 2).
    vm_compute. intros H. apply list_elem_of_singleton in H. discriminate.
Defined.

(** ** HTTP client: retry and backoff *)

Section Retry.
Context {T : Type}.
Implicit Types (responses : nat → AttemptOutcome T) (o : AttemptOutcome T).




Lemma attemptLoop_step method endpoint responses retries remaining attempt
    lastError :
  attemptLoop method endpoint responses retries (S remaining) attempt lastError
  = match attemptOnce (responses attempt) with
    | inr v => (inr v, [HttpFetch method endpoint attempt])
    | inl error =>
        if notRetried error then
          (inl error, [HttpFetch method endpoint attempt])
        else if bool_decide (attempt = retries - 1) then
          (inl (afterRetries (Some error)), [HttpFetch method endpoint attempt])
        else
          let r := attemptLoop method endpoint responses retries remaining
                               (S attempt) (Some error) in
          (r.1, HttpFetch method endpoint attempt
                  :: Sleep (backoffDelay attempt) :: r.2)
    end.
Proof. reflexivity. Qed.


(** When every attempt is retried the loop gives up after the last. *)
Lemma attemptLoop_exhausts method endpoint responses remaining :
  ∀ attempt lastError,
    (∀ j, j < S remaining → transient (responses (attempt + j))) →
    ∃ cause,
      attemptOnce (responses (attempt + remaining)) = inl cause ∧
      attemptLoop method endpoint responses (attempt + S remaining)
                  (S remaining) attempt lastError
      = (inl (afterRetries (Some cause)),
         scheduleFrom method endpoint attempt remaining).
Proof.
  induction remaining as [|remaining IH]; intros attempt lastError Htr.
  - destruct (Htr 0) as (e & He & Hne); [lia|]. exists e.
    split; [done|]. rewrite Nat.add_0_r in He. simpl. rewrite He, Hne.
    by rewrite bool_decide_eq_true_2 by lia.
  - destruct (Htr 0) as (e & He & Hne); [lia|].
    rewrite Nat.add_0_r in He.
    destruct (IH (S attempt) (Some e)) as (cause & Hc & Hloop).
    { intros j Hj. replace (S attempt + j) with (attempt + S j) by lia.
      apply Htr. lia. }
    exists cause. split.
    { by replace (attempt + S remaining) with (S attempt + remaining) by lia. }
    replace (S attempt + S remaining) with (attempt + S (S remaining))
      in Hloop by lia.
    rewrite attemptLoop_step, He, Hne.
    rewrite bool_decide_eq_false_2 by lia. by rewrite Hloop.
Qed.

End Retry.






(** ** Presence service *)

Lemma clearTimeouts_timers ts st t :
  timers (foldl (λ s t, clearTimeout t s) st ts) !! t
  = if decide (t ∈ ts) then None else timers st !! t.
Proof.
  revert st. induction ts as [|t' ts IH]; intros st; simpl; [done|].
  rewrite IH. simpl. destruct (decide (t = t')) as [->|Hne].
  - rewrite lookup_delete_eq.
    rewrite (decide_True (P := t' ∈ t' :: ts)) by apply list_elem_of_here.
    by case_decide.
  - rewrite lookup_delete_ne by done. case_decide as Hin.
    + rewrite decide_True; [done|by apply list_elem_of_further].
    + rewrite decide_False; [done|]. rewrite elem_of_cons. naive_solver.
Qed.

Lemma clearTimeouts_frame ts st :
  let st' := foldl (λ s t, clearTimeout t s) st ts in
  roomManager st' = roomManager st ∧ presenceService st' = presenceService st
  ∧ trace st' = trace st ∧ initialized st' = initialized st
  ∧ nextTimerId st' = nextTimerId st.
Proof.
  revert st. induction ts as [|t ts IH]; intros st; simpl; [done|].
  destruct (IH (clearTimeout t st)) as (-> & -> & -> & -> & ->). done.
Qed.

Lemma removeUser_found w st uid user :
  wsToUserId (presenceService st) !! w = Some uid →
  uid ≠ "" →
  connectedUsers (presenceService st) !! uid = Some user →
  let r := removeUser w st in
  r.1 = Some user
  ∧ connectedUsers (presenceService r.2) = delete uid (connectedUsers (presenceService st))
  ∧ wsToUserId (presenceService r.2) = delete w (wsToUserId (presenceService st))
  ∧ (∀ t, timers r.2 !! t
          = if decide (t ∈ timerHandles user) then None else timers st !! t)
  ∧ roomManager r.2 = roomManager st ∧ trace r.2 = trace st
  ∧ initialized r.2 = initialized st ∧ nextTimerId r.2 = nextTimerId st.
Proof.
  intros Hw Hne Hu. unfold removeUser. rewrite Hw.
  apply String.eqb_neq in Hne. rewrite Hne, Hu. simpl.
  destruct (clearTimeouts_frame (timerHandles user) st)
    as (Hrm & Hps & Htr & Hini & Hnext).
  rewrite Hps, Hrm, Htr, Hini, Hnext. split_and!; try done.
  intros t. apply clearTimeouts_timers.
Qed.

Lemma removeUser_absent w st :
  getUserByWs w (presenceService st) = None → removeUser w st = (None, st).
Proof.
  unfold getUserByWs, removeUser.
  destruct (wsToUserId (presenceService st) !! w) as [uid|]; [|done].
  destruct (String.eqb uid ""); [done|]. by intros ->.
Qed.

(** C10: a second session registered under the identity of a live
    first one replaces the identity's directory entry while both socket
    entries stay, so a lookup by the first socket yields the second
    session; removing the first socket then drops the identity's only
    entry and cancels the timers of the session stored there, and the
    identity reads as offline although the second socket's own entry
    is still present. *)
Theorem C10_second_session_overwrites (st : Server)
    (first second : ConnectedUser) (ts : gmap string TimerId) :
  userId first = userId second → userId second ≠ "" → ws first ≠ ws second →
  (connectedUsers (presenceService (bothAdded first second st))
     !! userId second = Some second
   ∧ wsToUserId (presenceService (bothAdded first second st))
       !! ws first = Some (userId second)
   ∧ wsToUserId (presenceService (bothAdded first second st))
       !! ws second = Some (userId second)
   ∧ getUserByWs (ws first) (presenceService (bothAdded first second st))
     = Some second)
  ∧ (removeUser (ws first)
       (withTypingTimers second ts (bothAdded first second st))).1
    = Some (setUserTimers second ts)
  ∧ ∀ after,
      after = (removeUser (ws first)
                 (withTypingTimers second ts (bothAdded first second st))).2 →
      (∀ chatId t, ts !! chatId = Some t → timers after !! t = None)
      ∧ isUserOnline (userId second) (presenceService after) = false
      ∧ connectedUsers (presenceService after) !! userId second = None
      ∧ wsToUserId (presenceService after) !! ws first = None
      ∧ wsToUserId (presenceService after) !! ws second = Some (userId second)
      ∧ getUserByWs (ws second) (presenceService after) = None.
Proof.
  intros Hid Hne Hws.
  assert (String.eqb (userId second) "" = false) as Hneb
    by by apply String.eqb_neq.
  split.
  - unfold bothAdded, addUser, getUserByWs; simpl. rewrite Hid.
    rewrite lookup_insert_eq, lookup_insert_eq.
    rewrite lookup_insert_ne by done. rewrite lookup_insert_eq, Hneb.
    by rewrite lookup_insert_eq.
  - match goal with
    | |- context [removeUser ?w ?s] =>
        destruct (removeUser_found w s (userId second) (setUserTimers second ts))
          as (Hr & Hcu & Hwu & Htm & _)
    end.
    { unfold withTypingTimers, bothAdded, addUser; simpl.
      rewrite lookup_insert_ne by done. by rewrite Hid, lookup_insert_eq. }
    { done. }
    { unfold withTypingTimers; simpl. by rewrite lookup_insert_eq. }
    split; [done|]. intros after ->. split_and!.
    + intros chatId t Ht. rewrite Htm. rewrite decide_True; [done|].
      unfold timerHandles; simpl. apply list_elem_of_fmap.
      exists (chatId, t). split; [done|]. by apply elem_of_map_to_list.
    + unfold isUserOnline. rewrite Hcu, lookup_delete_eq.
      apply bool_decide_eq_false_2. by intros [? ?].
    + by rewrite Hcu, lookup_delete_eq.
    + by rewrite Hwu, lookup_delete_eq.
    + rewrite Hwu. unfold withTypingTimers, bothAdded, addUser; simpl.
      rewrite lookup_delete_ne by done. by rewrite lookup_insert_eq.
    + unfold getUserByWs. rewrite Hwu, Hcu.
      unfold withTypingTimers, bothAdded, addUser; simpl.
      rewrite lookup_delete_ne by done. rewrite lookup_insert_eq, Hneb.
      by rewrite lookup_delete_eq.
Qed.

Lemma C10_second_session_overwrites_witness :
  getUserByWs 1
    (presenceService
       (bothAdded (mkUser "U" "Una" "u@example.com" "buyer" 1 "t1" ["A"] "" ∅)
                  (mkUser "U" "Una" "u@example.com" "buyer" 2 "t2" ["A"] "" ∅)
                  initialServer))
  = Some (mkUser "U" "Una" "u@example.com" "buyer" 2 "t2" ["A"] "" ∅).
Proof.
  apply (C10_second_session_overwrites initialServer
           (mkUser "U" "Una" "u@example.com" "buyer" 1 "t1" ["A"] "" ∅)
           (mkUser "U" "Una" "u@example.com" "buyer" 2 "t2" ["A"] "" ∅) ∅).
  - reflexivity.
  - simpl. discriminate.
  - simpl. lia.
Defined.

(** ** Event handlers *)

(** C1: with two users in chat A, a read receipt sent by the first and
    accepted by the storage service is delivered to the second user's
    connection only; the originating connection, although a member of
    the chat, is passed as the excluded connection and gets no
    [chat:read] frame. *)
Theorem C1_read_receipt_skips_sender :
  1 ∈ getRoomParticipants "A" (roomManager twoInChatA)
  ∧ getRoomParticipants "A" (roomManager twoInChatA) = [1; 2]
  ∧ trace (onMessage defaultConfig 1 markRead twoInChatA)
    = trace twoInChatA
      ++ [JsonParse;
          HttpFetch "PUT" "/chats/A/messages/m1/read" 0;
          Sent 2 (ChatRead "A" "m1" "U" "2024-01-01T12:01:00.000Z")].
Proof.
  split_and!.
  - vm_compute. apply list_elem_of_here.
  - vm_compute. reflexivity.
  - vm_compute. reflexivity.
Qed.

(** A frame whose text is longer, in UTF-16 code units, than the
    configured maximum is answered with [VALIDATION_ERROR] and nothing
    else happens: in particular [JSON.parse] is not called. *)
Lemma handleMessage_oversized config ws frame st :
  (maxMessageSize config < N.of_nat (length (messageStr (raw frame))))%N →
  handleMessage config ws frame st
  = (inr tt, send ws (ErrorFrame "VALIDATION_ERROR" "Message too large" None) st).
Proof.
  intros Hlen. apply N.ltb_lt in Hlen.
  unfold handleMessage, tryCatch. by rewrite Hlen.
Qed.

(** C8: the size check compares the number of UTF-16 code units of the
    frame's text, not its size in bytes, with the configured maximum.
    A text frame of 4000 euro signs is 12000 bytes, above the default
    maximum of 10000, yet its length 4000 passes the check:
    [JSON.parse] is called on it and the reply is [INVALID_MESSAGE]. *)
Theorem C8_size_check_counts_code_units (ws : WS) (st : Server) :
  rawByteSize (raw euroFrame) = 12000%N
  ∧ maxMessageSize defaultConfig = 10000%N
  ∧ N.of_nat (length (messageStr (raw euroFrame))) = 4000%N
  ∧ (handleMessage defaultConfig ws euroFrame st).1 = inr tt
  ∧ trace (handleMessage defaultConfig ws euroFrame st).2
    = trace st ++ [JsonParse;
                   Sent ws (ErrorFrame "INVALID_MESSAGE" "Invalid JSON format" None)].
Proof.
  assert ((maxMessageSize defaultConfig
           <? N.of_nat (length (messageStr (raw euroFrame))))%N = false) as Hlen
    by (vm_compute; reflexivity).
  split_and!; try (vm_compute; reflexivity).
  unfold handleMessage, tryCatch, bind, exec. rewrite Hlen.
  change (parsed euroFrame) with (@None JsValue). simpl.
  by rewrite <-app_assoc.
Qed.

Arguments makeRequest : simpl never.
Arguments getChats : simpl never.
Arguments sendMessage : simpl never.
Arguments markMessageAsRead : simpl never.

(** A request that fails ends in an [HttpError], and a request delivers
    no frame. *)
Lemma attemptLoop_sends {T} method endpoint (responses : nat → AttemptOutcome T)
    retries remaining :
  ∀ attempt lastError,
    sends (attemptLoop method endpoint responses retries remaining attempt
                       lastError).2 = [].
Proof.
  induction remaining as [|remaining IH]; intros attempt lastError; [done|].
  rewrite attemptLoop_step.
  destruct (attemptOnce (responses attempt)) as [e|v]; [|done].
  destruct (notRetried e); [done|]. case_bool_decide; [done|].
  simpl. apply IH.
Qed.

Lemma attemptLoop_error {T} method endpoint (responses : nat → AttemptOutcome T)
    retries remaining :
  ∀ attempt lastError e,
    (attemptLoop method endpoint responses retries remaining attempt
                 lastError).1 = inl e →
    code e = "HTTP_ERROR" ∧ isWebSocketError e = true.
Proof.
  induction remaining as [|remaining IH]; intros attempt lastError e.
  - simpl. by intros [= <-].
  - rewrite attemptLoop_step.
    destruct (attemptOnce (responses attempt)) as [e'|v]; [|done].
    destruct (notRetried e') eqn:Hnr.
    + simpl. intros [= <-]. unfold notRetried in Hnr.
      unfold code, isWebSocketError.
      by destruct (errClass e') as [| | | |[sc|]|].
    + case_bool_decide; simpl; [by intros [= <-]|]. apply IH.
Qed.

(** C7: when the storage call of a send-message event fails, the
    sender receives one [HTTP_ERROR] frame, no other frame is delivered
    to anyone, and the room manager, the presence service and the
    timers are left as they were. *)
Theorem C7_persistence_failure (config : Config) (ws : WS) (frame : Inbound)
    (st : Server) (parsedMessage : JsValue) (user : ConnectedUser)
    (chatId content : string) (error : JsError) :
  (N.of_nat (length (messageStr (raw frame))) ≤ maxMessageSize config)%N →
  parsed frame = Some parsedMessage →
  prop "type" parsedMessage = JString "chat:message" →
  prop "chatId" (prop "payload" parsedMessage) = JString chatId →
  chatId ≠ "" →
  prop "content" (prop "payload" parsedMessage) = JString content →
  content ≠ "" →
  getUserByWs ws (presenceService st) = Some user →
  chatId ∈ chatRooms user →
  (sendMessage chatId content (token user) (sendMessageAnswers frame)).1
    = inl error →
  sends (trace (handleMessage config ws frame st).2)
  = sends (trace st)
    ++ [(ws, ErrorFrame "HTTP_ERROR" (errMessage error) (errDetails error))]
  ∧ roomManager (handleMessage config ws frame st).2 = roomManager st
  ∧ presenceService (handleMessage config ws frame st).2 = presenceService st
  ∧ timers (handleMessage config ws frame st).2 = timers st.
Proof.
  intros Hlen Hparsed Htype HchatId Hc1 Hcontent Hc2 Huser Hmember Hfail.
  apply N.ltb_ge in Hlen.
  assert (String.eqb chatId "" = false) as Hc1b by by apply String.eqb_neq.
  assert (String.eqb content "" = false) as Hc2b by by apply String.eqb_neq.
  assert (String.length content ≠ 0) as Hc2l by by destruct content.
  destruct (attemptLoop_error _ _ _ _ _ _ _ _ Hfail) as [Hcode Hws].
  assert (sends (sendMessage chatId content (token user)
                             (sendMessageAnswers frame)).2 = []) as Hsends
    by apply attemptLoop_sends.
  destruct (sendMessage chatId content (token user) (sendMessageAnswers frame))
    as [res evs] eqn:Hr.
  simpl in Hfail, Hsends. subst res.
  unfold handleMessage, tryCatch, bind, exec. rewrite Hlen, Hparsed. simpl.
  destruct parsedMessage as [| | | | |items|fields]; try discriminate Htype.
  simpl in Htype, HchatId, Hcontent |- *. rewrite Htype. simpl.
  unfold handleChatMessage, bind, currentUser. simpl. rewrite Huser.
  destruct (assoc "payload" fields) as [| | | | |pitems|pfields] eqn:Hpayload;
    try discriminate HchatId.
  simpl in HchatId, Hcontent |- *. rewrite HchatId, Hcontent. simpl.
  rewrite Hc1b, Hc2b. simpl.
  rewrite bool_decide_eq_false_2 by done.
  unfold Set_has. rewrite bool_decide_eq_true_2 by done. simpl.
  unfold await. rewrite Hr. simpl.
  unfold messageFailed. rewrite Hws, Hcode.
  unfold exec, sendError, send, emit, sends in *. simpl.
  split_and!; try done.
  rewrite !omap_app, Hsends. simpl. by rewrite !app_nil_r.
Qed.

Lemma C7_persistence_failure_witness :
  sends (trace (handleMessage defaultConfig 1 sendHello twoInChatA).2)
  = sends (trace twoInChatA)
    ++ [(1, ErrorFrame "HTTP_ERROR" "Request failed after retries"
              (Some (JObject [("originalError",
                               JString "HTTP 500: Internal Server Error")])))]
  ∧ roomManager (handleMessage defaultConfig 1 sendHello twoInChatA).2
    = roomManager twoInChatA
  ∧ presenceService (handleMessage defaultConfig 1 sendHello twoInChatA).2
    = presenceService twoInChatA
  ∧ timers (handleMessage defaultConfig 1 sendHello twoInChatA).2
    = timers twoInChatA.
Proof.
  apply (C7_persistence_failure defaultConfig 1 sendHello twoInChatA
           (envelope "chat:message"
              [("chatId", JString "A"); ("content", JString "hello")])
           (mkUser "U" "U" "U@example.com" "buyer" 1 "token-U" ["A"]
                   "2024-01-01T12:00:00.000Z" ∅)
           "A" "hello"
           (mkError (HttpError None) "Request failed after retries"
              (Some (JObject [("originalError",
                               JString "HTTP 500: Internal Server Error")])))).
  - vm_compute. discriminate.
  - reflexivity.
  - reflexivity.
  - reflexivity.
  - discriminate.
  - reflexivity.
  - discriminate.
  - vm_compute. reflexivity.
  - simpl. apply list_elem_of_here.
  - vm_compute. reflexivity.
Defined.

(** ** Typing timers *)

(** The session of socket 1 and identity U are gone from the
    directory, the timer socket 1 set is still armed, and when it fires
    its closure delivers a frame to socket 3. *)
Lemma C3_orphaned_timer_broadcasts :
  getUserByWs 1 (presenceService secondConnectionClosed) = None
  ∧ getUser "U" (presenceService secondConnectionClosed) = None
  ∧ timers secondConnectionClosed !! 0 = Some (mkCallback "A" "U" "U" 1)
  ∧ sends (trace (onTimeout 0 secondConnectionClosed))
    = sends (trace secondConnectionClosed)
      ++ [(3, ChatTyping "A" "U" "U" false)].
Proof. split_and!; vm_compute; reflexivity. Qed.

(** ** What each operation leaves unchanged *)

Lemma sameState_refl st : sameState st st.
Proof. by repeat split. Qed.

Lemma sameState_trans st1 st2 st3 :
  sameState st1 st2 → sameState st2 st3 → sameState st1 st3.
Proof.
  intros (?&?&?&?&?) (?&?&?&?&?). repeat split; congruence.
Qed.

Lemma sameState_emit es st : sameState st (emit es st).
Proof. by repeat split. Qed.

Lemma sameState_broadcastToRoom c f ex st :
  sameState st (broadcastToRoom c f ex st).
Proof. apply sameState_emit. Qed.

Lemma recipients_None c rm : recipients c None rm = getRoomParticipants c rm.
Proof.
  unfold recipients, getRoomParticipants.
  destruct (rooms rm !! c) as [room|]; [|done].
  induction room as [|w room IH]; [done|].
  rewrite filter_cons_True by done. by rewrite IH.
Qed.

(** The frames of one presence broadcast: one per member of each
    distinct chat, in the order the chats first occur. *)
Lemma broadcastPresence_fold uid online chatIds :
  ∀ seen st,
    ∃ news st',
      foldl
        (λ '(broadcastedRooms, s) chatId,
           if negb (Set_has chatId broadcastedRooms)
           then (Set_add chatId broadcastedRooms,
                 broadcastToRoom chatId (UserOnline uid online) None s)
           else (broadcastedRooms, s))
        (seen, st) chatIds = (seen ++ news, st')
      ∧ foldl (λ s x, Set_add x s) seen chatIds = seen ++ news
      ∧ sameState st st'
      ∧ trace st'
        = trace st
          ++ flat_map
               (λ c, (λ w, Sent w (UserOnline uid online))
                       <$> getRoomParticipants c (roomManager st))
               news.
Proof.
  induction chatIds as [|c chatIds IH]; intros seen st; simpl.
  - exists [], st. rewrite !app_nil_r. split_and!; [done|done| |done].
    apply sameState_refl.
  - destruct (Set_has c seen) eqn:Hc; simpl.
    + apply Set_has_true in Hc. rewrite (Set_add_member c seen) by done.
      apply IH.
    + apply Set_has_false in Hc.
      assert (Set_add c seen = seen ++ [c]) as ->.
      { unfold Set_add. by rewrite decide_False. }
      destruct (IH (seen ++ [c])
                  (broadcastToRoom c (UserOnline uid online) None st))
        as (news & st' & Hfold & Hset & Hsame & Htrace).
      exists (c :: news), st'. rewrite Hfold, Hset.
      replace (seen ++ c :: news) with ((seen ++ [c]) ++ news)
        by by rewrite <-app_assoc.
      split_and!; [done|done| |].
      * eapply sameState_trans; [apply sameState_broadcastToRoom|done].
      * rewrite Htrace. simpl. rewrite recipients_None, <-app_assoc. done.
Qed.

Lemma broadcastPresence_spec uid online chatIds st :
  sameState st (broadcastPresence uid online chatIds st)
  ∧ trace (broadcastPresence uid online chatIds st)
    = trace st
      ++ flat_map
           (λ c, (λ w, Sent w (UserOnline uid online))
                   <$> getRoomParticipants c (roomManager st))
           (Set_of chatIds).
Proof.
  unfold broadcastPresence, Set_of.
  destruct (broadcastPresence_fold uid online chatIds [] st)
    as (news & st' & -> & -> & Hsame & Htrace). done.
Qed.

(** The peer-status loop only sends to the new connection. *)
Lemma backfillOnline_inner ws uid participants :
  ∀ onlineUsers st,
    ∃ onlineUsers' es,
      foldl
        (λ '(onlineUsers, s) participantWs,
           match getUserByWs participantWs (presenceService s) with
           | Some participant =>
               if negb (String.eqb (userId participant) uid)
                  && negb (Set_has (userId participant) onlineUsers)
               then (Set_add (userId participant) onlineUsers,
                     send ws (UserOnline (userId participant) true) s)
               else (onlineUsers, s)
           | None => (onlineUsers, s)
           end)
        (onlineUsers, st) participants = (onlineUsers', emit es st)
      ∧ Forall (λ e, ∃ f, e = Sent ws f) es.
Proof.
  assert (∀ st, emit [] st = st) as Hnil.
  { intros [? ? ? ? ? ?]. unfold emit; simpl. by rewrite app_nil_r. }
  assert (∀ a b st, emit b (emit a st) = emit (a ++ b) st) as Happ.
  { intros a b [? ? ? ? ? ?]. unfold emit; simpl. by rewrite app_assoc. }
  induction participants as [|p participants IH]; intros onlineUsers st; simpl.
  - exists onlineUsers, []. by rewrite Hnil.
  - destruct (getUserByWs p (presenceService st)) as [participant|]; [|apply IH].
    destruct (negb (String.eqb (userId participant) uid)
              && negb (Set_has (userId participant) onlineUsers)); [|apply IH].
    destruct (IH (Set_add (userId participant) onlineUsers)
                 (send ws (UserOnline (userId participant) true) st))
      as (ou & es & -> & Hes).
    exists ou, (Sent ws (UserOnline (userId participant) true) :: es).
    unfold send. rewrite Happ. split; [done|].
    constructor; [by eexists|done].
Qed.

Lemma backfillOnline_spec ws uid chatIds st :
  ∃ es, backfillOnline ws uid chatIds st = emit es st
        ∧ Forall (λ e, ∃ f, e = Sent ws f) es.
Proof.
  assert (∀ st, emit [] st = st) as Hnil.
  { intros [? ? ? ? ? ?]. unfold emit; simpl. by rewrite app_nil_r. }
  assert (∀ a b st, emit b (emit a st) = emit (a ++ b) st) as Happ.
  { intros a b [? ? ? ? ? ?]. unfold emit; simpl. by rewrite app_assoc. }
  unfold backfillOnline.
  cut (∀ onlineUsers st0,
         ∃ es, (foldl
                  (λ acc chatId,
                     foldl
                       (λ '(onlineUsers, s) participantWs,
                          match getUserByWs participantWs (presenceService s) with
                          | Some participant =>
                              if negb (String.eqb (userId participant) uid)
                                 && negb (Set_has (userId participant) onlineUsers)
                              then (Set_add (userId participant) onlineUsers,
                                    send ws (UserOnline (userId participant) true) s)
                              else (onlineUsers, s)
                          | None => (onlineUsers, s)
                          end)
                       acc (getRoomParticipants chatId (roomManager acc.2)))
                  (onlineUsers, st0) chatIds).2 = emit es st0
               ∧ Forall (λ e, ∃ f, e = Sent ws f) es).
  { intros Hcut. apply Hcut. }
  induction chatIds as [|c chatIds IH]; intros onlineUsers st0; simpl.
  - exists []. by rewrite Hnil.
  - destruct (backfillOnline_inner ws uid
                (getRoomParticipants c (roomManager st0)) onlineUsers st0)
      as (ou & es1 & -> & Hes1).
    destruct (IH ou (emit es1 st0)) as (es2 & -> & Hes2).
    exists (es1 ++ es2). rewrite Happ. split; [done|].
    by apply Forall_app.
Qed.

Lemma sameSessions_refl st : sameSessions st st.
Proof. by repeat split. Qed.

Lemma sameSessions_trans st1 st2 st3 :
  sameSessions st1 st2 → sameSessions st2 st3 → sameSessions st1 st3.
Proof. intros (?&?&?) (?&?&?). repeat split; congruence. Qed.

Lemma sameState_sameSessions st st' : sameState st st' → sameSessions st st'.
Proof. intros (Hr & Hp & _). repeat split; congruence. Qed.

Lemma sameSessions_clearTimeout t st : sameSessions st (clearTimeout t st).
Proof. by repeat split. Qed.

Lemma sameSessions_setTimeout cb st : sameSessions st (setTimeout cb st).2.
Proof. by repeat split. Qed.

Lemma session_setUserTimers user ts : session (setUserTimers user ts) = session user.
Proof. by destruct user. Qed.

Lemma sameSessions_store uid user ts st st1 :
  connectedUsers (presenceService st) !! uid = Some user →
  sameState st st1 ∨ st1 = st ∨ (∃ t, st1 = clearTimeout t st) →
  sameSessions st
    (setPresence
       (mkPresence
          (<[uid := setUserTimers user ts]> (connectedUsers (presenceService st1)))
          (wsToUserId (presenceService st1)))
       st1).
Proof.
  intros Hu Hst1.
  assert (roomManager st1 = roomManager st
          ∧ presenceService st1 = presenceService st) as [Hr Hp].
  { destruct Hst1 as [(?&?&_)|[->|[t ->]]]; done. }
  repeat split; simpl; rewrite ?Hp; try done.
  rewrite fmap_insert, session_setUserTimers. apply insert_id.
  by rewrite lookup_fmap, Hu.
Qed.

Lemma sameSessions_setTypingTimer uid c t st :
  sameSessions st (setTypingTimer uid c t st).
Proof.
  unfold setTypingTimer.
  destruct (connectedUsers (presenceService st) !! uid) as [user|] eqn:Hu;
    [|apply sameSessions_refl].
  apply sameSessions_store; [done|].
  destruct (typingTimers user !! c); eauto.
Qed.

Lemma sameSessions_clearTypingTimer uid c st :
  sameSessions st (clearTypingTimer uid c st).
Proof.
  unfold clearTypingTimer.
  destruct (connectedUsers (presenceService st) !! uid) as [user|] eqn:Hu;
    [|apply sameSessions_refl].
  destruct (typingTimers user !! c); [|apply sameSessions_refl].
  apply sameSessions_store; eauto.
Qed.

Lemma keeps_ret {A} (a : A) : keeps (ret a).
Proof. intros st. apply sameSessions_refl. Qed.

Lemma keeps_throw {A} e : keeps (throw (A:=A) e).
Proof. intros st. apply sameSessions_refl. Qed.

Lemma keeps_bind {A B} (m : M A) (k : A → M B) :
  keeps m → (∀ a, keeps (k a)) → keeps (bind m k).
Proof.
  intros Hm Hk st. unfold bind. specialize (Hm st).
  destruct (m st) as [[e|a] st']; [done|].
  eapply sameSessions_trans; [exact Hm|apply Hk].
Qed.

Lemma keeps_tryCatch {A} (body : M A) handler :
  keeps body → (∀ e, keeps (handler e)) → keeps (tryCatch body handler).
Proof.
  intros Hm Hk st. unfold tryCatch. specialize (Hm st).
  destruct (body st) as [[e|a] st']; [|done].
  eapply sameSessions_trans; [exact Hm|apply Hk].
Qed.

Lemma keeps_exec f : (∀ st, sameSessions st (f st)) → keeps (exec f).
Proof. intros Hf st. apply Hf. Qed.

Lemma keeps_await {A} (r : (JsError + A) * list Effect) : keeps (await r).
Proof. intros st. apply sameState_sameSessions, sameState_emit. Qed.

Lemma keeps_currentUser ws : keeps (currentUser ws).
Proof.
  intros st. unfold currentUser.
  destruct (getUserByWs ws (presenceService st)); apply sameSessions_refl.
Qed.

Lemma keeps_destructure v : keeps (destructure v).
Proof. destruct v; first [apply keeps_ret|apply keeps_throw]. Qed.

Lemma sameSessions_emit es st : sameSessions st (emit es st).
Proof. apply sameState_sameSessions, sameState_emit. Qed.

Lemma sameSessions_typingInstall uid c cb st :
  sameSessions st
    (let '(timer, st1) := setTimeout cb st in setTypingTimer uid c timer st1).
Proof.
  simpl. eapply sameSessions_trans; [|apply sameSessions_setTypingTimer].
  by repeat split.
Qed.

#[export] Hint Resolve keeps_ret keeps_throw keeps_bind keeps_tryCatch
  keeps_exec keeps_await keeps_currentUser keeps_destructure
  sameSessions_emit sameSessions_clearTypingTimer sameSessions_typingInstall
  : keeps.

Lemma keeps_sendError ws c m d : keeps (exec (sendError ws c m d)).
Proof. apply keeps_exec. intros st. apply sameSessions_emit. Qed.

Lemma keeps_broadcast c f ex : keeps (exec (broadcastToRoom c f ex)).
Proof. apply keeps_exec. intros st. apply sameSessions_emit. Qed.

#[export] Hint Resolve keeps_sendError keeps_broadcast : keeps.

Lemma keeps_handleChatMessage ws payload answers :
  keeps (handleChatMessage ws payload answers).
Proof.
  unfold handleChatMessage.
  apply keeps_bind; [auto with keeps|intros user].
  apply keeps_bind; [auto with keeps|intros _].
  repeat keeps_step.
Qed.

Lemma keeps_handleChatRead ws payload answers now :
  keeps (handleChatRead ws payload answers now).
Proof.
  unfold handleChatRead.
  apply keeps_bind; [auto with keeps|intros user].
  apply keeps_bind; [auto with keeps|intros _].
  repeat keeps_step.
Qed.

Lemma keeps_handleChatTyping ws payload : keeps (handleChatTyping ws payload).
Proof.
  unfold handleChatTyping.
  apply keeps_bind; [auto with keeps|intros user].
  apply keeps_bind; [auto with keeps|intros _].
  repeat keeps_step.
  apply keeps_bind; [auto with keeps|intros _].
  keeps_step.
  - apply keeps_bind; [auto with keeps|intros _].
    apply keeps_exec. intros st. apply sameSessions_typingInstall.
  - auto with keeps.
Qed.

Lemma keeps_handleMessage config ws frame : keeps (handleMessage config ws frame).
Proof.
  unfold handleMessage. apply keeps_tryCatch.
  - cbv zeta. keeps_step; [auto with keeps|].
    apply keeps_bind; [apply keeps_exec; intros st; apply sameSessions_emit|].
    intros _. keeps_step; [|auto with keeps].
    apply keeps_bind; [auto with keeps|intros _].
    keeps_step; [auto with keeps|].
    keeps_step; [apply keeps_handleChatMessage|].
    keeps_step; [apply keeps_handleChatRead|].
    keeps_step; [apply keeps_handleChatTyping|].
    keeps_step; [|auto with keeps].
    unfold handlePing. apply keeps_exec. intros st. apply sameSessions_emit.
  - intros e. unfold messageFailed. keeps_step; auto with keeps.
Qed.

Lemma sameSessions_onMessage config ws frame st :
  sameSessions st (onMessage config ws frame st).
Proof.
  unfold onMessage. destruct (negb (Set_has ws (initialized st))).
  - apply sameState_sameSessions.
    eapply sameState_trans; apply sameState_emit.
  - apply keeps_handleMessage.
Qed.

Lemma sameSessions_onTimeout t st : sameSessions st (onTimeout t st).
Proof.
  unfold onTimeout. destruct (timers st !! t) as [cb|]; [|apply sameSessions_refl].
  by repeat split.
Qed.

(** ** Opening and closing a connection *)

Lemma emit_emit a b st : emit b (emit a st) = emit (a ++ b) st.
Proof. destruct st. unfold emit; simpl. by rewrite app_assoc. Qed.

Lemma openOutcome_accepted input token profile :
  openOutcome input = Some (token, profile) →
  Jwt.extractToken (request input) = Some token
  ∧ Jwt.authenticateConnection (request input) (profileAnswer input)
    = inr profile
  ∧ Jwt.userId profile ≠ "".
Proof.
  unfold openOutcome, Jwt.authenticateConnection.
  destruct (Jwt.extractToken (request input)) as [t|]; [|done].
  destruct (Jwt.verifyToken (profileAnswer input)) as [e|p] eqn:Hv; [done|].
  intros [= -> ->]. split_and!; [done|done|].
  unfold Jwt.verifyToken in Hv.
  destruct (profileAnswer input) as [cause|status text [cause|p]]; try done.
  - destruct (negb (responseOk status)); [|done].
    by repeat case_match.
  - destruct (negb (responseOk status)); [by repeat case_match|].
    destruct (String.eqb (Jwt.userId p) "") eqn:Hu; [done|].
    simpl in Hv. destruct (_ || _) in Hv; [done|].
    injection Hv as ->. by apply String.eqb_neq.
Qed.

Lemma openOutcome_rejected input :
  openOutcome input = None →
  Jwt.extractToken (request input) = None
  ∨ ∃ token e, Jwt.extractToken (request input) = Some token
               ∧ Jwt.authenticateConnection (request input) (profileAnswer input)
                 = inl e.
Proof.
  unfold openOutcome, Jwt.authenticateConnection.
  destruct (Jwt.extractToken (request input)) as [t|]; [|by left].
  destruct (Jwt.verifyToken (profileAnswer input)) as [e|p]; [|done].
  intros _. right. by exists t, e.
Qed.

Lemma fetchChatIds_spec token answers st :
  fetchChatIds token answers st
  = (inr (fetchedChatIds token answers), emit (getChats token answers).2 st).
Proof.
  unfold fetchChatIds, fetchedChatIds, tryCatch, bind, await, ret.
  by destruct (getChats token answers) as [[e|r] evs].
Qed.

(** The state a connection that authenticates is left in, by either
    revision of the handler. *)
Lemma onOpen_accepted rev ws input st token profile :
  openOutcome input = Some (token, profile) →
  roomManager (onOpen rev ws input st)
  = foldl (λ rm chatId, joinRoom chatId ws rm) (roomManager st)
          (fetchedChatIds token (chatsAnswers input))
  ∧ presenceService (onOpen rev ws input st)
    = addUser (newConnectedUser profile ws token
                 (fetchedChatIds token (chatsAnswers input)) (openedAt input))
              (presenceService st)
  ∧ timers (onOpen rev ws input st) = timers st
  ∧ ∃ before after,
      trace (onOpen rev ws input st)
      = trace st ++ before
        ++ flat_map
             (λ c, (λ w, Sent w (UserOnline (Jwt.userId profile) true))
                     <$> getRoomParticipants c
                           (roomManager (onOpen rev ws input st)))
             (Set_of (fetchedChatIds token (chatsAnswers input)))
        ++ after
      ∧ Forall (λ e, sends [e] = [] ∨ ∃ f, e = Sent ws f) (before ++ after).
Proof.
  intros Hout. apply openOutcome_accepted in Hout as (Htok & Hauth & _).
  assert (Forall (λ e, sends [e] = [] ∨ ∃ f, e = Sent ws f)
                 (getChats token (chatsAnswers input)).2) as Hfetch.
  { pose proof (attemptLoop_sends "GET" "/chats" (chatsAnswers input)
                  defaultRetries defaultRetries 0 None) as Hs.
    unfold getChats, makeRequest.
    induction (attemptLoop _ _ _ _ _ _ _).2 as [|e es IH]; [done|].
    destruct e; try discriminate Hs; constructor; auto. }
  destruct rev; unfold onOpen, handleConnection, handleConnection_announceFirst,
    tryCatch, bind, await, exec; rewrite Htok, Hauth; simpl;
    rewrite fetchChatIds_spec; simpl.
  - set (chatIds := fetchedChatIds token (chatsAnswers input)).
    set (st1 := send ws _ (joinAll ws chatIds _)).
    destruct (backfillOnline_spec ws (Jwt.userId profile) chatIds st1)
      as (es & -> & Hes).
    destruct (broadcastPresence_spec (Jwt.userId profile) true chatIds
                (emit es st1)) as ((Hr & Hp & Ht & _) & Htrace).
    rewrite Hr, Hp, Ht, Htrace. split_and!; try done.
    exists ((getChats token (chatsAnswers input)).2
            ++ Sent ws (Connected (Jwt.userId profile) chatIds) :: es), [].
    split.
    + subst st1. simpl. by rewrite !app_nil_r, <-!app_assoc.
    + rewrite app_nil_r. apply Forall_app. split; [done|].
      constructor; [right; by eexists|].
      eapply Forall_impl; [exact Hes|]. naive_solver.
  - set (chatIds := fetchedChatIds token (chatsAnswers input)).
    set (st1 := joinAll ws chatIds _).
    destruct (broadcastPresence_spec (Jwt.userId profile) true chatIds st1)
      as ((Hr & Hp & Ht & _) & Htrace).
    rewrite Hr, Hp, Ht, Htrace. split_and!; try done.
    exists (getChats token (chatsAnswers input)).2,
           [Sent ws (Connected (Jwt.userId profile) chatIds)].
    split.
    + subst st1. simpl. rewrite <-!app_assoc. done.
    + apply Forall_app. split; [done|].
      constructor; [right; by eexists|done].
Qed.

Lemma onOpen_rejected rev ws input st :
  openOutcome input = None → sameSessions st (onOpen rev ws input st)
  ∧ presenceService (onOpen rev ws input st) = presenceService st.
Proof.
  intros Hout.
  destruct (openOutcome_rejected input Hout) as [Htok|(t & e & Htok & Hauth)];
    destruct rev; unfold onOpen, handleConnection,
      handleConnection_announceFirst, tryCatch, bind, await, exec;
    rewrite Htok; simpl; try done;
    rewrite Hauth; simpl; unfold connectionFailed;
    by destruct (errClass e).
Qed.

Lemma getUserByWs_Some w ps user :
  getUserByWs w ps = Some user ↔
  ∃ uid, wsToUserId ps !! w = Some uid ∧ uid ≠ ""
         ∧ connectedUsers ps !! uid = Some user.
Proof.
  unfold getUserByWs. destruct (wsToUserId ps !! w) as [uid|].
  - destruct (String.eqb uid "") eqn:Hu.
    + apply String.eqb_eq in Hu. naive_solver.
    + apply String.eqb_neq in Hu. naive_solver.
  - naive_solver.
Qed.

(** The state a close leaves when the socket resolves to a session. *)
Lemma onClose_found w st uid user :
  wsToUserId (presenceService st) !! w = Some uid →
  uid ≠ "" →
  connectedUsers (presenceService st) !! uid = Some user →
  roomManager (onClose w st) = leaveAllRooms w (roomManager st)
  ∧ connectedUsers (presenceService (onClose w st))
    = delete uid (connectedUsers (presenceService st))
  ∧ wsToUserId (presenceService (onClose w st))
    = delete w (wsToUserId (presenceService st))
  ∧ (∀ t, timers (onClose w st) !! t
          = if decide (t ∈ timerHandles user) then None else timers st !! t)
  ∧ initialized (onClose w st) = initialized st
  ∧ nextTimerId (onClose w st) = nextTimerId st.
Proof.
  intros Hw Hne Hu. unfold onClose, handleDisconnection.
  assert (getUserByWs w (presenceService st) = Some user) as ->
    by (apply getUserByWs_Some; eauto).
  destruct (removeUser_found w st uid user Hw Hne Hu)
    as (_ & Hcu & Hwu & Htm & Hrm & _ & Hini & Hnext).
  match goal with
  | |- context [broadcastPresence ?u ?o ?cs ?s] =>
      destruct (broadcastPresence_spec u o cs s) as ((Hr & Hp & Ht & Hn & Hi) & _)
  end.
  rewrite Hr, Hp, Ht, Hn, Hi. simpl. by rewrite Hrm.
Qed.

Lemma onClose_absent w st :
  getUserByWs w (presenceService st) = None → onClose w st = st.
Proof. intros H. unfold onClose, handleDisconnection. by rewrite H. Qed.


(** ** Invariants of every run *)

Lemma session_eq u u' :
  session u = session u' →
  userId u = userId u' ∧ ws u = ws u' ∧ chatRooms u = chatRooms u'.
Proof. destruct u, u'. unfold session, setUserTimers; simpl. by intros [=]. Qed.

Lemma sameSessions_sym st st' : sameSessions st st' → sameSessions st' st.
Proof. intros (?&?&?). by repeat split. Qed.

Lemma sameSessions_lookup st st' uid user' :
  sameSessions st st' →
  connectedUsers (presenceService st') !! uid = Some user' →
  ∃ user, connectedUsers (presenceService st) !! uid = Some user
          ∧ session user = session user'.
Proof.
  intros (_ & _ & Hcu) Hu.
  assert ((session <$> connectedUsers (presenceService st)) !! uid
          = Some (session user')) as Hl.
  { by rewrite <-Hcu, lookup_fmap, Hu. }
  rewrite lookup_fmap in Hl.
  destruct (connectedUsers (presenceService st) !! uid) as [user|]; [|done].
  exists user. split; [done|]. simpl in Hl. congruence.
Qed.

Lemma sameSessions_getUserByWs st st' w user' :
  sameSessions st st' →
  getUserByWs w (presenceService st') = Some user' →
  ∃ user, getUserByWs w (presenceService st) = Some user
          ∧ session user = session user'.
Proof.
  intros Hs (uid & Hw & Hne & Hu)%getUserByWs_Some.
  destruct (sameSessions_lookup st st' uid user' Hs Hu) as (user & Hu' & Heq).
  exists user. split; [|done]. apply getUserByWs_Some. exists uid.
  destruct Hs as (_ & Hwu & _). by rewrite <-Hwu.
Qed.

Lemma rooms_wf_joinAll w chatIds rm :
  rooms_wf rm → rooms_wf (foldl (λ rm chatId, joinRoom chatId w rm) rm chatIds).
Proof.
  revert rm. induction chatIds as [|c chatIds IH]; intros rm Hwf; [done|].
  simpl. by apply IH, rooms_wf_joinRoom.
Qed.

Lemma participants_joinAll w chatIds rm c w' :
  w' ∈ getRoomParticipants c (foldl (λ rm chatId, joinRoom chatId w rm) rm chatIds)
  ↔ (w' = w ∧ c ∈ chatIds) ∨ w' ∈ getRoomParticipants c rm.
Proof.
  revert rm. induction chatIds as [|c' chatIds IH]; intros rm; simpl.
  - rewrite elem_of_nil. naive_solver.
  - rewrite IH, participants_joinRoom, elem_of_cons.
    case_decide; subst; rewrite ?elem_of_Set_add; naive_solver.
Qed.

Lemma indexed_initial : indexed initialServer.
Proof.
  split; [apply rooms_wf_empty|]. intros uid user. simpl.
  by rewrite lookup_empty.
Qed.

Lemma indexed_sameSessions st st' : sameSessions st st' → indexed st → indexed st'.
Proof.
  intros Hs [Hwf Hkey]. split.
  - destruct Hs as (-> & _). done.
  - intros uid user' Hu.
    destruct (sameSessions_lookup st st' uid user' Hs Hu) as (user & Hu' & Heq).
    apply session_eq in Heq as (<- & _). by apply Hkey.
Qed.

Lemma indexed_onOpen rev w input st : indexed st → indexed (onOpen rev w input st).
Proof.
  intros Hix. destruct (openOutcome input) as [[token profile]|] eqn:Hout.
  - destruct (onOpen_accepted rev w input st token profile Hout)
      as (Hr & Hp & _).
    destruct Hix as [Hwf Hkey]. split.
    + rewrite Hr. by apply rooms_wf_joinAll.
    + intros uid user. rewrite Hp. unfold addUser; simpl.
      destruct (decide (uid = Jwt.userId profile)) as [->|Hne].
      * rewrite lookup_insert_eq. by intros [= <-].
      * rewrite lookup_insert_ne by done. apply Hkey.
  - eapply indexed_sameSessions; [|done]. by apply onOpen_rejected.
Qed.

Lemma indexed_onClose w st : indexed st → indexed (onClose w st).
Proof.
  intros Hix. destruct (getUserByWs w (presenceService st)) as [user|] eqn:Hu.
  - apply getUserByWs_Some in Hu as (uid & Hw & Hne & Hu).
    destruct (onClose_found w st uid user Hw Hne Hu) as (Hr & Hcu & _).
    destruct Hix as [Hwf Hkey]. split.
    + rewrite Hr. by apply rooms_wf_leaveAllRooms.
    + intros uid' user'. rewrite Hcu. intros Hl.
      apply lookup_delete_Some in Hl as [_ Hl]. by apply Hkey.
  - by rewrite onClose_absent.
Qed.

Lemma indexed_step config st ev : indexed st → indexed (step config st ev).
Proof.
  intros Hix. destruct ev as [rev w input|w frame|w|t]; simpl.
  - by apply indexed_onOpen.
  - eapply indexed_sameSessions; [apply sameSessions_onMessage|done].
  - by apply indexed_onClose.
  - eapply indexed_sameSessions; [apply sameSessions_onTimeout|done].
Qed.

Lemma indexed_run config evs : indexed (run config evs).
Proof.
  unfold run. induction evs as [|ev evs IH] using rev_ind.
  - apply indexed_initial.
  - rewrite foldl_app. simpl. by apply indexed_step.
Qed.




(** ** Runs with distinct identities *)

Lemma paired_initial : paired initialServer.
Proof.
  split; [apply indexed_initial| | |].
  - intros uid user. simpl. by rewrite lookup_empty.
  - intros w uid. simpl. by rewrite lookup_empty.
  - intros w c. unfold getRoomParticipants, getUserByWs; simpl.
    rewrite !lookup_empty. rewrite elem_of_nil. naive_solver.
Qed.

Lemma paired_sameSessions st st' : sameSessions st st' → paired st → paired st'.
Proof.
  intros Hs [Hix Huser Hsock Hcons]. unfold consistent in Hcons.
  pose proof (sameSessions_sym _ _ Hs) as Hs'.
  pose proof Hs as (Hr & Hwu & _).
  split.
  - by eapply indexed_sameSessions.
  - intros uid user' Hu.
    destruct (sameSessions_lookup st st' uid user' Hs Hu) as (user & Hu0 & Heq).
    apply session_eq in Heq as (_ & Hws & _).
    destruct (Huser uid user Hu0) as [Hne Hw]. split; [done|].
    by rewrite Hwu, <-Hws.
  - intros w uid Hw. rewrite Hwu in Hw.
    destruct (Hsock w uid Hw) as (user & Hu & Hws).
    destruct (sameSessions_lookup st' st uid user Hs' Hu) as (user' & Hu' & Heq).
    apply session_eq in Heq as (_ & Hws' & _).
    exists user'. split; [done|]. congruence.
  - intros w c. rewrite Hr, Hcons. split.
    + intros (user & Hu & Hc).
      destruct (sameSessions_getUserByWs st' st w user Hs' Hu)
        as (user' & Hu' & Heq).
      apply session_eq in Heq as (_ & _ & Hrooms).
      exists user'. split; [done|]. congruence.
    + intros (user' & Hu' & Hc).
      destruct (sameSessions_getUserByWs st st' w user' Hs Hu')
        as (user & Hu & Heq).
      apply session_eq in Heq as (_ & _ & Hrooms).
      exists user. split; [done|]. congruence.
Qed.

Lemma paired_onOpen rev w input st :
  freshOpen st (Open rev w input) = true →
  paired st → paired (onOpen rev w input st).
Proof.
  intros Hfresh Hp.
  destruct (openOutcome input) as [[token profile]|] eqn:Hout.
  2:{ eapply paired_sameSessions; [|done]. by apply onOpen_rejected. }
  pose proof Hp as [Hix Huser Hsock Hcons]. unfold consistent in Hcons.
  destruct (onOpen_accepted rev w input st token profile Hout)
    as (Hr & Hps & _).
  apply openOutcome_accepted in Hout as (_ & Hauth & Hne).
  simpl in Hfresh. rewrite Hauth in Hfresh.
  apply andb_true_iff in Hfresh as [Hw Hu].
  apply bool_decide_eq_true in Hw, Hu.
  set (chatIds := fetchedChatIds token (chatsAnswers input)) in *.
  set (user := newConnectedUser profile w token chatIds (openedAt input)) in *.
  assert (getUserByWs w (presenceService st) = None) as Hnone.
  { unfold getUserByWs. by rewrite Hw. }
  assert (∀ w', w' ≠ w →
            getUserByWs w' (presenceService (onOpen rev w input st))
            = getUserByWs w' (presenceService st)) as Hother.
  { intros w' Hw'. rewrite Hps. unfold getUserByWs, addUser; simpl.
    rewrite lookup_insert_ne by done.
    destruct (wsToUserId (presenceService st) !! w') as [uid'|] eqn:Hw''; [|done].
    destruct (String.eqb uid' ""); [done|].
    rewrite lookup_insert_ne; [done|]. intros <-.
    destruct (Hsock w' _ Hw'') as (u & Hu' & _). congruence. }
  split.
  - by apply indexed_onOpen.
  - intros uid' user'. rewrite Hps. unfold addUser; simpl.
    destruct (decide (uid' = Jwt.userId profile)) as [->|Hne'].
    + rewrite lookup_insert_eq. intros [= <-]. split; [done|].
      simpl. by rewrite lookup_insert_eq.
    + rewrite lookup_insert_ne by done. intros Hu'.
      destruct (Huser uid' user' Hu') as [Hne'' Hw']. split; [done|].
      rewrite lookup_insert_ne; [done|]. intros Heq. simpl in Heq.
      rewrite <-Heq in Hw'. congruence.
  - intros w' uid'. rewrite Hps. unfold addUser; simpl.
    destruct (decide (w' = w)) as [->|Hne'].
    + rewrite lookup_insert_eq. intros [= <-]. exists user.
      by rewrite lookup_insert_eq.
    + rewrite lookup_insert_ne by done. intros Hw'.
      destruct (Hsock w' uid' Hw') as (u & Hu' & Hws). exists u.
      split; [|done]. rewrite lookup_insert_ne; [done|]. simpl.
      intros <-. congruence.
  - intros w' c. rewrite Hr, participants_joinAll.
    destruct (decide (w' = w)) as [->|Hne'].
    + assert (getUserByWs w (presenceService (onOpen rev w input st))
              = Some user) as ->.
      { apply getUserByWs_Some. exists (Jwt.userId profile). rewrite Hps.
        unfold addUser; simpl. by rewrite !lookup_insert_eq. }
      rewrite Hcons, Hnone. split.
      * intros [[_ Hc]|(u & Hu' & _)]; [|done].
        exists user. split; [done|]. simpl.
        exact (proj2 (elem_of_Set_of chatIds c) Hc).
      * intros (u & [= <-] & Hc). left. split; [done|].
        simpl in Hc. exact (proj1 (elem_of_Set_of chatIds c) Hc).
    + rewrite Hother by done. rewrite Hcons. naive_solver.
Qed.

Lemma paired_onClose w st : paired st → paired (onClose w st).
Proof.
  intros Hp. destruct (getUserByWs w (presenceService st)) as [user|] eqn:Hg.
  2:{ by rewrite onClose_absent. }
  pose proof Hp as [Hix Huser Hsock Hcons]. unfold consistent in Hcons.
  apply getUserByWs_Some in Hg as (uid & Hw & Hne & Hu).
  destruct (onClose_found w st uid user Hw Hne Hu) as (Hr & Hcu & Hwu & _).
  assert (ws user = w) as Hws.
  { destruct (Hsock w uid Hw) as (u & Hu' & Hws). congruence. }
  assert (getUserByWs w (presenceService (onClose w st)) = None) as Hgone.
  { unfold getUserByWs. by rewrite Hwu, lookup_delete_eq. }
  assert (∀ w', w' ≠ w →
            getUserByWs w' (presenceService (onClose w st))
            = getUserByWs w' (presenceService st)) as Hother.
  { intros w' Hw'. unfold getUserByWs. rewrite Hwu, Hcu.
    rewrite lookup_delete_ne by done.
    destruct (wsToUserId (presenceService st) !! w') as [uid'|] eqn:Hw''; [|done].
    destruct (String.eqb uid' ""); [done|].
    rewrite lookup_delete_ne; [done|]. intros <-.
    destruct (Hsock w' uid Hw'') as (u & Hu' & Hws'). congruence. }
  split.
  - by apply indexed_onClose.
  - intros uid' user'. rewrite Hcu, Hwu.
    intros [Hne' Hu']%lookup_delete_Some.
    destruct (Huser uid' user' Hu') as [Hne'' Hw']. split; [done|].
    rewrite lookup_delete_ne; [done|]. intros Heq. rewrite <-Heq in Hw'.
    congruence.
  - intros w' uid'. rewrite Hcu, Hwu.
    intros [Hne' Hw']%lookup_delete_Some.
    destruct (Hsock w' uid' Hw') as (u & Hu' & Hws'). exists u.
    split; [|done]. rewrite lookup_delete_ne; [done|]. intros <-. congruence.
  - intros w' c. rewrite Hr.
    rewrite participants_leaveAllRooms by apply Hix.
    rewrite elem_of_Set_delete. destruct (decide (w' = w)) as [->|Hne'].
    + rewrite Hgone. naive_solver.
    + rewrite Hother by done. rewrite Hcons. naive_solver.
Qed.

Lemma paired_step config st ev :
  freshOpen st ev = true → paired st → paired (step config st ev).
Proof.
  intros Hfresh Hp. destruct ev as [rev w input|w frame|w|t]; simpl.
  - by apply paired_onOpen.
  - eapply paired_sameSessions; [apply sameSessions_onMessage|done].
  - by apply paired_onClose.
  - eapply paired_sameSessions; [apply sameSessions_onTimeout|done].
Qed.

Lemma paired_steps config evs :
  ∀ st, paired st → distinctIdentities config st evs = true →
        paired (foldl (step config) st evs).
Proof.
  induction evs as [|ev evs IH]; intros st Hp Hd; [done|].
  simpl in Hd |- *. apply andb_true_iff in Hd as [Hfresh Hd].
  apply IH; [by apply paired_step|done].
Qed.

(** C4: after any sequence of opens, inbound frames, timer expiries
    and closes in which no connection opens under an identity that
    already has a session (and on a socket that has no directory
    entry), a connection is in a topic's member set exactly when the
    topic is in the topic set of the session the directory resolves
    the connection to. *)
Theorem C4_registry_directory_consistent (config : Config) (evs : list Event) :
  distinctIdentities config initialServer evs = true →
  consistent (run config evs).
Proof.
  intros Hd. apply (paired_steps config evs initialServer paired_initial Hd).
Qed.

Lemma C4_registry_directory_consistent_witness :
  consistent
    (run defaultConfig
       [Open BackfillThenAnnounce 1 (openAs "U" ["A"; "B"]);
        Open AnnounceFirst 2 (openAs "V" ["A"]);
        Receive 1 (typing "A" true);
        Receive 2 sendHello;
        Close 1;
        TimerFired 0;
        Open BackfillThenAnnounce 3 (openAs "U" ["B"])]).
Proof.
  apply (C4_registry_directory_consistent defaultConfig
           [Open BackfillThenAnnounce 1 (openAs "U" ["A"; "B"]);
            Open AnnounceFirst 2 (openAs "V" ["A"]);
            Receive 1 (typing "A" true);
            Receive 2 sendHello;
            Close 1;
            TimerFired 0;
            Open BackfillThenAnnounce 3 (openAs "U" ["B"])]).
  vm_compute. reflexivity.
Defined.

(** After U opened two connections and the first was closed, socket 2
    is in the room of chat A but the directory resolves it to no
    session. *)
Lemma C4_member_without_session : ¬ consistent firstConnectionClosed.
Proof.
  intros H. destruct (H 2 "A") as [Hto _].
  destruct Hto as (user & Huser & _).
  - vm_compute. apply list_elem_of_here.
  - vm_compute in Huser. discriminate.
Qed.

(** ** The online announcement *)

Lemma onlineNotices_app peer uid a b :
  onlineNotices peer uid (a ++ b)
  = onlineNotices peer uid a + onlineNotices peer uid b.
Proof. unfold onlineNotices. by rewrite List.filter_app, length_app. Qed.

Lemma onlineNotices_other peer uid w es :
  peer ≠ w →
  Forall (λ e, sends [e] = [] ∨ ∃ f, e = Sent w f) es →
  onlineNotices peer uid es = 0.
Proof.
  intros Hne Hes. induction Hes as [|e es He _ IH]; [done|].
  change (e :: es) with ([e] ++ es). rewrite onlineNotices_app, IH.
  destruct He as [He|[f ->]].
  - destruct e; try done.
  - unfold onlineNotices; simpl. destruct f as [| | | |u [|]| |]; try done.
    rewrite bool_decide_eq_false_2 by done. done.
Qed.

Lemma onlineNotices_room peer uid (l : list WS) :
  NoDup l →
  onlineNotices peer uid ((λ w, Sent w (UserOnline uid true)) <$> l)
  = if decide (peer ∈ l) then 1 else 0.
Proof.
  induction 1 as [|w l Hw Hnd IH]; [done|].
  rewrite fmap_cons.
  change (?e :: ?es) with ([e] ++ es). rewrite onlineNotices_app, IH.
  unfold onlineNotices; simpl. rewrite String.eqb_refl, andb_true_r.
  destruct (decide (w = peer)) as [->|Hne].
  - rewrite bool_decide_eq_true_2 by done.
    rewrite (decide_True (P := peer ∈ peer :: l)) by apply list_elem_of_here.
    by rewrite decide_False.
  - rewrite bool_decide_eq_false_2 by done. simpl.
    case_decide as Hin.
    + rewrite decide_True; [done|by apply list_elem_of_further].
    + rewrite decide_False; [done|]. rewrite elem_of_cons. naive_solver.
Qed.

Lemma onlineNotices_announce peer uid rm (cs : list string) :
  (∀ c, NoDup (getRoomParticipants c rm)) →
  onlineNotices peer uid
    (flat_map (λ c, (λ w, Sent w (UserOnline uid true))
                      <$> getRoomParticipants c rm) cs)
  = length (filter (λ c, peer ∈ getRoomParticipants c rm) cs).
Proof.
  intros Hnd. induction cs as [|c cs IH]; [done|].
  simpl. rewrite onlineNotices_app, IH, onlineNotices_room by done.
  rewrite filter_cons. by case_decide.
Qed.

(** C2: when a connection opens in any run, the announcement is made
    once per distinct chat of the fetched list, so a connection other
    than the new one receives one online notice for the new identity
    for each distinct fetched chat it is a member of. *)
Theorem C2_online_notice_per_shared_chat (config : Config) (evs : list Event)
    (rev : Revision) (w : WS) (input : OpenInput) (token : string)
    (profile : Jwt.UserProfile) (peer : WS) :
  openOutcome input = Some (token, profile) →
  peer ≠ w →
  ∃ new,
    trace (onOpen rev w input (run config evs)) = trace (run config evs) ++ new
    ∧ onlineNotices peer (Jwt.userId profile) new
      = length
          (filter
             (λ chatId,
                peer ∈ getRoomParticipants chatId (roomManager (run config evs)))
             (Set_of (fetchedChatIds token (chatsAnswers input)))).
Proof.
  intros Hout Hpeer.
  destruct (onOpen_accepted rev w input (run config evs) token profile Hout)
    as (Hr & _ & _ & before & after & Htrace & Hothers).
  apply Forall_app in Hothers as [Hbefore Hafter].
  eexists. split; [exact Htrace|].
  rewrite !onlineNotices_app.
  rewrite (onlineNotices_other peer _ w before) by done.
  rewrite (onlineNotices_other peer _ w after) by done.
  rewrite onlineNotices_announce.
  - rewrite Nat.add_0_r. simpl. f_equal. apply list_filter_iff.
    intros c. rewrite Hr, participants_joinAll. naive_solver.
  - intros c. rewrite Hr. apply wf_rooms_nodup, rooms_wf_joinAll.
    apply indexed_run.
Qed.

Lemma C2_online_notice_per_shared_chat_witness :
  ∃ new,
    trace (onOpen BackfillThenAnnounce 2 (openAs "V" ["A"; "B"; "A"])
                  (run defaultConfig
                     [Open BackfillThenAnnounce 1 (openAs "U" ["A"; "B"])]))
    = trace (run defaultConfig
               [Open BackfillThenAnnounce 1 (openAs "U" ["A"; "B"])]) ++ new
    ∧ onlineNotices 1 "V" new = 2.
Proof.
  destruct (C2_online_notice_per_shared_chat defaultConfig
              [Open BackfillThenAnnounce 1 (openAs "U" ["A"; "B"])]
              BackfillThenAnnounce 2 (openAs "V" ["A"; "B"; "A"]) "token-V"
              (Jwt.mkProfile "V" "V@example.com" "V" "buyer") 1)
    as (new & Htrace & Hcount).
  - reflexivity.
  - lia.
  - exists new. split; [exact Htrace|].
    etransitivity; [exact Hcount|]. vm_compute. reflexivity.
Defined.

(** U is in chats A and B; V, whose chats are A and B too, connects:
    socket 1 is sent V's online notice twice. *)
Lemma C2_peer_in_two_chats_notified_twice :
  trace (onOpen BackfillThenAnnounce 2 (openAs "V" ["A"; "B"]) oneInChatsAB)
  = trace oneInChatsAB
    ++ [HttpFetch "GET" "/chats" 0;
        Sent 2 (Connected "V" ["A"; "B"]);
        Sent 2 (UserOnline "U" true);
        Sent 1 (UserOnline "V" true); Sent 2 (UserOnline "V" true);
        Sent 1 (UserOnline "V" true); Sent 2 (UserOnline "V" true)]
  ∧ onlineNotices 1 "V"
      [HttpFetch "GET" "/chats" 0;
       Sent 2 (Connected "V" ["A"; "B"]);
       Sent 2 (UserOnline "U" true);
       Sent 1 (UserOnline "V" true); Sent 2 (UserOnline "V" true);
       Sent 1 (UserOnline "V" true); Sent 2 (UserOnline "V" true)] = 2.
Proof. split; vm_compute; reflexivity. Qed.

(** ** Ownership of armed timers *)

Lemma onOpen_timers rev w input st :
  timers (onOpen rev w input st) = timers st
  ∧ nextTimerId (onOpen rev w input st) = nextTimerId st.
Proof.
  destruct (openOutcome input) as [[token profile]|] eqn:Hout.
  - apply openOutcome_accepted in Hout as (Htok & Hauth & _).
    destruct rev; unfold onOpen, handleConnection,
      handleConnection_announceFirst, tryCatch, bind, await, exec;
      rewrite Htok, Hauth; simpl; rewrite fetchChatIds_spec; simpl.
    + match goal with
      | |- context [backfillOnline ?a ?b ?c ?s] =>
          destruct (backfillOnline_spec a b c s) as (es & -> & _)
      end.
      match goal with
      | |- context [broadcastPresence ?u ?o ?cs ?s] =>
          destruct (broadcastPresence_spec u o cs s) as ((_ & _ & -> & -> & _) & _)
      end.
      done.
    + match goal with
      | |- context [broadcastPresence ?u ?o ?cs ?s] =>
          destruct (broadcastPresence_spec u o cs s) as ((_ & _ & -> & -> & _) & _)
      end.
      done.
  - destruct (openOutcome_rejected input Hout) as [Htok|(t & e & Htok & Hauth)];
      destruct rev; unfold onOpen, handleConnection,
        handleConnection_announceFirst, tryCatch, bind, await, exec;
      rewrite Htok; simpl; try done;
      rewrite Hauth; simpl; unfold connectionFailed;
      by destruct (errClass e).
Qed.

Lemma timersOwned_initial : timersOwned initialServer.
Proof.
  split; simpl.
  - intros t cb. by rewrite lookup_empty.
  - intros t cb. by rewrite lookup_empty.
  - intros uid user c t. by rewrite lookup_empty.
Qed.

Lemma timersOwned_emit es st : timersOwned st → timersOwned (emit es st).
Proof. by intros [? ? ?]. Qed.

Lemma timersOwned_onOpen rev w input st :
  freshOpen st (Open rev w input) = true →
  timersOwned st → timersOwned (onOpen rev w input st).
Proof.
  intros Hfresh [Harmed Hfr Hstored].
  destruct (onOpen_timers rev w input st) as [Ht Hn].
  destruct (openOutcome input) as [[token profile]|] eqn:Hout.
  - destruct (onOpen_accepted rev w input st token profile Hout)
      as (_ & Hps & _).
    apply openOutcome_accepted in Hout as (_ & Hauth & _).
    simpl in Hfresh. rewrite Hauth in Hfresh.
    apply andb_true_iff in Hfresh as [_ Hu]. apply bool_decide_eq_true in Hu.
    split; rewrite ?Ht, ?Hn, ?Hps; unfold addUser; simpl.
    + intros t cb Htm. destruct (Harmed t cb Htm) as (user & Hu' & Hrest).
      exists user. split; [|done]. rewrite lookup_insert_ne; [done|].
      intros Heq. rewrite Heq in Hu. congruence.
    + done.
    + intros uid user c t.
      destruct (decide (uid = Jwt.userId profile)) as [->|Hne].
      * rewrite lookup_insert_eq. intros [= <-]. simpl. by rewrite lookup_empty.
      * rewrite lookup_insert_ne by done. apply Hstored.
  - destruct (onOpen_rejected rev w input st Hout) as [_ Hps].
    split; rewrite ?Ht, ?Hn, ?Hps; done.
Qed.

Lemma timersOwned_onClose w st : timersOwned st → timersOwned (onClose w st).
Proof.
  intros Hto. destruct (getUserByWs w (presenceService st)) as [user|] eqn:Hg.
  2:{ by rewrite onClose_absent. }
  destruct Hto as [Harmed Hfr Hstored].
  apply getUserByWs_Some in Hg as (uid & Hw & Hne & Hu).
  destruct (onClose_found w st uid user Hw Hne Hu)
    as (_ & Hcu & _ & Htm & _ & Hn).
  split; rewrite ?Hn, ?Hcu.
  - intros t cb. rewrite Htm. case_decide as Hin; [done|]. intros Ht.
    destruct (Harmed t cb Ht) as (user' & Hu' & Hws & Hreg & Hc).
    exists user'. split; [|done]. rewrite lookup_delete_ne; [done|].
    intros Heq. rewrite <-Heq in Hu'.
    assert (user' = user) as -> by congruence.
    apply Hin. unfold timerHandles. apply list_elem_of_fmap.
    exists (cb_chatId cb, t). split; [done|].
    by apply elem_of_map_to_list.
  - intros t cb. rewrite Htm. case_decide; [done|]. apply Hfr.
  - intros uid' user' c t [_ Hu']%lookup_delete_Some. by apply (Hstored uid').
Qed.

Lemma timersOwned_onTimeout t st : timersOwned st → timersOwned (onTimeout t st).
Proof.
  intros [Harmed Hfr Hstored]. unfold onTimeout.
  destruct (timers st !! t) as [cb|] eqn:Ht; [|done].
  split; simpl.
  - intros t' cb' [_ Ht']%lookup_delete_Some. by apply Harmed.
  - intros t' cb' [_ Ht']%lookup_delete_Some. by eapply Hfr.
  - done.
Qed.

Lemma timersOwned_clearTypingTimer uid c st :
  timersOwned st → timersOwned (clearTypingTimer uid c st).
Proof.
  intros Hto. pose proof Hto as [Harmed Hfr Hstored]. unfold clearTypingTimer.
  destruct (connectedUsers (presenceService st) !! uid) as [user|] eqn:Hu;
    [|done].
  destruct (typingTimers user !! c) as [t0|] eqn:Ht0; [|done].
  split; simpl.
  - intros t cb [Hne Ht]%lookup_delete_Some.
    destruct (Harmed t cb Ht) as (user' & Hu' & Hws & Hreg & Hc).
    destruct cb as [cc cu cn cw]; simpl in *.
    destruct (decide (cu = uid)) as [->|Hneq].
    + rewrite lookup_insert_eq.
      assert (user' = user) as -> by congruence.
      eexists. split; [done|]. simpl. split_and!; [done| |done].
      rewrite lookup_delete_ne; [done|]. intros <-. congruence.
    + rewrite lookup_insert_ne by done. by exists user'.
  - intros t cb [_ Ht]%lookup_delete_Some. by eapply Hfr.
  - intros uid' user' c' t.
    destruct (decide (uid' = uid)) as [->|Hneq].
    + rewrite lookup_insert_eq. intros [= <-]. simpl.
      intros [_ Hl]%lookup_delete_Some. by apply (Hstored uid user c' t).
    + rewrite lookup_insert_ne by done. apply Hstored.
Qed.

(** Arming a timer for the chat and storing it in the session. *)
Lemma timersOwned_install uid c name w user st :
  connectedUsers (presenceService st) !! uid = Some user →
  ws user = w → c ∈ chatRooms user →
  timersOwned st →
  timersOwned
    (let '(timer, st1) := setTimeout (mkCallback c uid name w) st in
     setTypingTimer uid c timer st1).
Proof.
  intros Hu Hws Hc [Harmed Hfr Hstored]. simpl.
  unfold setTypingTimer; simpl. rewrite Hu.
  set (n := nextTimerId st).
  assert (∀ t0, typingTimers user !! c = Some t0 → t0 ≠ n) as Hold.
  { intros t0 Ht0 ->. pose proof (Hstored uid user c n Hu Ht0). subst n. lia. }
  assert (∀ t cb, t ≠ n → timers st !! t = Some cb →
            (∀ t0, typingTimers user !! c = Some t0 → t ≠ t0) →
            ∃ user',
              <[uid := setUserTimers user (<[c := n]> (typingTimers user))]>
                (connectedUsers (presenceService st)) !! cb_userId cb
              = Some user'
              ∧ ws user' = cb_ws cb
              ∧ typingTimers user' !! cb_chatId cb = Some t
              ∧ cb_chatId cb ∈ chatRooms user') as Hkeep.
  { intros t cb Hne Ht Hnot.
    destruct (Harmed t cb Ht) as (user' & Hu' & Hws' & Hreg & Hc').
    destruct cb as [cc cu cn cw]; simpl in *.
    destruct (decide (cu = uid)) as [->|Hneq].
    - rewrite lookup_insert_eq.
      assert (user' = user) as -> by congruence.
      eexists. split; [done|]. simpl. split_and!; [done| |done].
      rewrite lookup_insert_ne; [done|]. intros <-. by eapply Hnot.
    - rewrite lookup_insert_ne by done. by exists user'. }
  assert (∀ uid' user' c' t,
            <[uid := setUserTimers user (<[c := n]> (typingTimers user))]>
              (connectedUsers (presenceService st)) !! uid' = Some user' →
            typingTimers user' !! c' = Some t → t < S n) as Hst.
  { intros uid' user' c' t.
    destruct (decide (uid' = uid)) as [->|Hneq].
    - rewrite lookup_insert_eq. intros [= <-]. simpl.
      destruct (decide (c' = c)) as [->|Hc'].
      + rewrite lookup_insert_eq. intros [= <-]. lia.
      + rewrite lookup_insert_ne by done. intros Ht.
        pose proof (Hstored uid user c' t Hu Ht). subst n. lia.
    - rewrite lookup_insert_ne by done. intros Hu' Ht.
      pose proof (Hstored uid' user' c' t Hu' Ht). subst n. lia. }
  assert (∃ user',
            <[uid := setUserTimers user (<[c := n]> (typingTimers user))]>
              (connectedUsers (presenceService st)) !! uid = Some user'
            ∧ ws user' = w ∧ typingTimers user' !! c = Some n
            ∧ c ∈ chatRooms user') as Hnew.
  { rewrite lookup_insert_eq. eexists. split; [done|]. simpl.
    by rewrite lookup_insert_eq. }
  destruct (typingTimers user !! c) as [t0|] eqn:Ht0; split; simpl.
  - intros t cb [Hne Ht]%lookup_delete_Some.
    destruct (decide (t = n)) as [->|Hn].
    + rewrite lookup_insert_eq in Ht. by injection Ht as <-.
    + rewrite lookup_insert_ne in Ht by done. apply Hkeep; [done|done|].
      intros ? [= <-]. done.
  - intros t cb [_ Ht]%lookup_delete_Some.
    destruct (decide (t = n)) as [->|Hn]; [lia|].
    rewrite lookup_insert_ne in Ht by done.
    pose proof (Hfr t cb Ht). subst n. lia.
  - apply Hst.
  - intros t cb Ht. destruct (decide (t = n)) as [->|Hn].
    + rewrite lookup_insert_eq in Ht. by injection Ht as <-.
    + rewrite lookup_insert_ne in Ht by done. apply Hkeep; done.
  - intros t cb Ht. destruct (decide (t = n)) as [->|Hn]; [lia|].
    rewrite lookup_insert_ne in Ht by done.
    pose proof (Hfr t cb Ht). subst n. lia.
  - apply Hst.
Qed.

Section Preserves.
Context (I : Server → Prop).
Hypothesis I_emit : ∀ es st, I st → I (emit es st).

Lemma preserves_ret {A} (a : A) : preserves I (ret a).
Proof. by intros st. Qed.

Lemma preserves_throw {A} e : preserves I (throw (A:=A) e).
Proof. by intros st. Qed.

Lemma preserves_bind {A B} (m : M A) (k : A → M B) :
  preserves I m → (∀ a, preserves I (k a)) → preserves I (bind m k).
Proof.
  intros Hm Hk st HI. unfold bind. specialize (Hm st HI).
  destruct (m st) as [[e|a] st']; [done|]. by apply Hk.
Qed.

Lemma preserves_tryCatch {A} (body : M A) handler :
  preserves I body → (∀ e, preserves I (handler e)) →
  preserves I (tryCatch body handler).
Proof.
  intros Hm Hk st HI. unfold tryCatch. specialize (Hm st HI).
  destruct (body st) as [[e|a] st']; [|done]. by apply Hk.
Qed.

Lemma preserves_emit es : preserves I (exec (emit es)).
Proof. intros st HI. by apply I_emit. Qed.

Lemma preserves_sendError w c m d : preserves I (exec (sendError w c m d)).
Proof. intros st HI. by apply I_emit. Qed.

Lemma preserves_broadcast c f ex : preserves I (exec (broadcastToRoom c f ex)).
Proof. intros st HI. by apply I_emit. Qed.

Lemma preserves_await {A} (r : (JsError + A) * list Effect) :
  preserves I (await r).
Proof. intros st HI. by apply I_emit. Qed.

Lemma preserves_currentUser w : preserves I (currentUser w).
Proof.
  intros st HI. unfold currentUser.
  by destruct (getUserByWs w (presenceService st)).
Qed.

Lemma preserves_destructure v : preserves I (destructure v).
Proof. destruct v; first [apply preserves_ret|apply preserves_throw]. Qed.

Local Hint Resolve preserves_ret preserves_throw preserves_bind
  preserves_tryCatch preserves_emit preserves_sendError preserves_broadcast
  preserves_await preserves_currentUser preserves_destructure : preserves.

Lemma preserves_handleChatMessage w payload answers :
  preserves I (handleChatMessage w payload answers).
Proof.
  unfold handleChatMessage.
  apply preserves_bind; [auto with preserves|intros user].
  apply preserves_bind; [auto with preserves|intros _].
  repeat preserves_step.
Qed.

Lemma preserves_handleChatRead w payload answers now :
  preserves I (handleChatRead w payload answers now).
Proof.
  unfold handleChatRead.
  apply preserves_bind; [auto with preserves|intros user].
  apply preserves_bind; [auto with preserves|intros _].
  repeat preserves_step.
Qed.

(** The router maintains what the typing handler maintains. *)
Lemma preserves_handleMessage config w frame :
  (∀ payload, preserves I (handleChatTyping w payload)) →
  preserves I (handleMessage config w frame).
Proof.
  intros Htyping. unfold handleMessage. apply preserves_tryCatch.
  - cbv zeta. preserves_step; [auto with preserves|].
    apply preserves_bind; [auto with preserves|intros _].
    preserves_step; [|auto with preserves].
    apply preserves_bind; [auto with preserves|intros _].
    preserves_step; [auto with preserves|].
    preserves_step; [apply preserves_handleChatMessage|].
    preserves_step; [apply preserves_handleChatRead|].
    preserves_step; [apply Htyping|].
    preserves_step; [|auto with preserves].
    unfold handlePing. intros st HI. by apply I_emit.
  - intros e. unfold messageFailed. preserves_step; auto with preserves.
Qed.

Lemma preserves_onMessage config w frame st :
  (∀ payload, preserves I (handleChatTyping w payload)) →
  I st → I (onMessage config w frame st).
Proof.
  intros Htyping HI. unfold onMessage.
  destruct (negb (Set_has w (initialized st))).
  - by apply I_emit, I_emit.
  - by apply preserves_handleMessage.
Qed.

End Preserves.

Lemma session_in_place st st' w user :
  paired st → sameSessions st st' →
  getUserByWs w (presenceService st) = Some user →
  ∃ user', connectedUsers (presenceService st') !! userId user = Some user'
           ∧ ws user' = w ∧ chatRooms user' = chatRooms user.
Proof.
  intros Hp Hs Hg.
  pose proof (paired_sameSessions st st' Hs Hp) as [[_ Hkey'] _ Hsock' _].
  destruct (sameSessions_getUserByWs st' st w user (sameSessions_sym _ _ Hs) Hg)
    as (user' & Hg' & Heq).
  apply session_eq in Heq as (Hid & _ & Hrooms).
  apply getUserByWs_Some in Hg' as (uid' & Hw' & _ & Hu').
  destruct (Hsock' w uid' Hw') as (u & Hu & Hws).
  assert (u = user') as -> by congruence.
  exists user'. rewrite <-Hid, (Hkey' uid' user' Hu'). done.
Qed.

Lemma settled_handleChatTyping w payload :
  preserves (λ st, paired st ∧ timersOwned st) (handleChatTyping w payload).
Proof.
  intros st [Hp Hto]. split.
  { eapply paired_sameSessions; [apply keeps_handleChatTyping|done]. }
  unfold handleChatTyping, bind, currentUser.
  destruct (getUserByWs w (presenceService st)) as [user|] eqn:Hg; [|done].
  destruct (destructure payload st) as [[e|[]] st0] eqn:Hd.
  { destruct payload; unfold destructure, throw, ret in Hd; by simplify_eq. }
  assert (st0 = st) as ->.
  { destruct payload; unfold destructure, throw, ret in Hd; by simplify_eq. }
  destruct (negb (truthy (prop "chatId" payload))
            || negb (isString (prop "chatId" payload))); [done|].
  destruct (negb (String.eqb (typeof (prop "isTyping" payload)) "boolean"));
    [done|].
  destruct (negb (Set_has (stringOf (prop "chatId" payload)) (chatRooms user)))
    eqn:Hmember; [done|].
  apply negb_false_iff, Set_has_true in Hmember.
  set (c := stringOf (prop "chatId" payload)) in *.
  unfold exec. simpl.
  set (st1 := broadcastToRoom c _ (Some w) st).
  assert (timersOwned (clearTypingTimer (userId user) c st1)) as Hcleared.
  { apply timersOwned_clearTypingTimer. by apply timersOwned_emit. }
  destruct (truthy (prop "isTyping" payload)); simpl; [|done].
  destruct (session_in_place st (clearTypingTimer (userId user) c st1) w user)
    as (user' & Hu' & Hws' & Hrooms'); [done| |done|].
  { eapply sameSessions_trans; [apply sameSessions_emit|].
    apply sameSessions_clearTypingTimer. }
  apply (timersOwned_install (userId user) c (userName user) w user');
    [done|done| |done].
  by rewrite Hrooms'.
Qed.

Lemma settled_step config st ev :
  freshOpen st ev = true →
  paired st ∧ timersOwned st →
  paired (step config st ev) ∧ timersOwned (step config st ev).
Proof.
  intros Hfresh [Hp Hto]. split; [by apply paired_step|].
  destruct ev as [rev w input|w frame|w|t]; simpl.
  - by apply timersOwned_onOpen.
  - apply (preserves_onMessage (λ st, paired st ∧ timersOwned st)); [| |done].
    + intros es s [Hp' Hto']. split; [|by apply timersOwned_emit].
      eapply paired_sameSessions; [apply sameSessions_emit|done].
    + intros payload. apply settled_handleChatTyping.
  - by apply timersOwned_onClose.
  - by apply timersOwned_onTimeout.
Qed.

Lemma settled_steps config evs :
  ∀ st, paired st ∧ timersOwned st →
        distinctIdentities config st evs = true →
        paired (foldl (step config) st evs)
        ∧ timersOwned (foldl (step config) st evs).
Proof.
  induction evs as [|ev evs IH]; intros st Hs Hd; [done|].
  simpl in Hd |- *. apply andb_true_iff in Hd as [Hfresh Hd].
  apply IH; [by apply settled_step|done].
Qed.

(** C3: the closure run at typing expiry consults neither the
    directory nor the session: it sends the stopped-typing frame to
    every connection then in the topic's room except the one that set
    the timer (to nobody when the room is gone), and changes nothing
    but the trace.  In runs with distinct identities a timer is armed
    only while the session of the socket that set it is in the
    directory and in the topic, so the closure only ever runs then. *)
Theorem C3_timer_callback (config : Config) (evs : list Event) (t : TimerId)
    (cb : TimerCallback) :
  (∀ st,
     trace (typingTimedOut cb st)
     = trace st
       ++ ((λ w, Sent w (ChatTyping (cb_chatId cb) (cb_userId cb)
                                    (cb_userName cb) false))
             <$> recipients (cb_chatId cb) (Some (cb_ws cb)) (roomManager st))
     ∧ (∀ w, w ∈ recipients (cb_chatId cb) (Some (cb_ws cb)) (roomManager st)
             ↔ w ∈ getRoomParticipants (cb_chatId cb) (roomManager st)
               ∧ w ≠ cb_ws cb)
     ∧ sameState st (typingTimedOut cb st))
  ∧ (distinctIdentities config initialServer evs = true →
     timers (run config evs) !! t = Some cb →
     ∃ user,
       getUserByWs (cb_ws cb) (presenceService (run config evs)) = Some user
       ∧ userId user = cb_userId cb
       ∧ cb_chatId cb ∈ chatRooms user
       ∧ cb_ws cb ∈ getRoomParticipants (cb_chatId cb)
                      (roomManager (run config evs))).
Proof.
  split.
  - intros st. split_and!; [done| |done].
    intros w. unfold recipients, getRoomParticipants.
    destruct (rooms (roomManager st) !! cb_chatId cb) as [room|].
    + rewrite list_elem_of_filter. naive_solver.
    + rewrite elem_of_nil. naive_solver.
  - intros Hd Ht.
    destruct (settled_steps config evs initialServer
                (conj paired_initial timersOwned_initial) Hd) as [Hp Hto].
    fold (run config evs) in Hp, Hto.
    destruct Hp as [[_ Hkey] Huser _ Hcons].
    destruct (to_armed _ Hto t cb Ht) as (user & Hu & Hws & _ & Hc).
    destruct (Huser _ _ Hu) as [Hne Hw].
    assert (getUserByWs (cb_ws cb) (presenceService (run config evs))
            = Some user) as Hg.
    { apply getUserByWs_Some. exists (cb_userId cb). by rewrite <-Hws. }
    exists user. split_and!; [done|by apply Hkey|done|].
    apply Hcons. by exists user.
Qed.

Lemma C3_timer_callback_witness :
  ∃ user,
    getUserByWs 1
      (presenceService
         (run defaultConfig
            [Open BackfillThenAnnounce 1 (openAs "U" ["A"]);
             Open BackfillThenAnnounce 2 (openAs "V" ["A"]);
             Receive 1 (typing "A" true)])) = Some user
    ∧ userId user = "U"
    ∧ "A" ∈ chatRooms user
    ∧ 1 ∈ getRoomParticipants "A"
            (roomManager
               (run defaultConfig
                  [Open BackfillThenAnnounce 1 (openAs "U" ["A"]);
                   Open BackfillThenAnnounce 2 (openAs "V" ["A"]);
                   Receive 1 (typing "A" true)])).
Proof.
  apply (proj2 (C3_timer_callback defaultConfig
                  [Open BackfillThenAnnounce 1 (openAs "U" ["A"]);
                   Open BackfillThenAnnounce 2 (openAs "V" ["A"]);
                   Receive 1 (typing "A" true)]
                  0 (mkCallback "A" "U" "U" 1))).
  - vm_compute. reflexivity.
  - vm_compute. reflexivity.
Defined.

(** * Part III: further properties of the code *)

(** ** Room manager *)

(** X1: on a registry built through its interface, [joinRoom] adds
    exactly the pair it is given, [leaveRoom] removes exactly that pair,
    and [leaveAllRooms] removes the connection from every room; the
    membership of every other pair is untouched. *)
Theorem registry_membership_after_call (cs : list RoomCall) (c c' : string)
    (w w' : WS) :
  (w' ∈ getRoomParticipants c' (joinRoom c w (roomCalls cs))
   ↔ (c' = c ∧ w' = w) ∨ w' ∈ getRoomParticipants c' (roomCalls cs))
  ∧ (w' ∈ getRoomParticipants c' (leaveRoom c w (roomCalls cs))
     ↔ ¬ (c' = c ∧ w' = w) ∧ w' ∈ getRoomParticipants c' (roomCalls cs))
  ∧ (w' ∈ getRoomParticipants c' (leaveAllRooms w (roomCalls cs))
     ↔ w' ≠ w ∧ w' ∈ getRoomParticipants c' (roomCalls cs)).
Proof.
  pose proof (rooms_wf_roomCalls cs) as Hwf. split_and!.
  - rewrite participants_joinRoom. case_decide; subst.
    + rewrite elem_of_Set_add. naive_solver.
    + naive_solver.
  - rewrite participants_leaveRoom by done. case_decide; subst.
    + rewrite elem_of_Set_delete. naive_solver.
    + naive_solver.
  - rewrite participants_leaveAllRooms by done.
    rewrite elem_of_Set_delete. naive_solver.
Qed.

(** X2: a registry built through its interface holds no empty room
    and no empty per-connection set: a chat has a room entry exactly
    when it has a member, a connection has an entry exactly when it is
    in some room, and [getRoomCount] counts distinct members. *)
Theorem registry_keeps_no_empty_room (cs : list RoomCall) (c : string) (w : WS) :
  (rooms (roomCalls cs) !! c = None ↔ getRoomParticipants c (roomCalls cs) = [])
  ∧ (getRoomCount c (roomCalls cs) = 0 ↔ rooms (roomCalls cs) !! c = None)
  ∧ (wsRooms (roomCalls cs) !! w = None
     ↔ ∀ c', w ∉ getRoomParticipants c' (roomCalls cs))
  ∧ NoDup (getRoomParticipants c (roomCalls cs))
  ∧ getRoomCount c (roomCalls cs) = length (getRoomParticipants c (roomCalls cs)).
Proof.
  destruct (rooms_wf_roomCalls cs) as [Hidx Hr Hw Hnd].
  pose proof (Hr c) as Hrc. pose proof (Hnd c) as Hndc.
  unfold getRoomCount, getRoomParticipants in *.
  split_and!.
  - destruct (rooms (roomCalls cs) !! c) as [[|x room]|]; naive_solver.
  - destruct (rooms (roomCalls cs) !! c) as [[|x room]|]; naive_solver.
  - split.
    + intros Hnone c' Hin. apply Hidx in Hin. rewrite Hnone in Hin.
      by apply not_elem_of_nil in Hin.
    + intros Hno. destruct (wsRooms (roomCalls cs) !! w) as [[|c' s]|] eqn:Hs;
        [by destruct (Hw w)| |done].
      exfalso. apply (Hno c'), Hidx. rewrite Hs. apply list_elem_of_here.
  - done.
  - by destruct (rooms (roomCalls cs) !! c).
Qed.

Lemma rooms_fold_leaveRoom w l rm :
  rooms (foldl (λ rm c, leaveRoom c w rm) rm l)
  = foldl (dropFromRoom w) (rooms rm) l.
Proof. revert rm. induction l as [|c l IH]; intros rm; [done|]. simpl. by rewrite IH. Qed.

Lemma filter_Set_delete (c : string) (l cur : list string) :
  filter (λ x, x ∉ l) (Set_delete c cur) = filter (λ x, x ∉ c :: l) cur.
Proof.
  unfold Set_delete. induction cur as [|x cur IH]; [done|].
  destruct (decide (x = c)) as [->|Hne].
  - rewrite (filter_cons_False _ c) by naive_solver. rewrite IH.
    rewrite filter_cons_False; [done|]. intros Hn. apply Hn, list_elem_of_here.
  - rewrite (filter_cons_True (λ y, y ≠ c)) by done.
    destruct (decide (x ∈ l)) as [Hin|Hnin].
    + rewrite !filter_cons_False; [done| |naive_solver].
      intros Hn. apply Hn. by apply list_elem_of_further.
    + rewrite !filter_cons_True; [by rewrite IH| |done].
      rewrite elem_of_cons. naive_solver.
Qed.

Lemma filter_none {A} (P : A → Prop) `{∀ x, Decision (P x)} (l : list A) :
  (∀ x, x ∈ l → ¬ P x) → filter P l = [].
Proof.
  induction l as [|x l IH]; intros Hl; [done|].
  rewrite filter_cons_False by (apply Hl, list_elem_of_here).
  apply IH. intros y Hy. by apply Hl, list_elem_of_further.
Qed.

Lemma wsRooms_fold_leaveRoom w l :
  ∀ rm cur,
    wsRooms rm !! w = Some cur → cur ≠ [] →
    wsRooms (foldl (λ rm c, leaveRoom c w rm) rm l)
    = if bool_decide (filter (λ x, x ∉ l) cur = []) then delete w (wsRooms rm)
      else <[w := filter (λ x, x ∉ l) cur]> (wsRooms rm).
Proof.
  induction l as [|c l IH]; intros rm cur Hcur Hne; cbn [foldl].
  - assert (filter (λ x, x ∉ []) cur = cur) as ->.
    { clear. induction cur as [|x cur IHc]; [done|].
      rewrite filter_cons_True by apply not_elem_of_nil. by rewrite IHc. }
    rewrite bool_decide_eq_false_2 by done. by rewrite insert_id.
  - rewrite <-filter_Set_delete.
    destruct (decide (Set_delete c cur = [])) as [Hempty|Hnonempty].
    + rewrite Hempty. rewrite filter_nil, bool_decide_eq_true_2 by done.
      assert (wsRooms (leaveRoom c w rm) = delete w (wsRooms rm)) as Hstep.
      { simpl. rewrite Hcur, Hempty. done. }
      clear IH. revert Hstep. generalize (leaveRoom c w rm). intros rm' Hrm'.
      assert (wsRooms rm' !! w = None) as Hnone
        by by rewrite Hrm', lookup_delete_eq.
      clear Hcur. revert rm' Hrm' Hnone.
      induction l as [|c' l IHl]; intros rm' Hrm' Hnone; [done|].
      simpl. apply IHl; simpl; by rewrite Hnone.
    + assert (wsRooms (leaveRoom c w rm) = <[w := Set_delete c cur]> (wsRooms rm))
        as Hstep.
      { simpl. rewrite Hcur. rewrite bool_decide_eq_false_2; [done|].
        intros Hl. by apply nil_length_inv in Hl. }
      rewrite (IH (leaveRoom c w rm) (Set_delete c cur)); [|
        by rewrite Hstep, lookup_insert_eq|done].
      rewrite Hstep. case_bool_decide.
      * by rewrite delete_insert_eq.
      * by rewrite insert_insert_eq.
Qed.

(** X3: on a registry built through its interface, [leaveAllRooms]
    does what leaving each of the connection's rooms in turn does. *)
Theorem leaveAllRooms_is_leaving_each_room (cs : list RoomCall) (w : WS) :
  leaveAllRooms w (roomCalls cs)
  = foldl (λ rm c, leaveRoom c w rm) (roomCalls cs)
          (default [] (wsRooms (roomCalls cs) !! w)).
Proof.
  destruct (rooms_wf_roomCalls cs) as [_ _ Hw _].
  generalize dependent (roomCalls cs). intros rm Hw.
  unfold leaveAllRooms.
  destruct (wsRooms rm !! w) as [s|] eqn:Hs; simpl; [|done].
  assert (s ≠ []) as Hne by (intros ->; by apply (Hw w)).
  destruct (foldl (λ rm c, leaveRoom c w rm) rm s) as [rs wr] eqn:Hfold.
  f_equal.
  - change rs with (rooms (mkRooms rs wr)). rewrite <-Hfold.
    by rewrite rooms_fold_leaveRoom.
  - change wr with (wsRooms (mkRooms rs wr)). rewrite <-Hfold.
    rewrite (wsRooms_fold_leaveRoom w s rm s Hs Hne).
    rewrite bool_decide_eq_true_2; [done|].
    apply filter_none. naive_solver.
Qed.

(** X4: in any run, a broadcast delivers the frame exactly once to
    every member of the room other than the excluded connection, to
    nobody else, and to nobody when the chat has no room; it changes
    nothing but the trace. *)
Theorem broadcast_reaches_each_member_once (config : Config)
    (evs : list Event) (c : string) (f : OutFrame) (ex : option WS) :
  trace (broadcastToRoom c f ex (run config evs))
  = trace (run config evs)
    ++ ((λ w, Sent w f) <$> recipients c ex (roomManager (run config evs)))
  ∧ NoDup (recipients c ex (roomManager (run config evs)))
  ∧ (∀ w, w ∈ recipients c ex (roomManager (run config evs))
          ↔ w ∈ getRoomParticipants c (roomManager (run config evs))
            ∧ ex ≠ Some w)
  ∧ (rooms (roomManager (run config evs)) !! c = None →
     recipients c ex (roomManager (run config evs)) = [])
  ∧ sameState (run config evs) (broadcastToRoom c f ex (run config evs)).
Proof.
  destruct (indexed_run config evs) as [[_ _ _ Hnd] _].
  specialize (Hnd c). unfold recipients, getRoomParticipants in *.
  split_and!; [done| | | |apply sameState_broadcastToRoom].
  - destruct (rooms (roomManager (run config evs)) !! c); [|apply NoDup_nil_2].
    by apply NoDup_filter.
  - intros w. destruct (rooms (roomManager (run config evs)) !! c).
    + rewrite list_elem_of_filter. naive_solver.
    + rewrite elem_of_nil. naive_solver.
  - by intros ->.
Qed.

(** ** Presence service *)

(** X5: a session added under a non-empty user id is found by its
    socket and by its id and reads as online; removing its socket
    returns it and leaves neither lookup.  A session with an empty user
    id is never found by its socket, and removing its socket returns
    nothing and changes nothing. *)
Theorem presence_add_lookup_remove (user : ConnectedUser) (st : Server) :
  (userId user ≠ "" →
   getUserByWs (ws user) (addUser user (presenceService st)) = Some user
   ∧ getUser (userId user) (addUser user (presenceService st)) = Some user
   ∧ isUserOnline (userId user) (addUser user (presenceService st)) = true
   ∧ (removeUser (ws user)
        (setPresence (addUser user (presenceService st)) st)).1 = Some user
   ∧ getUserByWs (ws user)
       (presenceService
          (removeUser (ws user)
             (setPresence (addUser user (presenceService st)) st)).2) = None
   ∧ isUserOnline (userId user)
       (presenceService
          (removeUser (ws user)
             (setPresence (addUser user (presenceService st)) st)).2) = false)
  ∧ (userId user = "" →
     getUserByWs (ws user) (addUser user (presenceService st)) = None
     ∧ removeUser (ws user) (setPresence (addUser user (presenceService st)) st)
       = (None, setPresence (addUser user (presenceService st)) st)).
Proof.
  split.
  - intros Hne.
    assert (getUserByWs (ws user) (addUser user (presenceService st))
            = Some user) as Hfound.
    { apply getUserByWs_Some. exists (userId user). unfold addUser; simpl.
      by rewrite !lookup_insert_eq. }
    destruct (removeUser_found (ws user)
                (setPresence (addUser user (presenceService st)) st)
                (userId user) user) as (Hr & Hcu & Hwu & _).
    { simpl. by rewrite lookup_insert_eq. }
    { done. }
    { simpl. by rewrite lookup_insert_eq. }
    split_and!; [done| | |done| |].
    + unfold getUser, addUser; simpl. by rewrite lookup_insert_eq.
    + unfold isUserOnline, addUser; simpl. rewrite lookup_insert_eq.
      by apply bool_decide_eq_true_2.
    + unfold getUserByWs. by rewrite Hwu, lookup_delete_eq.
    + unfold isUserOnline. rewrite Hcu, lookup_delete_eq.
      apply bool_decide_eq_false_2. by intros [? ?].
  - intros Hempty.
    assert (getUserByWs (ws user) (addUser user (presenceService st)) = None)
      as Hnone.
    { unfold getUserByWs, addUser; simpl. by rewrite lookup_insert_eq, Hempty. }
    split; [done|]. by apply removeUser_absent.
Qed.

Lemma presence_add_lookup_remove_witness :
  getUserByWs 7
    (addUser (mkUser "U" "Una" "u@example.com" "buyer" 7 "t" ["A"] "" ∅)
             (presenceService twoInChatA))
  = Some (mkUser "U" "Una" "u@example.com" "buyer" 7 "t" ["A"] "" ∅)
  ∧ getUserByWs 7
      (addUser (mkUser "" "Una" "u@example.com" "buyer" 7 "t" ["A"] "" ∅)
               (presenceService twoInChatA))
    = None.
Proof.
  split.
  - apply (presence_add_lookup_remove
             (mkUser "U" "Una" "u@example.com" "buyer" 7 "t" ["A"] "" ∅)
             twoInChatA). simpl. discriminate.
  - apply (presence_add_lookup_remove
             (mkUser "" "Una" "u@example.com" "buyer" 7 "t" ["A"] "" ∅)
             twoInChatA). reflexivity.
Defined.

(** ** Authentication *)

(** X6: [verifyToken] returns a profile only for an ok response whose
    profile has a non-empty user id, e-mail and name, and returns that
    profile unchanged; whatever else the identity service answers, the
    error is an [AuthenticationError], with the fixed messages for 401
    and 403. *)
Theorem verifyToken_outcomes (answer : Jwt.ProfileFetch) :
  (∀ profile,
     Jwt.verifyToken answer = inr profile →
     Jwt.userId profile ≠ "" ∧ Jwt.email profile ≠ ""
     ∧ Jwt.name profile ≠ ""
     ∧ ∃ status statusText,
         answer = Jwt.ProfileResponded status statusText (inr profile)
         ∧ responseOk status = true)
  ∧ (∀ e, Jwt.verifyToken answer = inl e →
          errClass e = AuthenticationError ∧ code e = "AUTH_FAILED")
  ∧ (∀ statusText profile,
       Jwt.verifyToken (Jwt.ProfileResponded 401 statusText profile)
       = inl (Jwt.authError "Invalid or expired token")
       ∧ Jwt.verifyToken (Jwt.ProfileResponded 403 statusText profile)
         = inl (Jwt.authError "Access forbidden")).
Proof.
  split_and!.
  - intros profile Hv. unfold Jwt.verifyToken in Hv.
    destruct answer as [cause|status statusText [cause|p]]; [done| |].
    + destruct (negb (responseOk status)); [|done]. by repeat case_match.
    + destruct (responseOk status) eqn:Hok; simpl in Hv;
        [|by repeat case_match].
      destruct (String.eqb (Jwt.userId p) "") eqn:Hu; [done|].
      destruct (String.eqb (Jwt.email p) "") eqn:He; [done|].
      destruct (String.eqb (Jwt.name p) "") eqn:Hn; [done|].
      simpl in Hv. injection Hv as ->.
      apply String.eqb_neq in Hu, He, Hn. split_and!; try done. eauto.
  - intros e Hv. unfold Jwt.verifyToken in Hv.
    destruct answer as [cause|status statusText [cause|p]].
    + by injection Hv as <-.
    + destruct (negb (responseOk status)); repeat case_match;
        by injection Hv as <-.
    + destruct (negb (responseOk status)); repeat case_match;
        simplify_eq; done.
  - intros statusText profile. done.
Qed.

Lemma verifyToken_outcomes_witness :
  Jwt.userId (Jwt.mkProfile "U" "u@example.com" "Una" "buyer") ≠ "".
Proof.
  apply (proj1 (verifyToken_outcomes
                  (Jwt.ProfileResponded 200 "OK"
                     (inr (Jwt.mkProfile "U" "u@example.com" "Una" "buyer"))))
               (Jwt.mkProfile "U" "u@example.com" "Una" "buyer")).
  reflexivity.
Defined.

(** ** HTTP client *)

Lemma fetches_scheduleFrom method endpoint k :
  ∀ attempt, fetches (scheduleFrom method endpoint attempt k) = S k.
Proof.
  induction k as [|k IH]; intros attempt; [done|].
  unfold fetches in *. simpl. by rewrite IH.
Qed.

Lemma sleeps_scheduleFrom method endpoint k :
  ∀ attempt,
    sleeps (scheduleFrom method endpoint attempt k)
    = backoffDelay <$> seq attempt k.
Proof.
  induction k as [|k IH]; intros attempt; [done|].
  unfold sleeps in *. simpl. by rewrite IH.
Qed.

Lemma attemptLoop_schedule {T} method endpoint
    (responses : nat → AttemptOutcome T) remaining :
  ∀ attempt lastError,
    ∃ k, k < S remaining
         ∧ (attemptLoop method endpoint responses (attempt + S remaining)
                        (S remaining) attempt lastError).2
           = scheduleFrom method endpoint attempt k.
Proof.
  induction remaining as [|remaining IH]; intros attempt lastError.
  - exists 0. split; [lia|]. simpl.
    destruct (attemptOnce (responses attempt)) as [e|v]; [|done].
    destruct (notRetried e); [done|].
    by rewrite bool_decide_eq_true_2 by lia.
  - rewrite attemptLoop_step.
    destruct (attemptOnce (responses attempt)) as [e|v];
      [|exists 0; split; [lia|done]].
    destruct (notRetried e); [exists 0; split; [lia|done]|].
    case_bool_decide; [exists 0; split; [lia|done]|].
    destruct (IH (S attempt) (Some e)) as (k & Hk & Heq).
    replace (S attempt + S remaining) with (attempt + S (S remaining))
      in Heq by lia.
    exists (S k). split; [lia|]. cbv zeta. cbn [snd scheduleFrom].
    by rewrite Heq.
Qed.

(** X7: a request makes at least one and at most [retries] fetches,
    sleeps between consecutive fetches only, the delays being
    1000, 2000, 4000, 5000, 5000, ... in this order, and delivers no
    frame; with [retries = 0] it fetches nothing and fails with the
    retries error whose cause is undefined. *)
Theorem makeRequest_attempts_bounded {T} (method endpoint : string)
    (responses : nat → AttemptOutcome T) (retries : nat) :
  (fetches (makeRequest method endpoint responses retries).2 ≤ retries)%nat
  ∧ (0 < retries →
     (1 ≤ fetches (makeRequest method endpoint responses retries).2)%nat)
  ∧ sleeps (makeRequest method endpoint responses retries).2
    = backoffDelay
        <$> seq 0 (fetches (makeRequest method endpoint responses retries).2 - 1)
  ∧ sends (makeRequest method endpoint responses retries).2 = []
  ∧ (retries = 0 →
     makeRequest method endpoint responses retries
     = (inl (mkError (HttpError None) "Request failed after retries"
               (Some (JObject [("originalError", JUndefined)]))), [])).
Proof.
  unfold makeRequest. destruct retries as [|remaining].
  - split_and!; try done; lia.
  - destruct (attemptLoop_schedule method endpoint responses remaining 0 None)
      as (k & Hk & Heq).
    change (0 + S remaining) with (S remaining) in Heq.
    pose proof (attemptLoop_sends method endpoint responses (S remaining)
                  (S remaining) 0 None) as Hsends.
    rewrite Heq in Hsends |- *.
    rewrite fetches_scheduleFrom, sleeps_scheduleFrom.
    split_and!; [lia|lia| |done|done].
    by replace (S k - 1) with k by lia.
Qed.

Lemma makeRequest_attempts_bounded_witness :
  (1 ≤ fetches (makeRequest "PUT" "/chats/A/read-all" twoFaultsThenOk 3).2)%nat.
Proof.
  apply (proj1 (proj2 (makeRequest_attempts_bounded
                         "PUT" "/chats/A/read-all" twoFaultsThenOk 3))).
  lia.
Defined.

(** X8: an answer with an ok status whose body cannot be read as JSON
    counts as a failed attempt and is retried: when the storage service
    answers a read receipt three times with an ok status and an
    unreadable body, the request is sent three times and then fails
    with the retries error carrying the last read failure. *)
Theorem unreadable_ok_body_is_retried (chatId messageId token : string)
    (responses : nat → AttemptOutcome unit) :
  (∀ j, j < 3 →
        ∃ status m d cause,
          responses j = Responded status m d (inl cause)
          ∧ responseOk status = true) →
  ∃ cause,
    attemptOnce (responses 2) = inl (newError cause)
    ∧ markMessageAsRead chatId messageId token responses
      = (inl (mkError (HttpError None) "Request failed after retries"
                (Some (JObject [("originalError", JString cause)]))),
         schedule "PUT"
           ("/chats/" +:+ chatId +:+ "/messages/" +:+ messageId +:+ "/read") 2).
Proof.
  intros Hall.
  assert (∀ j, j < 3 → transient (responses j)) as Htr.
  { intros j Hj. destruct (Hall j Hj) as (status & m & d & cause & -> & Hok).
    exists (newError cause). unfold attemptOnce. by rewrite Hok. }
  destruct (attemptLoop_exhausts "PUT"
              ("/chats/" +:+ chatId +:+ "/messages/" +:+ messageId +:+ "/read")
              responses 2 0 None Htr) as (e & He & Hloop).
  destruct (Hall 2) as (status & m & d & cause & Hresp & Hok); [lia|].
  simpl in He. rewrite Hresp in He. unfold attemptOnce in He.
  rewrite Hok in He. simpl in He. injection He as <-.
  exists cause. split.
  - rewrite Hresp. unfold attemptOnce. by rewrite Hok.
  - unfold markMessageAsRead, makeRequest, defaultRetries, schedule.
    exact Hloop.
Qed.

Lemma unreadable_ok_body_is_retried_witness :
  ∃ cause,
    attemptOnce (noContent 2) = inl (newError cause)
    ∧ markMessageAsRead "A" "m1" "token-U" noContent
      = (inl (mkError (HttpError None) "Request failed after retries"
                (Some (JObject [("originalError", JString cause)]))),
         schedule "PUT" ("/chats/" +:+ "A" +:+ "/messages/" +:+ "m1" +:+ "/read") 2).
Proof.
  apply (unreadable_ok_body_is_retried "A" "m1" "token-U" noContent).
  intros j Hj. exists 204%N, "No Content", JNull, "Unexpected end of JSON input".
  split; reflexivity.
Defined.




(** ** Logger *)




(** ** Router *)

Arguments emit : simpl never.

Lemma handleMessage_routed config w frame st pm type :
  (N.of_nat (length (messageStr (raw frame))) ≤ maxMessageSize config)%N →
  parsed frame = Some pm →
  prop "type" pm = JString type → type ≠ "" →
  handleMessage config w frame st
  = tryCatch
      (if String.eqb type "chat:message" then
         handleChatMessage w (prop "payload" pm) (sendMessageAnswers frame)
       else if String.eqb type "chat:read" then
         handleChatRead w (prop "payload" pm) (markReadAnswers frame)
                        (receivedAt frame)
       else if String.eqb type "chat:typing" then
         handleChatTyping w (prop "payload" pm)
       else if String.eqb type "ping" then handlePing w (receivedAt frame)
       else exec (sendError w "INVALID_MESSAGE"
                    ("Unknown message type: " +:+ type) None))
      (messageFailed config w) (emit [JsonParse] st).
Proof.
  intros Hlen Hparsed Htype Hne. apply N.ltb_ge in Hlen.
  apply String.eqb_neq in Hne.
  unfold handleMessage, tryCatch. rewrite Hlen, Hparsed.
  destruct pm as [| | | | |items|fields]; try discriminate Htype.
  unfold bind at 1. unfold exec at 1.
  unfold bind at 1. unfold destructure, ret.
  rewrite Htype. unfold truthy, isString, typeof, stringOf. rewrite Hne.
  done.
Qed.

Lemma messageFailed_reply config w e st :
  isWebSocketError e = true →
  messageFailed config w e st
  = (inr tt, emit [Sent w (ErrorFrame (code e) (errMessage e) (errDetails e))] st).
Proof. intros H. unfold messageFailed. by rewrite H. Qed.

Lemma messageFailed_internal config w e st :
  isWebSocketError e = false →
  messageFailed config w e st
  = (inr tt,
     emit [Sent w (ErrorFrame "INTERNAL_ERROR" "An internal error occurred"
                     (internalDetails config (errMessage e)))] st).
Proof. intros H. unfold messageFailed. by rewrite H. Qed.

Lemma currentUser_found w st user :
  getUserByWs w (presenceService st) = Some user →
  currentUser w st = (inr user, st).
Proof. intros H. unfold currentUser. by rewrite H. Qed.

Lemma currentUser_missing w st :
  getUserByWs w (presenceService st) = None →
  currentUser w st
  = (inl (newError "User not found in presence service"), st).
Proof. intros H. unfold currentUser. by rewrite H. Qed.

Lemma nonEmptyString_checks v :
  nonEmptyString v = true →
  negb (truthy v) || negb (isString v) = false
  ∧ v = JString (stringOf v) ∧ stringOf v ≠ "".
Proof.
  destruct v; try done. simpl. intros Hs. apply negb_true_iff in Hs.
  rewrite Hs. split_and!; [done|done|]. by apply String.eqb_neq.
Qed.

(** X11: a chat event with an accepted payload for a chat that is not
    in the sender's topic set is answered with one [NOT_PARTICIPANT]
    frame to the sender: no storage request is made, nobody else gets
    a frame, and nothing but the trace changes. *)
Theorem chat_event_outside_membership (config : Config) (w : WS)
    (frame : Inbound) (st : Server) (pm : JsValue) (type : string)
    (user : ConnectedUser) :
  (N.of_nat (length (messageStr (raw frame))) ≤ maxMessageSize config)%N →
  parsed frame = Some pm →
  prop "type" pm = JString type →
  chatEvent type = true →
  acceptedPayload type (prop "payload" pm) = true →
  getUserByWs w (presenceService st) = Some user →
  stringOf (prop "chatId" (prop "payload" pm)) ∉ chatRooms user →
  handleMessage config w frame st
  = (inr tt,
     emit [JsonParse;
           Sent w (ErrorFrame "NOT_PARTICIPANT"
                     "You are not a participant in this chat" None)] st).
Proof.
  intros Hlen Hparsed Htype Hev Hacc Huser Hout.
  assert (type ≠ "") as Hne by (intros ->; done).
  rewrite (handleMessage_routed config w frame st pm type) by done.
  unfold acceptedPayload in Hacc. apply andb_true_iff in Hacc as [Hchat Hrest].
  apply nonEmptyString_checks in Hchat as (Hchat & _ & _).
  apply Set_has_false in Hout.
  unfold chatEvent in Hev.
  assert (∀ payload : JsValue,
            nonEmptyString (prop "chatId" payload) = true →
            destructure payload = ret tt) as Hd.
  { intros [] Hp; done. }
  destruct (String.eqb type "chat:message") eqn:Hm.
  { apply nonEmptyString_checks in Hrest as (Hcontent & Heq & Hnon).
    unfold tryCatch, handleChatMessage, bind.
    rewrite (currentUser_found _ _ user) by done.
    destruct (prop "payload" pm) eqn:Hp; try done.
    simpl. simpl in Hchat, Hcontent, Hout, Heq, Hnon.
    rewrite Hchat, Hcontent. simpl.
    rewrite bool_decide_eq_false_2.
    2:{ rewrite Heq. simpl. destruct (stringOf (assoc "content" fields)); done. }
    rewrite Hout. simpl. rewrite messageFailed_reply by done.
    by rewrite emit_emit. }
  destruct (String.eqb type "chat:read") eqn:Hr.
  { apply nonEmptyString_checks in Hrest as (Hmid & _ & _).
    unfold tryCatch, handleChatRead, bind.
    rewrite (currentUser_found _ _ user) by done.
    destruct (prop "payload" pm) eqn:Hp; try done.
    simpl. simpl in Hchat, Hmid, Hout. rewrite Hchat, Hmid. simpl.
    rewrite Hout. simpl. rewrite messageFailed_reply by done.
    by rewrite emit_emit. }
  simpl in Hev. rewrite Hev.
  unfold tryCatch, handleChatTyping, bind.
  rewrite (currentUser_found _ _ user) by done.
  destruct (prop "payload" pm) eqn:Hp; try done.
  simpl. simpl in Hchat, Hrest, Hout. rewrite Hchat. simpl.
  destruct (assoc "isTyping" fields); try done. simpl.
  rewrite Hout. simpl. rewrite messageFailed_reply by done.
  by rewrite emit_emit.
Qed.

Lemma chat_event_outside_membership_witness :
  handleMessage defaultConfig 1 (sendText "Z" "hello" noAnswer) twoInChatA
  = (inr tt,
     emit [JsonParse;
           Sent 1 (ErrorFrame "NOT_PARTICIPANT"
                     "You are not a participant in this chat" None)]
          twoInChatA).
Proof.
  apply (chat_event_outside_membership defaultConfig 1
           (sendText "Z" "hello" noAnswer) twoInChatA
           (envelope "chat:message"
              [("chatId", JString "Z"); ("content", JString "hello")])
           "chat:message" sessionOfU).
  - vm_compute. discriminate.
  - reflexivity.
  - reflexivity.
  - reflexivity.
  - reflexivity.
  - vm_compute. reflexivity.
  - intros H. apply list_elem_of_singleton in H. vm_compute in H.
    discriminate H.
Defined.

(** X12: a send-message event whose storage call succeeds delivers
    the stored message once to every member of the chat's room except
    the sender, who gets no frame; nothing but the trace changes. *)
Theorem message_reaches_others_not_sender (config : Config) (w : WS)
    (frame : Inbound) (st : Server) (pm : JsValue) (user : ConnectedUser)
    (response : CreateMessageResponse) (evs : list Effect) :
  (N.of_nat (length (messageStr (raw frame))) ≤ maxMessageSize config)%N →
  parsed frame = Some pm →
  prop "type" pm = JString "chat:message" →
  acceptedPayload "chat:message" (prop "payload" pm) = true →
  getUserByWs w (presenceService st) = Some user →
  stringOf (prop "chatId" (prop "payload" pm)) ∈ chatRooms user →
  sendMessage (stringOf (prop "chatId" (prop "payload" pm)))
              (stringOf (prop "content" (prop "payload" pm)))
              (token user) (sendMessageAnswers frame)
  = (inr response, evs) →
  handleMessage config w frame st
  = (inr tt,
     emit (JsonParse :: evs
           ++ ((λ p, Sent p (ChatMessage
                               (stringOf (prop "chatId" (prop "payload" pm)))
                               (message response)))
                 <$> recipients (stringOf (prop "chatId" (prop "payload" pm)))
                                (Some w) (roomManager st)))
          st)
  ∧ w ∉ recipients (stringOf (prop "chatId" (prop "payload" pm))) (Some w)
                   (roomManager st).
Proof.
  intros Hlen Hparsed Htype Hacc Huser Hin Hsend. split.
  - rewrite (handleMessage_routed config w frame st pm "chat:message") by done.
    unfold acceptedPayload in Hacc. apply andb_true_iff in Hacc as [Hchat Hrest].
    apply nonEmptyString_checks in Hchat as (Hchat & _ & _).
    simpl in Hrest.
    apply nonEmptyString_checks in Hrest as (Hcontent & Heq & Hnon).
    apply Set_has_true in Hin.
    simpl. unfold tryCatch, handleChatMessage, bind.
    rewrite (currentUser_found _ _ user) by done.
    destruct (prop "payload" pm) eqn:Hp; try done.
    simpl. simpl in Hchat, Hcontent, Hin, Heq, Hnon, Hsend.
    rewrite Hchat, Hcontent. simpl.
    rewrite bool_decide_eq_false_2.
    2:{ rewrite Heq. simpl. destruct (stringOf (assoc "content" fields)); done. }
    rewrite Hin. simpl. unfold await. rewrite Hsend. simpl.
    unfold exec, broadcastToRoom. simpl. rewrite !emit_emit.
    done.
  - unfold recipients.
    destruct (rooms (roomManager st) !! _); [|apply not_elem_of_nil].
    rewrite list_elem_of_filter. naive_solver.
Qed.

Lemma message_reaches_others_not_sender_witness :
  handleMessage defaultConfig 1 (sendText "A" "hello" storesAtOnce) twoInChatA
  = (inr tt,
     emit (JsonParse
           :: (sendMessage "A" "hello" "token-U" storesAtOnce).2
           ++ ((λ p, Sent p (ChatMessage "A" (message stored)))
                 <$> recipients "A" (Some 1) (roomManager twoInChatA)))
          twoInChatA)
  ∧ 1 ∉ recipients "A" (Some 1) (roomManager twoInChatA).
Proof.
  apply (message_reaches_others_not_sender defaultConfig 1
           (sendText "A" "hello" storesAtOnce) twoInChatA
           (envelope "chat:message"
              [("chatId", JString "A"); ("content", JString "hello")])
           sessionOfU stored
           (sendMessage "A" "hello" "token-U" storesAtOnce).2).
  - vm_compute. discriminate.
  - reflexivity.
  - reflexivity.
  - reflexivity.
  - vm_compute. reflexivity.
  - apply list_elem_of_here.
  - vm_compute. reflexivity.
Defined.

(** X13: a read receipt for a chat of the sender's session that the
    storage service accepts is delivered once to every member of the
    chat's room except the sender, with the reader's identity and the
    current time; when the storage call fails the sender alone gets
    one [HTTP_ERROR] frame.  Nothing but the trace changes. *)
Theorem read_receipt_reaches_others (config : Config) (w : WS)
    (frame : Inbound) (st : Server) (pm : JsValue) (user : ConnectedUser) :
  let chatId := stringOf (prop "chatId" (prop "payload" pm)) in
  let messageId := stringOf (prop "messageId" (prop "payload" pm)) in
  let outcome := markMessageAsRead chatId messageId (token user)
                                  (markReadAnswers frame) in
  (N.of_nat (length (messageStr (raw frame))) ≤ maxMessageSize config)%N →
  parsed frame = Some pm →
  prop "type" pm = JString "chat:read" →
  acceptedPayload "chat:read" (prop "payload" pm) = true →
  getUserByWs w (presenceService st) = Some user →
  chatId ∈ chatRooms user →
  handleMessage config w frame st
  = (inr tt,
     emit (JsonParse :: outcome.2
           ++ match outcome.1 with
              | inr _ =>
                  (λ p, Sent p (ChatRead chatId messageId (userId user)
                                         (receivedAt frame)))
                    <$> recipients chatId (Some w) (roomManager st)
              | inl e =>
                  [Sent w (ErrorFrame "HTTP_ERROR" (errMessage e)
                             (errDetails e))]
              end)
          st).
Proof.
  intros chatId messageId outcome Hlen Hparsed Htype Hacc Huser Hin.
  rewrite (handleMessage_routed config w frame st pm "chat:read") by done.
  unfold acceptedPayload in Hacc. apply andb_true_iff in Hacc as [Hchat Hrest].
  apply nonEmptyString_checks in Hchat as (Hchat & _ & _).
  simpl in Hrest.
  apply nonEmptyString_checks in Hrest as (Hmessage & _ & _).
  apply Set_has_true in Hin.
  simpl. unfold tryCatch, handleChatRead, bind.
  rewrite (currentUser_found _ _ user) by done.
  subst outcome chatId messageId.
  destruct (prop "payload" pm) eqn:Hp; try done.
  simpl. simpl in Hchat, Hmessage, Hin.
  rewrite Hchat, Hmessage. simpl. rewrite Hin. simpl. unfold await.
  destruct (markMessageAsRead _ _ _ _) as [[e|[]] evs] eqn:Hread; simpl.
  - assert ((markMessageAsRead (stringOf (assoc "chatId" fields))
               (stringOf (assoc "messageId" fields)) (token user)
               (markReadAnswers frame)).1 = inl e) as Herr
      by by rewrite Hread.
    apply attemptLoop_error in Herr as [Hcode Hws].
    rewrite messageFailed_reply by done. rewrite Hcode.
    by rewrite !emit_emit.
  - unfold exec, broadcastToRoom. simpl. by rewrite !emit_emit.
Qed.

Lemma read_receipt_reaches_others_witness :
  handleMessage defaultConfig 1 markRead twoInChatA
  = (inr tt,
     emit (JsonParse
           :: (markMessageAsRead "A" "m1" "token-U" (markReadAnswers markRead)).2
           ++ match (markMessageAsRead "A" "m1" "token-U"
                       (markReadAnswers markRead)).1 with
              | inr _ =>
                  (λ p, Sent p (ChatRead "A" "m1" "U" (receivedAt markRead)))
                    <$> recipients "A" (Some 1) (roomManager twoInChatA)
              | inl e =>
                  [Sent 1 (ErrorFrame "HTTP_ERROR" (errMessage e)
                             (errDetails e))]
              end)
          twoInChatA).
Proof.
  apply (read_receipt_reaches_others defaultConfig 1 markRead twoInChatA
           (envelope "chat:read"
              [("chatId", JString "A"); ("messageId", JString "m1")])
           sessionOfU).
  - vm_compute. discriminate.
  - reflexivity.
  - reflexivity.
  - reflexivity.
  - vm_compute. reflexivity.
  - apply list_elem_of_here.
Defined.

(** X14: a chat event from a socket that the directory resolves to
    no session is answered with one [INTERNAL_ERROR] frame, whatever
    its payload, and changes nothing but the trace. *)
Theorem chat_event_without_session (config : Config) (w : WS)
    (frame : Inbound) (st : Server) (pm : JsValue) (type : string) :
  (N.of_nat (length (messageStr (raw frame))) ≤ maxMessageSize config)%N →
  parsed frame = Some pm →
  prop "type" pm = JString type →
  chatEvent type = true →
  getUserByWs w (presenceService st) = None →
  ∃ details,
    handleMessage config w frame st
    = (inr tt,
       emit [JsonParse;
             Sent w (ErrorFrame "INTERNAL_ERROR" "An internal error occurred"
                       details)] st)
    ∧ (development config = false → details = None).
Proof.
  intros Hlen Hparsed Htype Hev Hnone.
  assert (type ≠ "") as Hne by (intros ->; done).
  rewrite (handleMessage_routed config w frame st pm type) by done.
  unfold chatEvent in Hev.
  exists (internalDetails config "User not found in presence service").
  split; [|unfold internalDetails; by intros ->].
  destruct (String.eqb type "chat:message");
    [|destruct (String.eqb type "chat:read");
      [|simpl in Hev; rewrite Hev]];
    unfold tryCatch, handleChatMessage, handleChatRead, handleChatTyping, bind;
    rewrite currentUser_missing by done;
    rewrite messageFailed_internal by done;
    by rewrite emit_emit.
Qed.

Lemma chat_event_without_session_witness :
  ∃ details,
    handleMessage defaultConfig 9 (typing "A" true) twoInChatA
    = (inr tt,
       emit [JsonParse;
             Sent 9 (ErrorFrame "INTERNAL_ERROR" "An internal error occurred"
                       details)] twoInChatA)
    ∧ (development defaultConfig = false → details = None).
Proof.
  apply (chat_event_without_session defaultConfig 9 (typing "A" true)
           twoInChatA
           (envelope "chat:typing"
              [("chatId", JString "A"); ("isTyping", JBool true)])
           "chat:typing").
  - vm_compute. discriminate.
  - reflexivity.
  - reflexivity.
  - reflexivity.
  - vm_compute. reflexivity.
Defined.

(** X15: a chat event from a socket with a session is answered with
    one [INTERNAL_ERROR] frame when the envelope has no payload or a
    null one, and with one [VALIDATION_ERROR] frame "Invalid chatId"
    when the payload has no non-empty string [chatId]; no storage
    request is made and nothing but the trace changes. *)
Theorem chat_event_with_bad_payload (config : Config) (w : WS)
    (frame : Inbound) (st : Server) (pm : JsValue) (type : string)
    (user : ConnectedUser) :
  (N.of_nat (length (messageStr (raw frame))) ≤ maxMessageSize config)%N →
  parsed frame = Some pm →
  prop "type" pm = JString type →
  chatEvent type = true →
  getUserByWs w (presenceService st) = Some user →
  (prop "payload" pm = JUndefined ∨ prop "payload" pm = JNull →
   ∃ details,
     handleMessage config w frame st
     = (inr tt,
        emit [JsonParse;
              Sent w (ErrorFrame "INTERNAL_ERROR" "An internal error occurred"
                        details)] st)
     ∧ (development config = false → details = None))
  ∧ (prop "payload" pm ≠ JUndefined → prop "payload" pm ≠ JNull →
     nonEmptyString (prop "chatId" (prop "payload" pm)) = false →
     handleMessage config w frame st
     = (inr tt,
        emit [JsonParse;
              Sent w (ErrorFrame "VALIDATION_ERROR" "Invalid chatId" None)] st)).
Proof.
  intros Hlen Hparsed Htype Hev Huser.
  assert (type ≠ "") as Hne by (intros ->; done).
  rewrite (handleMessage_routed config w frame st pm type) by done.
  unfold chatEvent in Hev.
  assert (∀ v, nonEmptyString v = false →
               negb (truthy v) || negb (isString v) = true) as Hbad.
  { intros [] Hv; simpl in *; rewrite ?orb_true_r; try done.
    by rewrite Hv. }
  split.
  - intros Hp.
    eexists. split.
    + destruct (String.eqb type "chat:message");
        [|destruct (String.eqb type "chat:read");
          [|simpl in Hev; rewrite Hev]];
        unfold tryCatch, handleChatMessage, handleChatRead, handleChatTyping,
          bind;
        rewrite (currentUser_found _ _ user) by done;
        destruct Hp as [-> | ->]; simpl;
        rewrite messageFailed_internal by done;
        by rewrite emit_emit.
    + unfold internalDetails. by intros ->.
  - intros Hu Hn Hchat. apply Hbad in Hchat.
    destruct (String.eqb type "chat:message");
      [|destruct (String.eqb type "chat:read");
        [|simpl in Hev; rewrite Hev]];
      unfold tryCatch, handleChatMessage, handleChatRead, handleChatTyping,
        bind;
      rewrite (currentUser_found _ _ user) by done;
      destruct (prop "payload" pm) eqn:Hp; try done;
      simpl in Hchat |- *; rewrite ?Hchat; simpl;
      rewrite messageFailed_reply by done;
      by rewrite emit_emit.
Qed.

Lemma chat_event_with_bad_payload_witness :
  handleMessage defaultConfig 1 (sendText "" "hello" noAnswer) twoInChatA
  = (inr tt,
     emit [JsonParse;
           Sent 1 (ErrorFrame "VALIDATION_ERROR" "Invalid chatId" None)]
          twoInChatA).
Proof.
  apply (proj2 (chat_event_with_bad_payload defaultConfig 1
                  (sendText "" "hello" noAnswer) twoInChatA
                  (envelope "chat:message"
                     [("chatId", JString ""); ("content", JString "hello")])
                  "chat:message" sessionOfU
                  ltac:(vm_compute; discriminate)
                  ltac:(reflexivity) ltac:(reflexivity) ltac:(reflexivity)
                  ltac:(vm_compute; reflexivity))).
  - discriminate.
  - discriminate.
  - reflexivity.
Defined.

(** X16: a frame that is not JSON, or whose type is missing, not a
    string or empty, or is none of the four known types, is answered
    with one [INVALID_MESSAGE] frame; a frame that parses to [null] is
    answered with [INTERNAL_ERROR]; in each case nothing but the trace
    changes. *)
Theorem malformed_envelope_replies (config : Config) (w : WS)
    (frame : Inbound) (st : Server) :
  (N.of_nat (length (messageStr (raw frame))) ≤ maxMessageSize config)%N →
  (parsed frame = None →
   handleMessage config w frame st
   = (inr tt,
      emit [JsonParse;
            Sent w (ErrorFrame "INVALID_MESSAGE" "Invalid JSON format" None)]
           st))
  ∧ (parsed frame = Some JNull →
     ∃ details,
       handleMessage config w frame st
       = (inr tt,
          emit [JsonParse;
                Sent w (ErrorFrame "INTERNAL_ERROR" "An internal error occurred"
                          details)] st))
  ∧ (∀ pm, parsed frame = Some pm → pm ≠ JNull → pm ≠ JUndefined →
           nonEmptyString (prop "type" pm) = false →
           handleMessage config w frame st
           = (inr tt,
              emit [JsonParse;
                    Sent w (ErrorFrame "INVALID_MESSAGE"
                              "Missing or invalid message type" None)] st))
  ∧ (∀ pm type, parsed frame = Some pm → prop "type" pm = JString type →
                type ≠ "" → chatEvent type = false → type ≠ "ping" →
                handleMessage config w frame st
                = (inr tt,
                   emit [JsonParse;
                         Sent w (ErrorFrame "INVALID_MESSAGE"
                                   ("Unknown message type: " +:+ type) None)]
                        st)).
Proof.
  intros Hlen. pose proof Hlen as Hlen'. apply N.ltb_ge in Hlen'.
  split_and!.
  - intros Hp. unfold handleMessage, tryCatch, bind, exec.
    rewrite Hlen', Hp. simpl. unfold sendError, send. by rewrite emit_emit.
  - intros Hp. eexists. unfold handleMessage, tryCatch, bind, exec.
    rewrite Hlen', Hp. simpl.
    rewrite messageFailed_internal by done. by rewrite emit_emit.
  - intros pm Hp Hnull Hundef Htype.
    assert (negb (truthy (prop "type" pm)) || negb (isString (prop "type" pm))
            = true) as Hbad.
    { destruct (prop "type" pm); simpl in *; rewrite ?orb_true_r; try done.
      by rewrite Htype. }
    unfold handleMessage, tryCatch, bind, exec.
    rewrite Hlen', Hp. destruct pm; try done; simpl in Hbad |- *;
      rewrite ?Hbad; unfold sendError, send; by rewrite emit_emit.
  - intros pm type Hp Htype Hne Hev Hping.
    rewrite (handleMessage_routed config w frame st pm type) by done.
    unfold chatEvent in Hev. apply orb_false_iff in Hev as [Hev Ht].
    apply orb_false_iff in Hev as [Hm Hr].
    apply String.eqb_neq in Hping.
    rewrite Hm, Hr, Ht, Hping. unfold tryCatch, exec, sendError, send.
    by rewrite emit_emit.
Qed.

Lemma malformed_envelope_replies_witness :
  handleMessage defaultConfig 1 euroFrame twoInChatA
  = (inr tt,
     emit [JsonParse;
           Sent 1 (ErrorFrame "INVALID_MESSAGE" "Invalid JSON format" None)]
          twoInChatA).
Proof.
  apply (proj1 (malformed_envelope_replies defaultConfig 1 euroFrame twoInChatA
                  ltac:(vm_compute; discriminate))).
  reflexivity.
Defined.

(** X17: a ping is answered with one pong carrying the current time,
    to the sender only, whether or not the socket has a session and
    whatever the payload; nothing but the trace changes. *)
Theorem ping_is_answered_with_pong (config : Config) (w : WS)
    (frame : Inbound) (st : Server) (pm : JsValue) :
  (N.of_nat (length (messageStr (raw frame))) ≤ maxMessageSize config)%N →
  parsed frame = Some pm →
  prop "type" pm = JString "ping" →
  handleMessage config w frame st
  = (inr tt, emit [JsonParse; Sent w (Pong (receivedAt frame))] st).
Proof.
  intros Hlen Hparsed Htype.
  rewrite (handleMessage_routed config w frame st pm "ping") by done.
  simpl. unfold tryCatch, handlePing, exec, send. by rewrite emit_emit.
Qed.

Lemma ping_is_answered_with_pong_witness :
  handleMessage defaultConfig 9 (bare "ping") twoInChatA
  = (inr tt,
     emit [JsonParse; Sent 9 (Pong (receivedAt (bare "ping")))] twoInChatA).
Proof.
  apply (ping_is_answered_with_pong defaultConfig 9 (bare "ping") twoInChatA
           (JObject [("type", JString "ping")])).
  - vm_compute. discriminate.
  - reflexivity.
  - reflexivity.
Defined.

(** X18: the only validation errors [handleChatMessage] throws are
    "Invalid chatId" and "Invalid message content": its third check,
    "Message content cannot be empty", is never reached with an empty
    content. *)
Theorem empty_content_error_is_unreachable (w : WS) (payload : JsValue)
    (answers : nat → AttemptOutcome CreateMessageResponse) (st : Server)
    (e : JsError) :
  (handleChatMessage w payload answers st).1 = inl e →
  errClass e = ValidationError →
  errMessage e = "Invalid chatId" ∨ errMessage e = "Invalid message content".
Proof.
  unfold handleChatMessage, bind, currentUser.
  destruct (getUserByWs w (presenceService st)) as [user|];
    [|by intros [= <-]].
  destruct payload as [| |b|n|s|items|fields]; simpl;
    try (by intros [= <-]); try (intros [= <-] _; by left).
  destruct (negb (truthy (assoc "chatId" fields))
            || negb (isString (assoc "chatId" fields)));
    [intros [= <-] _; by left|].
  destruct (negb (truthy (assoc "content" fields))
            || negb (isString (assoc "content" fields))) eqn:Hcontent;
    [intros [= <-] _; by right|].
  rewrite bool_decide_eq_false_2.
  2:{ destruct (assoc "content" fields) as [| |b|n|s|items|fields'];
        simpl in Hcontent; rewrite ?orb_true_r in Hcontent; try done.
      by destruct s. }
  destruct (negb (Set_has _ _)); [by intros [= <-]|].
  unfold await.
  destruct (sendMessage _ _ _ _) as [[e'|response] evs] eqn:Hsend;
    [|done].
  simpl. intros [= <-] Hclass.
  assert ((sendMessage (stringOf (assoc "chatId" fields))
             (stringOf (assoc "content" fields)) (token user) answers).1
          = inl e') as Herr by by rewrite Hsend.
  apply attemptLoop_error in Herr as [Hcode _].
  unfold code in Hcode. by rewrite Hclass in Hcode.
Qed.

Lemma empty_content_error_is_unreachable_witness :
  errMessage (validationError "Invalid message content") = "Invalid chatId"
  ∨ errMessage (validationError "Invalid message content")
    = "Invalid message content".
Proof.
  apply (empty_content_error_is_unreachable 1
           (JObject [("chatId", JString "A"); ("content", JString "")])
           noAnswer twoInChatA (validationError "Invalid message content")).
  - vm_compute. reflexivity.
  - reflexivity.
Defined.

(** ** Connection lifecycle *)

Lemma authenticateConnection_error request answer e :
  Jwt.authenticateConnection request answer = inl e →
  errClass e = AuthenticationError ∧ errDetails e = None.
Proof.
  unfold Jwt.authenticateConnection, Jwt.verifyToken.
  destruct (Jwt.extractToken request); [|by intros [= <-]].
  destruct answer as [cause|status text [cause|p]]; try by intros [= <-].
  - destruct (negb (responseOk status)); [|by intros [= <-]].
    repeat case_match; by intros [= <-].
  - destruct (negb (responseOk status)).
    + repeat case_match; by intros [= <-].
    + destruct (_ || _); [by intros [= <-]|done].
Qed.

(** Both revisions of the open handler leave a connection that does
    not authenticate with one error frame and a close. *)
Lemma onOpen_rejected_state rev w input st :
  openOutcome input = None →
  ∃ message,
    onOpen rev w input st
    = mkServer (roomManager st) (presenceService st) (timers st)
               (nextTimerId st) (Set_add w (initialized st))
               (trace st ++ [Sent w (ErrorFrame "AUTH_FAILED" message None);
                             Closed w 4001 "Authentication failed"]).
Proof.
  intros Hout.
  destruct (openOutcome_rejected input Hout) as [Htok|(t & e & Htok & Hauth)].
  - exists "No authentication token provided".
    destruct rev; unfold onOpen, handleConnection,
      handleConnection_announceFirst, tryCatch, bind, exec;
      rewrite Htok; simpl; by rewrite <-app_assoc.
  - exists (errMessage e).
    destruct (authenticateConnection_error _ _ _ Hauth) as [Hclass Hdetails].
    destruct rev; unfold onOpen, handleConnection,
      handleConnection_announceFirst, tryCatch, bind, await, exec;
      rewrite Htok; simpl; rewrite Hauth; simpl; unfold connectionFailed;
      rewrite Hclass, Hdetails; simpl; rewrite app_nil_r;
      by rewrite <-app_assoc.
Qed.


(** X19: a connection that presents no token, or whose token the
    profile endpoint does not confirm, is sent one [AUTH_FAILED] frame
    and closed with code 4001; the chat list is not fetched and the
    rooms, the directory and the timers are left as they were; the
    socket is marked initialized all the same. *)
Theorem rejected_open_is_closed_unregistered (rev : Revision) (w : WS)
    (input : OpenInput) (st : Server) :
  openOutcome input = None →
  ∃ message,
    trace (onOpen rev w input st)
    = trace st ++ [Sent w (ErrorFrame "AUTH_FAILED" message None);
                   Closed w 4001 "Authentication failed"]
    ∧ roomManager (onOpen rev w input st) = roomManager st
    ∧ presenceService (onOpen rev w input st) = presenceService st
    ∧ timers (onOpen rev w input st) = timers st
    ∧ w ∈ initialized (onOpen rev w input st).
Proof.
  intros Hout.
  destruct (onOpen_rejected_state rev w input st Hout) as (message & ->).
  exists message. simpl. split_and!; try done.
  apply elem_of_Set_add. by left.
Qed.

Lemma rejected_open_is_closed_unregistered_witness :
  ∃ message,
    trace (onOpen AnnounceFirst 3 openWithoutToken twoInChatA)
    = trace twoInChatA
      ++ [Sent 3 (ErrorFrame "AUTH_FAILED" message None);
          Closed 3 4001 "Authentication failed"]
    ∧ roomManager (onOpen AnnounceFirst 3 openWithoutToken twoInChatA)
      = roomManager twoInChatA
    ∧ presenceService (onOpen AnnounceFirst 3 openWithoutToken twoInChatA)
      = presenceService twoInChatA
    ∧ timers (onOpen AnnounceFirst 3 openWithoutToken twoInChatA)
      = timers twoInChatA
    ∧ 3 ∈ initialized (onOpen AnnounceFirst 3 openWithoutToken twoInChatA).
Proof.
  apply (rejected_open_is_closed_unregistered AnnounceFirst 3 openWithoutToken
           twoInChatA).
  reflexivity.
Defined.

(** X20: a connection that authenticates while the chat list cannot
    be fetched is accepted with an empty chat list: its session is
    registered with no chats, it joins no room, it is sent the
    confirmation with no chat ids, and nobody is notified. *)
Theorem chat_list_failure_is_soft (rev : Revision) (w : WS)
    (input : OpenInput) (st : Server) (token : string)
    (profile : Jwt.UserProfile) (e : JsError) :
  openOutcome input = Some (token, profile) →
  (getChats token (chatsAnswers input)).1 = inl e →
  trace (onOpen rev w input st)
  = trace st ++ (getChats token (chatsAnswers input)).2
    ++ [Sent w (Connected (Jwt.userId profile) [])]
  ∧ roomManager (onOpen rev w input st) = roomManager st
  ∧ presenceService (onOpen rev w input st)
    = addUser (newConnectedUser profile w token [] (openedAt input))
              (presenceService st).
Proof.
  intros Hout Hfail.
  apply openOutcome_accepted in Hout as (Htok & Hauth & _).
  assert (fetchedChatIds token (chatsAnswers input) = []) as Hnone
    by (unfold fetchedChatIds; by rewrite Hfail).
  destruct rev; unfold onOpen, handleConnection,
    handleConnection_announceFirst, tryCatch, bind, await, exec;
    rewrite Htok, Hauth; simpl; rewrite fetchChatIds_spec; simpl;
    rewrite Hnone; simpl; rewrite app_nil_r;
    by rewrite <-app_assoc.
Qed.

Lemma chat_list_failure_is_soft_witness :
  trace (onOpen BackfillThenAnnounce 3 (openWhileStorageDown "W") twoInChatA)
  = trace twoInChatA
    ++ (getChats "token-W" (noAnswer (T:=ChatsResponse))).2
    ++ [Sent 3 (Connected "W" [])]
  ∧ roomManager
      (onOpen BackfillThenAnnounce 3 (openWhileStorageDown "W") twoInChatA)
    = roomManager twoInChatA
  ∧ presenceService
      (onOpen BackfillThenAnnounce 3 (openWhileStorageDown "W") twoInChatA)
    = addUser
        (newConnectedUser (Jwt.mkProfile "W" "W@example.com" "W" "buyer") 3
           "token-W" [] "2024-01-01T12:00:00.000Z")
        (presenceService twoInChatA).
Proof.
  apply (chat_list_failure_is_soft BackfillThenAnnounce 3
           (openWhileStorageDown "W") twoInChatA "token-W"
           (Jwt.mkProfile "W" "W@example.com" "W" "buyer")
           (mkError (HttpError None) "Request failed after retries"
              (Some (JObject [("originalError", JString "fetch failed")])))).
  - reflexivity.
  - vm_compute. reflexivity.
Defined.

Lemma emit_nil st : emit [] st = st.
Proof. destruct st. unfold emit; simpl. by rewrite app_nil_r. Qed.

Lemma backfillOnline_inner_exact ws uid pres participants :
  ∀ onlineUsers st,
    presenceService st = pres →
    ∃ news,
      foldl
        (λ '(onlineUsers, s) participantWs,
           match getUserByWs participantWs (presenceService s) with
           | Some participant =>
               if negb (String.eqb (userId participant) uid)
                  && negb (Set_has (userId participant) onlineUsers)
               then (Set_add (userId participant) onlineUsers,
                     send ws (UserOnline (userId participant) true) s)
               else (onlineUsers, s)
           | None => (onlineUsers, s)
           end)
        (onlineUsers, st) participants
      = (onlineUsers ++ news,
         emit ((λ u, Sent ws (UserOnline u true)) <$> news) st)
      ∧ (NoDup onlineUsers → NoDup (onlineUsers ++ news))
      ∧ ∀ u, u ∈ onlineUsers ++ news ↔
             u ∈ onlineUsers
             ∨ (u ≠ uid
                ∧ ∃ p participant,
                    p ∈ participants
                    ∧ getUserByWs p pres = Some participant
                    ∧ userId participant = u).
Proof.
  induction participants as [|p participants IH]; intros onlineUsers st Hpres;
    simpl.
  - exists []. rewrite app_nil_r, emit_nil. split_and!; [done|done|].
    intros u. split; [by left|]. intros [?|(_ & p & ? & ?%elem_of_nil & _)];
      done.
  - rewrite Hpres.
    destruct (getUserByWs p pres) as [participant|] eqn:Hp.
    + destruct (negb (String.eqb (userId participant) uid)
                && negb (Set_has (userId participant) onlineUsers)) eqn:Hnew.
      * apply andb_true_iff in Hnew as [Hne Hfresh].
        apply negb_true_iff, String.eqb_neq in Hne.
        apply negb_true_iff, Set_has_false in Hfresh.
        assert (Set_add (userId participant) onlineUsers
                = onlineUsers ++ [userId participant]) as ->
          by (unfold Set_add; by rewrite decide_False).
        destruct (IH (onlineUsers ++ [userId participant])
                     (send ws (UserOnline (userId participant) true) st))
          as (news & -> & Hnd & Hin); [done|].
        exists (userId participant :: news).
        rewrite <-app_assoc. simpl. unfold send. rewrite emit_emit.
        split_and!; [done| |].
        -- intros Hnodup. rewrite <-app_assoc in Hnd. apply Hnd.
           apply NoDup_app. split_and!; [done| |apply NoDup_singleton].
           intros x Hx ->%list_elem_of_singleton. done.
        -- intros u. rewrite <-app_assoc in Hin. simpl in Hin. rewrite Hin.
           rewrite elem_of_app, list_elem_of_singleton.
           setoid_rewrite elem_of_cons. naive_solver.
      * destruct (IH onlineUsers st Hpres) as (news & -> & Hnd & Hin).
        exists news. split_and!; [done|done|].
        intros u. rewrite Hin. setoid_rewrite elem_of_cons.
        split; [naive_solver|].
        intros [?|(Hne & p' & participant' & [->|Hp'] & Hget & <-)];
          [by left| |right; naive_solver].
        assert (participant' = participant) as -> by congruence.
        apply andb_false_iff in Hnew as [Hsame|Hseen].
        -- apply negb_false_iff, String.eqb_eq in Hsame. done.
        -- apply negb_false_iff, Set_has_true in Hseen. by left.
    + destruct (IH onlineUsers st Hpres) as (news & -> & Hnd & Hin).
      exists news. split_and!; [done|done|].
      intros u. rewrite Hin. setoid_rewrite elem_of_cons.
      split; [naive_solver|].
      intros [?|(Hne & p' & participant' & [->|Hp'] & Hget & <-)];
        [by left|congruence|right; naive_solver].
Qed.

Lemma backfillOnline_outer_exact ws uid rm pres chatIds :
  ∀ onlineUsers st,
    roomManager st = rm → presenceService st = pres →
    ∃ news,
      foldl
        (λ acc chatId,
           foldl
             (λ '(onlineUsers, s) participantWs,
                match getUserByWs participantWs (presenceService s) with
                | Some participant =>
                    if negb (String.eqb (userId participant) uid)
                       && negb (Set_has (userId participant) onlineUsers)
                    then (Set_add (userId participant) onlineUsers,
                          send ws (UserOnline (userId participant) true) s)
                    else (onlineUsers, s)
                | None => (onlineUsers, s)
                end)
             acc (getRoomParticipants chatId (roomManager acc.2)))
        (onlineUsers, st) chatIds
      = (onlineUsers ++ news,
         emit ((λ u, Sent ws (UserOnline u true)) <$> news) st)
      ∧ (NoDup onlineUsers → NoDup (onlineUsers ++ news))
      ∧ ∀ u, u ∈ onlineUsers ++ news ↔
             u ∈ onlineUsers
             ∨ (u ≠ uid
                ∧ ∃ c p participant,
                    c ∈ chatIds
                    ∧ p ∈ getRoomParticipants c rm
                    ∧ getUserByWs p pres = Some participant
                    ∧ userId participant = u).
Proof.
  induction chatIds as [|c chatIds IH]; intros onlineUsers st Hrm Hpres;
    simpl.
  - exists []. rewrite app_nil_r, emit_nil. split_and!; [done|done|].
    intros u. split; [by left|].
    intros [?|(_ & c & p & ? & ?%elem_of_nil & _)]; done.
  - rewrite Hrm.
    destruct (backfillOnline_inner_exact ws uid pres
                (getRoomParticipants c rm) onlineUsers st Hpres)
      as (news1 & -> & Hnd1 & Hin1).
    destruct (IH (onlineUsers ++ news1)
                 (emit ((λ u, Sent ws (UserOnline u true)) <$> news1) st))
      as (news2 & -> & Hnd2 & Hin2); [done|done|].
    exists (news1 ++ news2).
    rewrite emit_emit, <-fmap_app, <-app_assoc.
    split_and!; [done| |].
    + intros Hnodup. rewrite <-app_assoc in Hnd2. auto.
    + intros u. rewrite <-app_assoc in Hin2. rewrite Hin2, Hin1.
      setoid_rewrite elem_of_cons. naive_solver.
Qed.

(** X21: the loop that tells a new connection who is online sends it
    one online notice for each identity, other than its own, that has
    a session on a socket in one of its chats' rooms: one per identity
    however many chats are shared, and no other frame. *)
Theorem backfill_reports_each_peer_identity_once (ws : WS) (uid : string)
    (chatIds : list string) (st : Server) :
  ∃ peers,
    backfillOnline ws uid chatIds st
    = emit ((λ u, Sent ws (UserOnline u true)) <$> peers) st
    ∧ NoDup peers
    ∧ ∀ u, u ∈ peers ↔
           u ≠ uid
           ∧ ∃ c p participant,
               c ∈ chatIds
               ∧ p ∈ getRoomParticipants c (roomManager st)
               ∧ getUserByWs p (presenceService st) = Some participant
               ∧ userId participant = u.
Proof.
  destruct (backfillOnline_outer_exact ws uid (roomManager st)
              (presenceService st) chatIds [] st eq_refl eq_refl)
    as (peers & Heq & Hnd & Hin).
  exists peers. unfold backfillOnline. rewrite Heq. simpl.
  split_and!; [done|apply Hnd, NoDup_nil_2|].
  intros u. simpl in Hin. rewrite Hin, elem_of_nil. naive_solver.
Qed.

(** X22: a connection that authenticates is sent the confirmation
    first, then one online notice per peer identity (never its own),
    and then the announcement of its own identity goes to the members
    of each of its chats' rooms, the new connection among them; the
    other revision of the handler announces first, sends no peer
    status and confirms last. *)
Theorem accepted_open_frame_order (w : WS) (input : OpenInput) (st : Server)
    (token : string) (profile : Jwt.UserProfile) :
  let chatIds := fetchedChatIds token (chatsAnswers input) in
  let uid := Jwt.userId profile in
  let joined := foldl (λ rm c, joinRoom c w rm) (roomManager st) chatIds in
  let announcement :=
    flat_map (λ c, (λ p, Sent p (UserOnline uid true))
                     <$> getRoomParticipants c joined)
             (Set_of chatIds) in
  openOutcome input = Some (token, profile) →
  (∃ peers,
     trace (onOpen BackfillThenAnnounce w input st)
     = trace st ++ (getChats token (chatsAnswers input)).2
       ++ Sent w (Connected uid chatIds)
          :: ((λ u, Sent w (UserOnline u true)) <$> peers)
       ++ announcement
     ∧ NoDup peers ∧ uid ∉ peers)
  ∧ trace (onOpen AnnounceFirst w input st)
    = trace st ++ (getChats token (chatsAnswers input)).2
      ++ announcement ++ [Sent w (Connected uid chatIds)]
  ∧ (∀ c, c ∈ chatIds → w ∈ getRoomParticipants c joined).
Proof.
  intros chatIds uid joined announcement Hout.
  apply openOutcome_accepted in Hout as (Htok & Hauth & _).
  split_and!.
  - unfold onOpen, handleConnection, tryCatch, bind, await, exec.
    rewrite Htok, Hauth. simpl. rewrite fetchChatIds_spec. simpl.
    fold chatIds uid.
    match goal with
    | |- context [backfillOnline ?a ?b ?c ?s] =>
        destruct (backfillOnline_outer_exact a b (roomManager s)
                    (presenceService s) c [] s eq_refl eq_refl)
          as (peers & Heq & Hnd & Hin);
        unfold backfillOnline; rewrite Heq
    end.
    exists peers. simpl.
    match goal with
    | |- context [broadcastPresence ?u ?o ?cs ?s] =>
        destruct (broadcastPresence_spec u o cs s) as (_ & ->)
    end.
    split_and!; [|apply Hnd, NoDup_nil_2|].
    + unfold send, emit, joinAll, setRoomManager, setPresence.
      cbn [trace roomManager]. rewrite app_nil_r.
      by rewrite <-!app_assoc.
    + simpl in Hin. rewrite Hin, elem_of_nil. naive_solver.
  - unfold onOpen, handleConnection_announceFirst, tryCatch, bind, await, exec.
    rewrite Htok, Hauth. simpl. rewrite fetchChatIds_spec. simpl.
    fold chatIds uid.
    match goal with
    | |- context [broadcastPresence ?u ?o ?cs ?s] =>
        destruct (broadcastPresence_spec u o cs s) as (_ & Htrace)
    end.
    rewrite Htrace.
    unfold emit, joinAll, setRoomManager, setPresence.
    cbn [trace roomManager]. rewrite app_nil_r.
    by rewrite <-!app_assoc.
  - intros c Hc. apply participants_joinAll. by left.
Qed.

Lemma accepted_open_frame_order_witness :
  2 ∈ getRoomParticipants "A"
        (foldl (λ rm c, joinRoom c 2 rm) (roomManager oneInChatsAB)
               (fetchedChatIds "token-V" (chatsAnswers (openAs "V" ["A"])))).
Proof.
  pose proof (accepted_open_frame_order 2 (openAs "V" ["A"]) oneInChatsAB
                "token-V" (Jwt.mkProfile "V" "V@example.com" "V" "buyer")
                ltac:(vm_compute; reflexivity)) as (_ & _ & Hjoined).
  apply (Hjoined "A"). vm_compute. apply list_elem_of_here.
Defined.

(** X23: in any run, closing a connection that has a session sends
    the offline notice of its identity to the members left in each of
    the session's chats, once for every chat they share with it, and
    sends the closing connection nothing. *)
Theorem close_notifies_remaining_members (config : Config)
    (evs : list Event) (w : WS) (user : ConnectedUser) :
  getUserByWs w (presenceService (run config evs)) = Some user →
  trace (onClose w (run config evs))
  = trace (run config evs)
    ++ flat_map
         (λ c, (λ p, Sent p (UserOnline (userId user) false))
                 <$> Set_delete w
                       (getRoomParticipants c (roomManager (run config evs))))
         (Set_of (chatRooms user))
  ∧ ∀ c, w ∉ Set_delete w
                (getRoomParticipants c (roomManager (run config evs))).
Proof.
  intros Huser. split.
  - pose proof (ix_rooms _ (indexed_run config evs)) as Hwf.
    unfold onClose, handleDisconnection. rewrite Huser.
    apply getUserByWs_Some in Huser as (uid & Hw & Hne & Hu).
    destruct (removeUser_found w (run config evs) uid user Hw Hne Hu)
      as (_ & _ & _ & _ & Hrm & Htr & _).
    match goal with
    | |- context [broadcastPresence ?u ?o ?cs ?s] =>
        destruct (broadcastPresence_spec u o cs s) as (_ & ->)
    end.
    simpl. rewrite Htr, Hrm. f_equal. apply flat_map_ext. intros c.
    by rewrite participants_leaveAllRooms.
  - intros c. rewrite elem_of_Set_delete. naive_solver.
Qed.

Lemma close_notifies_remaining_members_witness :
  trace (onClose 1 twoInChatA)
  = trace twoInChatA
    ++ flat_map
         (λ c, (λ p, Sent p (UserOnline (userId sessionOfU) false))
                 <$> Set_delete 1 (getRoomParticipants c (roomManager twoInChatA)))
         (Set_of (chatRooms sessionOfU))
  ∧ ∀ c, 1 ∉ Set_delete 1 (getRoomParticipants c (roomManager twoInChatA)).
Proof.
  apply (close_notifies_remaining_members defaultConfig
           [Open BackfillThenAnnounce 1 (openAs "U" ["A"]);
            Open BackfillThenAnnounce 2 (openAs "V" ["A"])]
           1 sessionOfU).
  vm_compute. reflexivity.
Defined.






(** ** Typing timers *)

(** X25: in runs with distinct identities at most one typing timer is
    armed for an identity and a chat: a typing event replaces the timer
    of the one before it. *)
Theorem one_typing_timer_per_identity_and_chat (config : Config)
    (evs : list Event) (t1 t2 : TimerId) (cb1 cb2 : TimerCallback) :
  distinctIdentities config initialServer evs = true →
  timers (run config evs) !! t1 = Some cb1 →
  timers (run config evs) !! t2 = Some cb2 →
  cb_userId cb1 = cb_userId cb2 →
  cb_chatId cb1 = cb_chatId cb2 →
  t1 = t2.
Proof.
  intros Hd H1 H2 Hu Hc.
  destruct (settled_steps config evs initialServer
              (conj paired_initial timersOwned_initial) Hd) as [_ Hto].
  fold (run config evs) in Hto.
  destruct (to_armed _ Hto t1 cb1 H1) as (u1 & Hu1 & _ & Ht1 & _).
  destruct (to_armed _ Hto t2 cb2 H2) as (u2 & Hu2 & _ & Ht2 & _).
  rewrite Hu, Hu2 in Hu1. injection Hu1 as <-.
  rewrite Hc, Ht2 in Ht1. by injection Ht1.
Qed.

Lemma one_typing_timer_per_identity_and_chat_witness : 1 = 1 :> TimerId.
Proof.
  apply (one_typing_timer_per_identity_and_chat defaultConfig
           [Open BackfillThenAnnounce 1 (openAs "U" ["A"]);
            Receive 1 (typing "A" true);
            Receive 1 (typing "A" true)]
           1 1 (mkCallback "A" "U" "U" 1) (mkCallback "A" "U" "U" 1)).
  - vm_compute. reflexivity.
  - vm_compute. reflexivity.
  - vm_compute. reflexivity.
  - reflexivity.
  - reflexivity.
Defined.

(** X26: in any run, a typing event for a chat of the sender's
    session sends the typing frame once to every other member of the
    chat's room, cancels the timer the session stores for the chat,
    and, when the sender is typing, arms one new timer whose closure
    carries the chat, the sender's identity, name and socket, and
    stores its handle in the session. *)
Theorem typing_event_rearms_timer (config : Config) (evs : list Event)
    (w : WS) (frame : Inbound) (pm : JsValue) (user : ConnectedUser)
    (isTyping : bool) :
  let st := run config evs in
  let st' := (handleMessage config w frame st).2 in
  let chatId := stringOf (prop "chatId" (prop "payload" pm)) in
  let cleared := match typingTimers user !! chatId with
                 | Some timer => delete timer (timers st)
                 | None => timers st
                 end in
  (N.of_nat (length (messageStr (raw frame))) ≤ maxMessageSize config)%N →
  parsed frame = Some pm →
  prop "type" pm = JString "chat:typing" →
  nonEmptyString (prop "chatId" (prop "payload" pm)) = true →
  prop "isTyping" (prop "payload" pm) = JBool isTyping →
  getUserByWs w (presenceService st) = Some user →
  chatId ∈ chatRooms user →
  trace st'
  = trace st
    ++ JsonParse
       :: ((λ p, Sent p (ChatTyping chatId (userId user) (userName user)
                                    isTyping))
             <$> recipients chatId (Some w) (roomManager st))
  ∧ roomManager st' = roomManager st
  ∧ timers st'
    = (if isTyping then
         <[nextTimerId st := mkCallback chatId (userId user) (userName user) w]>
           cleared
       else cleared)
  ∧ connectedUsers (presenceService st') !! userId user
    = Some (setUserTimers user
              (if isTyping then <[chatId := nextTimerId st]> (typingTimers user)
               else delete chatId (typingTimers user))).
Proof.
  intros st st' chatId cleared Hlen Hparsed Htype Hchat Hbool Huser Hin.
  subst st'.
  rewrite (handleMessage_routed config w frame st pm "chat:typing") by done.
  apply nonEmptyString_checks in Hchat as (Hchat & _ & _).
  apply Set_has_true in Hin.
  pose proof Huser as Hrecord.
  apply getUserByWs_Some in Hrecord as (uid & Hw & Hne & Hrecord).
  pose proof (ix_key _ (indexed_run config evs) uid user Hrecord) as Hkey.
  fold st in Hkey. rewrite <-Hkey in Hrecord.
  simpl. unfold tryCatch, handleChatTyping, bind.
  rewrite (currentUser_found _ _ user) by done.
  subst chatId cleared.
  destruct (prop "payload" pm) eqn:Hp; try done.
  simpl. simpl in Hchat, Hin, Hbool.
  rewrite Hchat, Hbool. simpl. rewrite Hin. simpl.
  set (c := stringOf (assoc "chatId" fields)) in *.
  unfold broadcastToRoom. rewrite emit_emit.
  destruct isTyping; unfold exec, clearTypingTimer, setTypingTimer, emit;
    simpl; rewrite Hrecord;
    destruct (typingTimers user !! c) as [old|] eqn:Hold; simpl.
  - rewrite lookup_insert_eq. simpl. rewrite lookup_delete_eq. simpl.
    rewrite lookup_insert_eq. unfold setUserTimers; simpl.
    by rewrite insert_delete_eq.
  - rewrite Hrecord. simpl. rewrite Hold. simpl.
    by rewrite lookup_insert_eq.
  - by rewrite lookup_insert_eq.
  - rewrite delete_id by done. split_and!; try done.
    rewrite Hrecord. by destruct user.
Qed.

Lemma typing_event_rearms_timer_witness :
  roomManager
    (handleMessage defaultConfig 1 (typing "A" true)
       (run defaultConfig
          [Open BackfillThenAnnounce 1 (openAs "U" ["A"]);
           Open BackfillThenAnnounce 2 (openAs "V" ["A"])])).2
  = roomManager
      (run defaultConfig
         [Open BackfillThenAnnounce 1 (openAs "U" ["A"]);
          Open BackfillThenAnnounce 2 (openAs "V" ["A"])]).
Proof.
  pose proof (typing_event_rearms_timer defaultConfig
                [Open BackfillThenAnnounce 1 (openAs "U" ["A"]);
                 Open BackfillThenAnnounce 2 (openAs "V" ["A"])]
                1 (typing "A" true)
                (envelope "chat:typing"
                   [("chatId", JString "A"); ("isTyping", JBool true)])
                sessionOfU true
                ltac:(vm_compute; discriminate)
                ltac:(reflexivity) ltac:(reflexivity) ltac:(reflexivity)
                ltac:(reflexivity)
                ltac:(vm_compute; reflexivity)
                ltac:(apply list_elem_of_here)) as (_ & Hrooms & _).
  exact Hrooms.
Defined.
